(** * gget: a git-dumper sandbox driver (main.go)

    A shallow embedding of [main.go] and a verification of its container
    lifecycle: image build, per-target create/start/logs/remove, log
    classification, fan-out over a list of targets and signal cleanup.

    Go strings are byte strings: they are modelled by [string] (a list of
    [ascii] bytes).  Calls that leave the process (the Docker engine, the file
    system, the terminal, the Go runtime's goroutines and wait group) are the
    nodes of a program tree [Prog]; a scheduler interleaves the goroutines. *)

From Stdlib Require Import String Ascii List ZArith Bool Arith Lia.
Import ListNotations.
Open Scope string_scope.
Open Scope list_scope.
Open Scope nat_scope.

(* ================================================================= *)
(** ** Part 1: the pieces of Go's [strings], [regexp] and [net/url] that
       [main.go] calls *)

(** [strings.Contains(s, substr)]. *)
Fixpoint strings_Contains (s substr : string) : bool :=
  String.prefix substr s ||
  match s with
  | EmptyString => false
  | String _ s' => strings_Contains s' substr
  end.

(** [strings.Replace(s, old, new, n)] for a non-empty [old]: the occurrences
    of [old] are found from the left and do not overlap; [budget] is the
    number of replacements still allowed ([None] when [n < 0]); [skip] counts
    the bytes of the occurrence being replaced that are still to be dropped.
    With an empty [old], Go inserts [new] around every rune; [main.go] never
    does that, and the model leaves [s] as it is. *)
Fixpoint replace_from (old new : string) (budget : option nat) (skip : nat)
    (s : string) : string :=
  match s with
  | EmptyString => EmptyString
  | String c s' =>
      match skip with
      | S k => replace_from old new budget k s'
      | O =>
          let allowed := match budget with Some O => false | _ => true end in
          if allowed && String.prefix old s then
            String.append new
              (replace_from old new (option_map Nat.pred budget)
                 (String.length old - 1) s')
          else String c (replace_from old new budget 0 s')
      end
  end.

Definition strings_Replace (s old new : string) (n : Z) : string :=
  match old with
  | EmptyString => s
  | _ => replace_from old new (if (n <? 0)%Z then None else Some (Z.to_nat n)) 0 s
  end.

(** [strings.ReplaceAll(s, old, new) = strings.Replace(s, old, new, -1)]. *)
Definition strings_ReplaceAll (s old new : string) : string :=
  strings_Replace s old new (-1).

(** [strings.HasPrefix], [strings.HasSuffix], [strings.LastIndexByte]. *)
Definition strings_HasPrefix (s p : string) : bool := String.prefix p s.

Definition strings_HasSuffix (s p : string) : bool :=
  (String.length p <=? String.length s) &&
  String.eqb (substring (String.length s - String.length p) (String.length p) s) p.

Fixpoint strings_LastIndexByte (s : string) (c : ascii) : option nat :=
  match s with
  | EmptyString => None
  | String d s' =>
      match strings_LastIndexByte s' c with
      | Some i => Some (S i)
      | None => if Ascii.eqb d c then Some 0 else None
      end
  end.

(** The bytes of a string, for [forallb] and the like. *)
Definition bytes_of (s : string) : list ascii := list_ascii_of_string s.

Definition in_range (lo hi c : ascii) : bool :=
  (nat_of_ascii lo <=? nat_of_ascii c) && (nat_of_ascii c <=? nat_of_ascii hi).

Definition is_digit (c : ascii) : bool := in_range "0" "9" c.
Definition is_lower (c : ascii) : bool := in_range "a" "z" c.
Definition is_upper (c : ascii) : bool := in_range "A" "Z" c.
Definition is_alnum (c : ascii) : bool := is_lower c || is_upper c || is_digit c.

Definition one_of (set : string) (c : ascii) : bool :=
  existsb (Ascii.eqb c) (bytes_of set).

(** *** [net/url]: the parsed URL and its method [Hostname] *)

(** The fields of [url.URL] that the program reads. *)
Record URL : Type := mkURL {
  Scheme : string;
  Host : string;      (* host or host:port *)
  Path : string
}.

(** [validOptionalPort] of net/url: empty, or a colon and digits. *)
Definition validOptionalPort (port : string) : bool :=
  match port with
  | EmptyString => true
  | String c rest => Ascii.eqb c ":" && forallb is_digit (bytes_of rest)
  end.

(** [splitHostPort] of net/url: a valid [:port] suffix is cut off, then the
    square brackets of an IPv6 literal are removed. *)
Definition splitHostPort (hostPort : string) : string * string :=
  let n := String.length hostPort in
  let '(host, port) :=
    match strings_LastIndexByte hostPort ":" with
    | Some colon =>
        if validOptionalPort (substring colon (n - colon) hostPort)
        then (substring 0 colon hostPort,
              substring (colon + 1) (n - (colon + 1)) hostPort)
        else (hostPort, EmptyString)
    | None => (hostPort, EmptyString)
    end in
  if strings_HasPrefix host "[" && strings_HasSuffix host "]"
  then (substring 1 (String.length host - 2) host, port)
  else (host, port).

Definition Hostname (u : URL) : string := fst (splitHostPort (Host u)).

(** *** [regexp]: the constructs of [URLRegex] and leftmost-first matching *)

(** Only what the pattern of [URLRegex] is built from: literal bytes, byte
    classes, concatenation, a greedy [?], a greedy counted repetition of a
    class ([{lo,hi}], and [*] as [{0,}]), and the ASCII word boundary. *)
Inductive Regex : Type :=
| REps
| RChar (c : ascii)
| RSet (f : ascii -> bool)
| RCat (r1 r2 : Regex)
| ROpt (r : Regex)
| RRepSet (f : ascii -> bool) (lo : nat) (hi : option nat)
| RWordBoundary.

(** [\w] of RE2: [0-9A-Za-z_]; the text before the first and after the last
    byte counts as a non-word byte. *)
Definition is_word (c : option ascii) : bool :=
  match c with
  | Some c => is_alnum c || Ascii.eqb c "_"
  | None => false
  end.

Definition first_byte (s : string) : option ascii :=
  match s with
  | EmptyString => None
  | String c _ => Some c
  end.

(** A backtracking matcher in continuation-passing style: [k prev rest] tries
    the rest of the pattern on [rest], the byte before [rest] being [prev];
    the result is the text left after the whole match.  Greedy operators try
    the longer alternative first, which is the order Go's [regexp] promises
    (the match a backtracking search would find first). *)
Fixpoint rx_rep (f : ascii -> bool) (lo : nat) (hi : option nat)
    (k : option ascii -> string -> option string)
    (n : nat) (prev : option ascii) (s : string) : option string :=
  let stop := if lo <=? n then k prev s else None in
  match s with
  | EmptyString => stop
  | String c s' =>
      let room := match hi with Some h => n <? h | None => true end in
      if room && f c then
        match rx_rep f lo hi k (S n) (Some c) s' with
        | Some rest => Some rest
        | None => stop
        end
      else stop
  end.

Fixpoint rx_match (r : Regex) (prev : option ascii) (s : string)
    (k : option ascii -> string -> option string) : option string :=
  match r with
  | REps => k prev s
  | RChar c =>
      match s with
      | String d s' => if Ascii.eqb c d then k (Some d) s' else None
      | EmptyString => None
      end
  | RSet f =>
      match s with
      | String d s' => if f d then k (Some d) s' else None
      | EmptyString => None
      end
  | RCat r1 r2 => rx_match r1 prev s (fun prev' s' => rx_match r2 prev' s' k)
  | ROpt r1 =>
      match rx_match r1 prev s k with
      | Some rest => Some rest
      | None => k prev s
      end
  | RRepSet f lo hi => rx_rep f lo hi k 0 prev s
  | RWordBoundary =>
      if xorb (is_word prev) (is_word (first_byte s)) then k prev s else None
  end.

(** The leftmost match: the first start position at which the pattern
    matches, with the match the backtracking order prefers there. *)
Fixpoint rx_find_at (r : Regex) (prev : option ascii) (s : string) : option string :=
  match rx_match r prev s (fun _ rest => Some rest) with
  | Some rest => Some (substring 0 (String.length s - String.length rest) s)
  | None =>
      match s with
      | EmptyString => None
      | String c s' => rx_find_at r (Some c) s'
      end
  end.

(** [string(re.Find(p))]: the leftmost match, or the empty string when
    [Find] returns nil. *)
Definition Regexp_Find (r : Regex) (p : string) : string :=
  match rx_find_at r None p with
  | Some m => m
  | None => EmptyString
  end.

Fixpoint rx_lit (s : string) : Regex :=
  match s with
  | EmptyString => REps
  | String c s' => RCat (RChar c) (rx_lit s')
  end.

(** The three bracket expressions of [URLRegex]. *)
Definition url_set1 (c : ascii) : bool := is_alnum c || one_of "-@:%._+~#=" c.
Definition url_set2 (c : ascii) : bool := is_alnum c || one_of "()" c.
Definition url_set3 (c : ascii) : bool := is_alnum c || one_of "-()@:%_+.~#?&/=" c.

(** [URLRegex], main.go line 35, compiled.  The pattern reads, piece by piece:
    [http], [s?], [:\/\/], [(www\.)?], the first bracket expression
    [-a-zA-Z0-9@:%._\+~#=] repeated [{1,256}], [\.], the second one
    [a-zA-Z0-9()] repeated [{1,6}], [\b], and a group holding the third one
    [-a-zA-Z0-9()@:%_\+.~#?&//=] under a star. *)
Definition URLRegex : Regex :=
  RCat (rx_lit "http")
 (RCat (ROpt (RChar "s"))
 (RCat (rx_lit "://")
 (RCat (ROpt (rx_lit "www."))
 (RCat (RRepSet url_set1 1 (Some 256))
 (RCat (RChar ".")
 (RCat (RRepSet url_set2 1 (Some 6))
 (RCat RWordBoundary
       (RRepSet url_set3 0 None)))))))).

(* ================================================================= *)
(** ** Part 2: calls, program trees and the data of the engine API *)

(** An [error] value, by its message. *)
Definition error : Type := string.

(** The colours of [chalk] that the program prints with; a printed line is
    the list of its coloured operands. *)
Inductive Colour : Type := White | Green | Yellow | Red.
Definition Line : Type := list (Colour * string).

(** A response body ([io.ReadCloser]): the chunks its [Read] calls deliver
    with a nil error, then the last [Read], which delivers [final] (possibly
    empty) together with [io.EOF] ([stop = None]) or an error. *)
Record ReadCloser : Type := mkBody {
  reads : list string;
  final : string;
  stop : option error
}.

Inductive Source : Type :=
| BuildBody
| LogsBody (id : string).

Inductive ReadEnd : Type :=
| MoreData
| AtEOF
| ReadError (e : error).

(** How the last [Read] of a body ends. *)
Definition read_end (e : option error) : ReadEnd :=
  match e with
  | None => AtEOF
  | Some x => ReadError x
  end.

(** [container.Config], [container.HostConfig] with its [mount.Mount]s, and
    the option structs, with the fields the program sets. *)
Record ContainerConfig : Type := mkConfig {
  Image : string;
  AttachStdout : bool;
  AttachStderr : bool;
  User : string;
  Cmd : list string
}.

Inductive MountType : Type := TypeBind.

Record Mount : Type := mkMount {
  Mount_Type : MountType;
  Mount_Source : string;
  Mount_Target : string
}.

Record HostConfig : Type := mkHostConfig { Mounts : list Mount }.

Record ContainerLogsOptions : Type := mkLogsOptions {
  Follow : bool;
  ShowStdout : bool;
  ShowStderr : bool
}.

Record ContainerRemoveOptions : Type := mkRemoveOptions {
  RemoveVolumes : bool;
  Force : bool
}.

(** The goroutines of the program: [main], the goroutine of
    [go HandleSIGTERM(...)], the goroutine that [HandleSIGTERM] starts to wait
    for the signal, and the goroutine of the [i]-th line of the list file. *)
Inductive Label : Type :=
| LMain
| LSignals
| LHandler
| LJob (i : nat).

Definition Label_eqb (a b : Label) : bool :=
  match a, b with
  | LMain, LMain | LSignals, LSignals | LHandler, LHandler => true
  | LJob i, LJob j => Nat.eqb i j
  | _, _ => false
  end.

(** Every call that leaves the program.  [body_Read] records one [Read] of a
    response body by [io.Copy] and what it delivered. *)
Inductive Op : Type :=
| os_Open (name : string)
| os_UserHomeDir
| filepath_Abs (path : string)
| os_MkdirAll (path : string)
| os_RemoveAll (path : string)
| file_Close
| client_NewClientWithOpts
| client_ImageBuild (buildContext : string) (tags : list string)
| client_ContainerCreate (config : ContainerConfig) (hostConfig : HostConfig)
    (containerName : string)
| client_ContainerStart (id : string)
| client_ContainerLogs (id : string) (options : ContainerLogsOptions)
| client_ContainerRemove (id : string) (options : ContainerRemoveOptions)
| body_Read (src : Source) (data : string) (er : ReadEnd)
| fmt_Println (l : Line)
| log_Print (l : Line)
| ctx_cancel
| signal_Notify
| chan_Receive
| wg_Add (delta : nat)
| wg_Done
| wg_Wait.

(** What each call returns.  An opened file is given by the lines a
    [bufio.Scanner] reads from it. *)
Definition Resp (o : Op) : Type :=
  match o with
  | os_Open _ => (list string + error)%type
  | os_UserHomeDir | filepath_Abs _ => (string + error)%type
  | os_MkdirAll _ | os_RemoveAll _ | client_NewClientWithOpts
  | client_ContainerStart _ | client_ContainerRemove _ _ => option error
  | client_ImageBuild _ _ | client_ContainerLogs _ _ => (ReadCloser + error)%type
  | client_ContainerCreate _ _ _ => (string + error)%type
  | _ => unit
  end.

(** The same responses in one type, as a trace records them. *)
Inductive Rsp : Type :=
| RUnit
| RErr (e : option error)
| RStr (r : string + error)
| RLines (r : list string + error)
| RBody (r : ReadCloser + error).

Definition enc (o : Op) : Resp o -> Rsp :=
  match o as o' return Resp o' -> Rsp with
  | os_Open _ => RLines
  | os_UserHomeDir | filepath_Abs _ => RStr
  | os_MkdirAll _ | os_RemoveAll _ | client_NewClientWithOpts
  | client_ContainerStart _ | client_ContainerRemove _ _ => RErr
  | client_ImageBuild _ _ | client_ContainerLogs _ _ => RBody
  | client_ContainerCreate _ _ _ => RStr
  | _ => fun _ => RUnit
  end.

(** A program: it returns, ends the process ([os.Exit], or a run-time panic,
    which exits with status 2), makes a call and goes on with its response,
    or starts a goroutine ([go]) and goes on. *)
Inductive Prog (A : Type) : Type :=
| Ret (a : A)
| Exit (code : Z)
| Do (o : Op) (k : Resp o -> Prog A)
| Go (l : Label) (child : Prog unit) (k : Prog A).

Arguments Ret {A} a.
Arguments Exit {A} code.
Arguments Do {A} o k.
Arguments Go {A} l child k.

Fixpoint bind {A B : Type} (m : Prog A) (f : A -> Prog B) : Prog B :=
  match m with
  | Ret a => f a
  | Exit c => Exit c
  | Do o k => Do o (fun r => bind (k r) f)
  | Go l c k => Go l c (bind k f)
  end.

Declare Scope prog_scope.
Delimit Scope prog_scope with prog.
Bind Scope prog_scope with Prog.
Notation "x <- m ;; k" := (bind m (fun x => k))
  (at level 61, m at next level, right associativity) : prog_scope.
Notation "' p <- m ;; k" := (bind m (fun x => let p := x in k))
  (at level 61, p pattern, m at next level, right associativity) : prog_scope.
Notation "m ;; k" := (bind m (fun _ => k))
  (at level 61, right associativity) : prog_scope.
Open Scope prog_scope.

(** A call whose response is not looked at. *)
Definition call (o : Op) : Prog unit := Do o (fun _ => Ret tt).

(** What a trace records of a goroutine: a call with its response, or the
    start of a goroutine with the program it runs. *)
Inductive Act : Type :=
| ACall (o : Op) (r : Rsp)
| AGo (l : Label) (child : Prog unit).

Definition Entry : Type := (Label * Act)%type.
Definition Trace : Type := list Entry.

(** The JSON document of one line of the build response. *)
Record Aux : Type := mkAux { Aux_ID : string }.
Record ErrorDetail : Type := mkErrorDetail { Message : string }.
Record ImageBuildResponse : Type := mkImageBuildResponse {
  ib_Stream : string;
  ib_Status : string;
  ib_Progress : string;
  ib_Aux : Aux;
  ib_ErrorDetail : ErrorDetail;
  ib_Error : string
}.

Definition zero_ImageBuildResponse : ImageBuildResponse :=
  mkImageBuildResponse "" "" "" (mkAux "") (mkErrorDetail "") "".

(** The two library functions the program calls whose code is outside it.
    [url_Parse] is [url.Parse].  [json_Decode p ib] is
    [json.NewDecoder(bytes.NewReader(p)).Decode(&ib)] for a pointer [ib] to a
    struct holding [ib]: it gives the struct as the decoder leaves it ([None]
    when the document is [null], which sets the pointer to nil) and the
    decoder's error. *)
Record Lib : Type := mkLib {
  url_Parse : string -> URL + error;
  json_Decode : string -> ImageBuildResponse -> option ImageBuildResponse * option error
}.

(** The world a run meets: the library, and the response to every call, which
    may depend on all that happened before. *)
Record World : Type := mkWorld {
  lib : Lib;
  respond : Trace -> forall o : Op, Resp o
}.

(* ================================================================= *)
(** ** Part 3: main.go *)

(** [LogFatal(spec, v...)], always called with [spec = "%s"]: the format is
    one ["%s "] per operand, so the output is every operand followed by a
    blank; [log.Fatal] prints it and calls [os.Exit(1)]. *)
Definition LogFatal_output (v : list string) : string :=
  String.concat "" (map (fun x => String.append x " ") v).

Definition LogFatal {A : Type} (v : list string) : Prog A :=
  Do (log_Print [(White, "(ERROR) "); (Red, LogFatal_output v)]) (fun _ => Exit 1).

(** What [%s] prints for the pointer [output] in [LogFatal("%s", err, output)];
    the address is the run's own. *)
Definition fmt_pointer : string := "%!s(*string=0x...)".

(** *** The log classifier, lines 81-95 *)

Record GitDumperLog : Type := mkGitDumperLog { gdl_URLRegex : Regex }.

(** The event a chunk of the container's output is turned into: the branch of
    [GitDumperLog.Write] that the chunk takes, with what that branch prints. *)
Inductive ClassifiedEvent : Type :=
| Fetching (url : string)
| Testing (url : string)
| Other (raw : string).

Definition classify (g : GitDumperLog) (p : string) : ClassifiedEvent :=
  if strings_Contains p "Fetching" then Fetching (Regexp_Find (gdl_URLRegex g) p)
  else if strings_Contains p "Testing" then Testing (Regexp_Find (gdl_URLRegex g) p)
  else Other p.

Definition render (e : ClassifiedEvent) : Line :=
  match e with
  | Fetching url => [(White, "(FETCHING)"); (Green, url)]
  | Testing url => [(White, "(TESTING)"); (Yellow, url)]
  | Other raw => [(White, raw)]
  end.

(** A writer with its receiver's state: the new state, and [(n, err)]. *)
Definition Writer (S : Type) : Type := S -> string -> Prog (S * (Z * option error)).

Definition len (p : string) : Z := Z.of_nat (String.length p).

Definition GitDumperLog_Write : Writer GitDumperLog := fun g p =>
  call (fmt_Println (render (classify g p))) ;;
  Ret (g, (len p, None)).

(** *** [io.Copy], as the program uses it *)

Definition errInvalidWrite : error := "invalid write result".
Definition ErrShortWrite : error := "short write".

Section Copy.
Context {S : Type} (dst : Writer S) (src : Source).

(** One turn of the loop of [io.Copy] after [Read] gave [buf]: a non-empty
    [buf] is written; a failed or short write ends the copy with that
    error; otherwise [next] goes on. *)
Definition copy_write (st : S) (written : Z) (buf : string)
    (next : S -> Z -> Prog (S * (Z * option error))) : Prog (S * (Z * option error)) :=
  if (0 <? len buf)%Z then
    r <- dst st buf ;;
    let st' := fst r in
    let nr := len buf in
    let '(nw, ew) :=
      if ((fst (snd r) <? 0) || (nr <? fst (snd r)))%Z
      then (0%Z, match snd (snd r) with None => Some errInvalidWrite | e => e end)
      else snd r in
    let written := (written + nw)%Z in
    match ew with
    | Some e => Ret (st', (written, Some e))
    | None =>
        if (nr =? nw)%Z then next st' written
        else Ret (st', (written, Some ErrShortWrite))
    end
  else next st written.

Fixpoint copy_reads (rs : list string) (fin : string) (e : option error)
    (st : S) (written : Z) : Prog (S * (Z * option error)) :=
  match rs with
  | buf :: rs' =>
      call (body_Read src buf MoreData) ;;
      copy_write st written buf (fun st' w' => copy_reads rs' fin e st' w')
  | [] =>
      call (body_Read src fin (read_end e)) ;;
      copy_write st written fin (fun st' w' => Ret (st', (w', e)))
  end.

(** [io.Copy(dst, body)]: the writer's state afterwards, and [(written, err)];
    [io.EOF] from [Read] is no error. *)
Definition io_Copy (st : S) (body : ReadCloser) : Prog (S * (Z * option error)) :=
  copy_reads (reads body) (final body) (stop body) st 0%Z.
End Copy.

Section Program.
Variable L : Lib.

(** *** RunContainerThenRemove, lines 97-125 *)

Definition logsOptions : ContainerLogsOptions := mkLogsOptions true true true.
Definition removeOptions : ContainerRemoveOptions := mkRemoveOptions true true.

Definition RunContainerThenRemove (id : string) : Prog unit :=
  err <- Do (client_ContainerStart id) (@Ret _) ;;
  match err with
  | Some e => LogFatal ["Unable to start container"; id; e]
  | None =>
      r <- Do (client_ContainerLogs id logsOptions) (@Ret _) ;;
      match r with
      | inr e => LogFatal ["Unable to follow container log output"; e]
      | inl rc =>
          (* [err] is nil from here on: nothing assigns it again *)
          let err : option error := None in
          let gdl := mkGitDumperLog URLRegex in
          _ <- io_Copy GitDumperLog_Write (LogsBody id) gdl rc ;;
          _ <- Do (client_ContainerRemove id removeOptions) (@Ret _) ;;
          match err with
          | Some e => LogFatal ["Unable to remove container"; id; e]
          | None => Ret tt
          end
      end
  end.

(** *** CreateContainer, lines 127-162 *)

(** Line 133: the name of the container and of its directory. *)
Definition hostname_of (u : URL) : string :=
  strings_ReplaceAll (Hostname u) "." "_".

Definition container_Config (gitUrl hostname : string) : ContainerConfig :=
  mkConfig "gget" true true "gget"
    ["git-dumper"; gitUrl; String.append "/home/gget/" hostname].

Definition container_HostConfig (output : string) : HostConfig :=
  mkHostConfig [mkMount TypeBind output "/home/gget"].

Definition CreateContainer (output gitUrl : string) : Prog string :=
  match url_Parse L gitUrl with
  | inr e => LogFatal ["Unable to parse git URL "; e]
  | inl url =>
      let hostname := hostname_of url in
      r <- Do (client_ContainerCreate (container_Config gitUrl hostname)
                 (container_HostConfig output) hostname) (@Ret _) ;;
      match r with
      | inr e => LogFatal ["Unable to create a container"; e]
      | inl id => Ret id
      end
  end.

(** *** ImageBuildResponse.Write and BuildImage, lines 164-217 *)

Definition when (b : bool) (p : Prog unit) : Prog unit := if b then p else Ret tt.

Definition nonempty (s : string) : bool := negb (String.eqb s "").

Definition ImageBuildResponse_Write : Writer ImageBuildResponse := fun ib p =>
  let '(decoded, err) := json_Decode L p ib in
  match decoded with
  | None => Exit 2     (* [ib] is nil: [ib.Error] panics *)
  | Some ib =>
      when (nonempty (ib_Error ib)) (LogFatal [Message (ib_ErrorDetail ib)]) ;;
      when (nonempty (ib_Stream ib))
        (call (fmt_Println [(White, "(STREAM)")]) ;;
         call (fmt_Println [(Green, ib_Stream ib)])) ;;
      when (nonempty (ib_Progress ib))
        (call (fmt_Println [(White, "(STATUS)")]) ;;
         call (fmt_Println [(Green, ib_Status ib)])) ;;
      when (nonempty (ib_Status ib))
        (call (fmt_Println [(White, "(PROGRESS)")]) ;;
         call (fmt_Println [(Green, ib_Progress ib)])) ;;
      Ret (ib, (len p, err))
  end.

Definition BuildImage (tarFile : string) : Prog unit :=
  let ibr := zero_ImageBuildResponse in
  r <- Do (client_ImageBuild tarFile ["gget"]) (@Ret _) ;;
  match r with
  | inr e => LogFatal ["Unable to build image"; e]
  | inl body =>
      c <- io_Copy ImageBuildResponse_Write BuildBody ibr body ;;
      match snd (snd c) with
      | Some e => LogFatal ["Unable to build copy build response"; e]
      | None => Ret tt
      end
  end.

(** *** HandleInput and HandleOutput, lines 219-260 *)

(** The value of [inputFile] afterwards: the opened list file, or nil. *)
Definition HandleInput (input inputFilePath : string) : Prog (option (list string)) :=
  if nonempty inputFilePath then
    r <- Do (os_Open inputFilePath) (@Ret _) ;;
    match r with
    | inr e => LogFatal ["Input File specified but an error occured"; e]
    | inl f => Ret (Some f)
    end
  else if String.eqb input "" then LogFatal ["the URL must be specified -u URL"]
  else Ret None.

Definition path_IsAbs (path : string) : bool := strings_HasPrefix path "/".

(** The value of [*output] afterwards. *)
Definition HandleOutput (output : string) : Prog string :=
  if String.eqb output "" then
    LogFatal ["the output directory must be specified -o DIR"]
  else
    output <-
      (if strings_HasPrefix output "~" then
         r <- Do os_UserHomeDir (@Ret _) ;;
         match r with
         | inr e => LogFatal [e; fmt_pointer]
         | inl home => Ret (strings_Replace output "~" home 1)
         end
       else Ret output) ;;
    output <-
      (if negb (path_IsAbs output) then
         r <- Do (filepath_Abs output) (@Ret _) ;;
         match r with
         | inr e => LogFatal [e; fmt_pointer]
         | inl abs => Ret abs
         end
       else Ret output) ;;
    err <- Do (os_MkdirAll output) (@Ret _) ;;
    match err with
    | Some e => LogFatal [e; fmt_pointer]
    | None => Ret output
    end.

(** *** HandleSIGTERM, lines 262-272, and the callback of lines 50-57 *)

(** The goroutine started inside [HandleSIGTERM]: [<-c; cb(); os.Exit(1)]. *)
Definition signal_goroutine (cb : Prog unit) : Prog unit :=
  call chan_Receive ;; cb ;; Exit 1.

Definition HandleSIGTERM (cb : Prog unit) : Prog unit :=
  call signal_Notify ;;
  Go LHandler (signal_goroutine cb) (Ret tt).

Definition cleanup (output : string) : Prog unit :=
  call ctx_cancel ;;
  err <- Do (os_RemoveAll output) (@Ret _) ;;
  match err with
  | Some _ => LogFatal ["Unable to remove output directory."]
  | None => Ret tt
  end.

(** *** main, lines 37-79 *)

Record Flags : Type := mkFlags {
  input : string;          (* -u *)
  output : string;         (* -o *)
  inputFilePath : string;  (* -f *)
  tarFile : string         (* the embedded Dockerfile.tar *)
}.

(** The body of the goroutine of lines 69-72. *)
Definition job (output input : string) : Prog unit :=
  id <- CreateContainer output input ;;
  RunContainerThenRemove id ;;
  call wg_Done.

(** The loop of lines 68-73, from index [i] on. *)
Fixpoint spawn_jobs (output : string) (urls : list string) (i : nat) : Prog unit :=
  match urls with
  | [] => Ret tt
  | u :: rest => Go (LJob i) (job output u) (spawn_jobs output rest (S i))
  end.

Definition main (fl : Flags) : Prog unit :=
  inputFile <- HandleInput (input fl) (inputFilePath fl) ;;
  output <- HandleOutput (output fl) ;;
  err <- Do client_NewClientWithOpts (@Ret _) ;;
  match err with
  | Some _ => LogFatal ["Unable to create client"]
  | None =>
      Go LSignals (HandleSIGTERM (cleanup output))
        (BuildImage (tarFile fl) ;;
         match inputFile with
         | Some urls =>
             call (wg_Add (List.length urls)) ;;
             spawn_jobs output urls 0 ;;
             call wg_Wait ;;
             call file_Close
         | None =>
             id <- CreateContainer output (input fl) ;;
             RunContainerThenRemove id
         end)
  end.
End Program.

(* ================================================================= *)
(** ** Part 4: running programs *)

(** *** One goroutine alone *)

Inductive Outcome (A : Type) : Type :=
| Returned (a : A)
| Exited (code : Z).

Arguments Returned {A} a.
Arguments Exited {A} code.

(** [exec W l p tr]: goroutine [l] runs [p] to its end with no other
    goroutine taking a step, after the history [tr]; a [go] statement only
    leaves its entry.  The result is how [p] ends, and the history then. *)
Fixpoint exec {A : Type} (W : World) (l : Label) (p : Prog A) (tr : Trace)
    : Outcome A * Trace :=
  match p with
  | Ret a => (Returned a, tr)
  | Exit c => (Exited c, tr)
  | Do o k =>
      let r := respond W tr o in
      exec W l (k r) (tr ++ [(l, ACall o (enc o r))])
  | Go l' c k => exec W l k (tr ++ [(l, AGo l' c)])
  end.

(** *** All goroutines, interleaved *)

Inductive Status : Type :=
| Running
| Finished                       (* [main] returned: exit status 0 *)
| Ended (who : Label) (code : Z) (* [os.Exit] or a panic in goroutine [who] *)
| Killed.                        (* a signal with no handler registered *)

Record State : Type := mkState {
  threads : Label -> option (Prog unit);
  trace : Trace;
  wg : Z;               (* the counter of the [sync.WaitGroup] *)
  notified : bool;      (* [signal.Notify] has registered the channel *)
  pending : bool;       (* the channel, of capacity 1, holds a signal *)
  status : Status
}.

Definition upd (m : Label -> option (Prog unit)) (l : Label) (p : Prog unit)
    : Label -> option (Prog unit) :=
  fun l' => if Label_eqb l l' then Some p else m l'.

(** A call that cannot return yet: [wg.Wait] while the counter is not zero,
    a receive from the empty channel. *)
Definition blocked (o : Op) (s : State) : bool :=
  match o with
  | wg_Wait => negb (wg s =? 0)%Z
  | chan_Receive => negb (pending s)
  | _ => false
  end.

(** What a call does to the run-time state besides returning. *)
Definition effect (l : Label) (o : Op) (s : State) : Z * bool * bool * Status :=
  match o with
  | wg_Add n => ((wg s + Z.of_nat n)%Z, notified s, pending s, status s)
  | wg_Done =>
      (* a negative counter panics *)
      ((wg s - 1)%Z, notified s, pending s,
       if (wg s - 1 <? 0)%Z then Ended l 2 else status s)
  | signal_Notify => (wg s, true, pending s, status s)
  | chan_Receive => (wg s, notified s, false, status s)
  | _ => (wg s, notified s, pending s, status s)
  end.

(** One step of goroutine [l].  Nothing moves once the process has ended.  A
    goroutine that has returned is gone, except [main], whose return ends the
    process with status 0.  A [go] whose label is taken does not move (every
    [go] statement of the program has a label of its own). *)
Definition step (W : World) (l : Label) (s : State) : State :=
  match status s with
  | Running =>
      match threads s l with
      | None => s
      | Some p =>
          match p with
          | Ret _ =>
              match l with
              | LMain => mkState (threads s) (trace s) (wg s) (notified s) (pending s) Finished
              | _ => s
              end
          | Exit c => mkState (threads s) (trace s) (wg s) (notified s) (pending s) (Ended l c)
          | Do o k =>
              if blocked o s then s
              else
                let r := respond W (trace s) o in
                let '(w, n, pd, st) := effect l o s in
                mkState (upd (threads s) l (k r))
                  (trace s ++ [(l, ACall o (enc o r))]) w n pd st
          | Go l' c k =>
              match threads s l' with
              | Some _ => s
              | None =>
                  mkState (upd (upd (threads s) l k) l' c)
                    (trace s ++ [(l, AGo l' c)]) (wg s) (notified s) (pending s) (status s)
              end
          end
      end
  | _ => s
  end.

(** An interrupt or terminate signal arrives: it is put into the registered
    channel (and dropped when the channel is full); with no channel registered
    it kills the process. *)
Definition deliver (s : State) : State :=
  match status s with
  | Running =>
      if notified s
      then mkState (threads s) (trace s) (wg s) (notified s) true (status s)
      else mkState (threads s) (trace s) (wg s) (notified s) (pending s) Killed
  | _ => s
  end.

Inductive Move : Type :=
| Step (l : Label)
| Signal.

Definition move (W : World) (m : Move) (s : State) : State :=
  match m with
  | Step l => step W l s
  | Signal => deliver s
  end.

(** A schedule is any list of moves: every interleaving of the goroutines
    and every arrival of signals is one. *)
Definition run (W : World) (sched : list Move) (s : State) : State :=
  fold_left (fun s m => move W m s) sched s.

Definition init (p : Prog unit) : State :=
  mkState (fun l => match l with LMain => Some p | _ => None end)
    [] 0%Z false false Running.

(** The process: [main] with its flags, from the start. *)
Definition process (W : World) (fl : Flags) (sched : list Move) : State :=
  run W sched (init (main (lib W) fl)).

(** *** Reading traces *)

(** What goroutine [l] did, in order. *)
Definition proj (l : Label) (tr : Trace) : list Act :=
  map snd (filter (fun e => Label_eqb (fst e) l) tr).

Definition is_create (a : Act) : bool :=
  match a with ACall (client_ContainerCreate _ _ _) _ => true | _ => false end.

Definition is_remove (a : Act) : bool :=
  match a with ACall (client_ContainerRemove _ _) _ => true | _ => false end.

(** [path p acts q]: [p] can do [acts], for some responses, and be [q] then. *)
Fixpoint path {A : Type} (p : Prog A) (acts : list Act) (q : Prog A) {struct acts} : Prop :=
  match acts with
  | [] => q = p
  | a :: rest =>
      match p with
      | Do o k => exists r, a = ACall o (enc o r) /\ path (k r) rest q
      | Go l c k => a = AGo l c /\ path k rest q
      | _ => False
      end
  end.

Definition terminal {A : Type} (p : Prog A) : bool :=
  match p with
  | Ret _ | Exit _ => true
  | _ => false
  end.

(* ================================================================= *)
(** ** Part 5: test doubles: a scripted engine and library *)

(** A stand-in for [url.Parse] on the targets of the examples: a blank in
    the target is an error, as in Go ("invalid character in host name");
    otherwise the host is what stands between [http://] and the next [/]. *)
Fixpoint until_slash (s : string) : string :=
  match s with
  | EmptyString => EmptyString
  | String c s' => if Ascii.eqb c "/" then EmptyString else String c (until_slash s')
  end.

Definition mock_url_Parse (s : string) : URL + error :=
  if strings_Contains s " " then inr "invalid character in host name"
  else if strings_HasPrefix s "http://" then
    let rest := substring 7 (String.length s - 7) s in
    let host := until_slash rest in
    inl (mkURL "http" host
           (substring (String.length host) (String.length rest - String.length host) rest))
  else inl (mkURL "" "" s).

(** A stand-in for the JSON decoder on lines written [error MESSAGE],
    [stream TEXT], [null] (the document null) and [junk] (not JSON). *)
Definition mock_json_Decode (p : string) (ib : ImageBuildResponse)
    : option ImageBuildResponse * option error :=
  if strings_HasPrefix p "error " then
    let m := substring 6 (String.length p - 6) p in
    (Some (mkImageBuildResponse (ib_Stream ib) (ib_Status ib) (ib_Progress ib)
             (ib_Aux ib) (mkErrorDetail m) m), None)
  else if strings_HasPrefix p "stream " then
    (Some (mkImageBuildResponse (substring 7 (String.length p - 7) p) (ib_Status ib)
             (ib_Progress ib) (ib_Aux ib) (ib_ErrorDetail ib) (ib_Error ib)), None)
  else if String.eqb p "null" then (None, None)
  else if String.eqb p "junk" then (Some ib, Some "invalid character 'j' looking for beginning of value")
  else (Some ib, None).

Definition mock_lib : Lib := mkLib mock_url_Parse mock_json_Decode.

(** A scripted engine: the same answer to a call whenever it is made. *)
Record Script : Type := mkScript {
  sc_open : list string + error;
  sc_build : ReadCloser + error;
  sc_create : string -> string + error;
  sc_start : string -> option error;
  sc_logs : string -> ReadCloser + error;
  sc_remove : string -> option error;
  sc_removeAll : option error
}.

Definition scripted (sc : Script) : Trace -> forall o : Op, Resp o :=
  fun _ o =>
    match o as o' return Resp o' with
    | os_Open _ => sc_open sc
    | os_UserHomeDir => inl "/home/u"
    | filepath_Abs p => inl (String.append "/cwd/" p)
    | os_MkdirAll _ => None
    | os_RemoveAll _ => sc_removeAll sc
    | client_NewClientWithOpts => None
    | client_ImageBuild _ _ => sc_build sc
    | client_ContainerCreate _ _ name => sc_create sc name
    | client_ContainerStart id => sc_start sc id
    | client_ContainerLogs id _ => sc_logs sc id
    | client_ContainerRemove id _ => sc_remove sc id
    | _ => tt
    end.

Definition mock_world (sc : Script) : World := mkWorld mock_lib (scripted sc).

(** The script in which everything succeeds: a two-line list file, a build
    of one line, and a log of two chunks. *)
Definition ok_script : Script :=
  mkScript (inl ["http://a.com/.git"; "http://b.org/.git"])
    (inl (mkBody ["stream Step 1/3"] "" None))
    (fun name => inl (String.append "id-" name))
    (fun _ => None)
    (fun _ => inl (mkBody ["Fetching http://a.com/.git/HEAD [200]"; "done"] "" None))
    (fun _ => None)
    None.

Definition list_flags : Flags := mkFlags "" "/out" "targets.txt" "TAR".
Definition single_flags : Flags := mkFlags "http://a.com/.git" "/out" "" "TAR".

(** [n] rounds in which each goroutine of [ls] takes one step. *)
Definition rounds (n : nat) (ls : list Label) : list Move :=
  concat (repeat (map Step ls) n).

(* ================================================================= *)
(** ** Part 6: definitions that the statements use *)

(** The identifier as the specification words it: the host name with every
    dot replaced by an underscore, byte by byte. *)
Fixpoint dots_to_underscores (s : string) : string :=
  match s with
  | EmptyString => EmptyString
  | String c s' =>
      String (if Ascii.eqb c "." then "_"%char else c) (dots_to_underscores s')
  end.

(** Two host names that differ only in having a dot where the other has an
    underscore. *)
Definition dot_or_underscore (c : ascii) : bool := Ascii.eqb c "." || Ascii.eqb c "_".

Fixpoint dot_blind_eqb (a b : string) : bool :=
  match a, b with
  | EmptyString, EmptyString => true
  | String c a', String d b' =>
      (Ascii.eqb c d || (dot_or_underscore c && dot_or_underscore d)) && dot_blind_eqb a' b'
  | _, _ => false
  end.

(** All ways to cut a string in two. *)
Fixpoint splits (s : string) : list (string * string) :=
  (EmptyString, s) ::
  match s with
  | EmptyString => []
  | String c s' => map (fun uv => (String c (fst uv), snd uv)) (splits s')
  end.

(** A program that has returned. *)
Definition is_ret {A : Type} (p : Prog A) : bool :=
  match p with Ret _ => true | _ => false end.

(** Where the program of a goroutine comes from: [main] runs the program of
    the process, any other goroutine the one that a [go] entry gave it. *)
Definition origin (p0 : Prog unit) (tr : Trace) (l : Label) (c : Prog unit) : Prop :=
  match l with
  | LMain => c = p0
  | _ => exists parent, In (parent, AGo l c) tr
  end.

(** The invariant of the scheduler: [main] is there; what a goroutine has
    done is a path of its program, and what is left of the program is where
    the path ends; a goroutine that was never started has done nothing. *)
Record Inv (p0 : Prog unit) (s : State) : Prop := mkInv {
  inv_main : exists p, threads s LMain = Some p;
  inv_follows : forall l p, threads s l = Some p ->
      exists c, origin p0 (trace s) l c /\ path c (proj l (trace s)) p;
  inv_unborn : forall l, threads s l = None -> proj l (trace s) = []
}.

(** The end of a run of one goroutine, as a program. *)
Definition of_outcome {A : Type} (o : Outcome A) : Prog A :=
  match o with Returned a => Ret a | Exited c => Exit c end.

(** The kinds of entries: prints, reads of a body, container calls. *)
Definition is_print (a : Act) : bool :=
  match a with
  | ACall (fmt_Println _) _ | ACall (log_Print _) _ => true
  | _ => false
  end.

Definition is_read (a : Act) : bool :=
  match a with
  | ACall (body_Read _ _ _) _ => true
  | _ => false
  end.

Definition is_io (a : Act) : bool := is_print a || is_read a.

(** The [Read]s that consume a body to its end. *)
Definition all_reads (src : Source) (rs : list string) (fin : string) (e : option error)
    : list Act :=
  map (fun d => ACall (body_Read src d MoreData) RUnit) rs
  ++ [ACall (body_Read src fin (read_end e)) RUnit].

(** Step through a straight-line program: [H : path p acts q]. *)
Ltac path_run H :=
  repeat match type of H with
  | path _ ?acts _ =>
      destruct acts as [|? ?]; simpl in H;
      [ | first [ contradiction
                | destruct H as [[] [-> H]]
                | destruct H as [? [-> H]]
                | destruct H as [-> H] ] ]
  end.

Definition is_container (a : Act) : bool :=
  match a with
  | ACall (client_ContainerCreate _ _ _) _ | ACall (client_ContainerStart _) _
  | ACall (client_ContainerLogs _ _) _ | ACall (client_ContainerRemove _ _) _ => true
  | _ => false
  end.

Definition run_act (a : Act) : bool := is_io a || is_container a.

Definition is_wg_Done (a : Act) : bool :=
  match a with ACall wg_Done _ => true | _ => false end.

Definition job_act (a : Act) : bool := run_act a || is_wg_Done a.

(** A job that has come to [wg.Done]: what it did, from first to last. *)
Definition job_done (L : Lib) (out u : string) (acts : list Act) : Prop :=
  exists url id rc cp r4,
    url_Parse L u = inl url
    /\ acts = ACall (client_ContainerCreate (container_Config u (hostname_of url))
                       (container_HostConfig out) (hostname_of url)) (RStr (inl id))
              :: ACall (client_ContainerStart id) (RErr None)
              :: ACall (client_ContainerLogs id logsOptions) (RBody (inl rc))
              :: cp ++ [ACall (client_ContainerRemove id removeOptions) (RErr r4);
                        ACall wg_Done RUnit]
    /\ forallb is_io cp = true.

(** The message of the first line of a build response that is decoded with a
    non-empty [error] field, the lines being decoded in order as
    [ImageBuildResponse.Write] does, until a decoder error ends the copy or a
    [null] line makes it panic. *)
Fixpoint first_error (L : Lib) (ib : ImageBuildResponse) (chunks : list string)
    : option string :=
  match chunks with
  | [] => None
  | p :: rest =>
      if (0 <? len p)%Z then
        match json_Decode L p ib with
        | (Some ib', err) =>
            if nonempty (ib_Error ib') then Some (Message (ib_ErrorDetail ib'))
            else match err with
                 | Some _ => None
                 | None => first_error L ib' rest
                 end
        | (None, _) => None
        end
      else first_error L ib rest
  end.

Definition is_build_call (a : Act) : bool :=
  match a with ACall (client_ImageBuild _ _) _ => true | _ => false end.

Definition build_act (a : Act) : bool := is_io a || is_build_call a.

(** What [BuildImage] can have done: nothing yet, or the build call and then
    only reads and prints. *)
Definition build_shape (b : list Act) : Prop :=
  b = [] \/ exists tar tags r rest,
              b = ACall (client_ImageBuild tar tags) r :: rest /\ forallb is_io rest = true.

(** [BuildImage] has returned: the build call gave a body, and the copy read
    it to the end ([io.EOF]) with no line reporting an error. *)
Definition build_complete (L : Lib) (tar : string) (b : list Act) : Prop :=
  path (BuildImage L tar) b (Ret tt)
  /\ exists body cp,
    b = ACall (client_ImageBuild tar ["gget"]) (RBody (inl body)) :: cp
    /\ stop body = None
    /\ filter is_read cp = all_reads BuildBody (reads body) (final body) None
    /\ forallb is_io cp = true
    /\ first_error L zero_ImageBuildResponse (reads body ++ [final body]) = None.

(** What the goroutine that waits for the signal does, from the receipt to
    its end, when [os.RemoveAll] answers [r]. *)
Definition handler_acts (out : string) (r : option error) : list Act :=
  [ACall chan_Receive RUnit; ACall ctx_cancel RUnit; ACall (os_RemoveAll out) (RErr r)]
  ++ match r with
     | Some _ => [ACall (log_Print [(White, "(ERROR) ");
                                    (Red, LogFatal_output ["Unable to remove output directory."])]) RUnit]
     | None => []
     end.

Definition signals_acts (cb : Prog unit) : list Act :=
  [ACall signal_Notify RUnit; AGo LHandler (signal_goroutine cb)].

Definition out_act (a : Act) : bool :=
  match a with
  | ACall os_UserHomeDir _ | ACall (filepath_Abs _) _ | ACall (os_MkdirAll _) _
  | ACall client_NewClientWithOpts _ | ACall (log_Print _) _ => true
  | _ => false
  end.

Definition is_open (a : Act) : bool :=
  match a with ACall (os_Open _) _ => true | _ => false end.

Definition setup_act (a : Act) : bool := out_act a || is_open a.

(** The entries of the loop of lines 68-73, and of the whole branch of
    lines 60-75. *)
Fixpoint spawn_acts (L : Lib) (out : string) (urls : list string) (i : nat) : list Act :=
  match urls with
  | [] => []
  | u :: rest => AGo (LJob i) (job L out u) :: spawn_acts L out rest (S i)
  end.

Definition file_acts (L : Lib) (out : string) (urls : list string) : list Act :=
  ACall (wg_Add (List.length urls)) RUnit
  :: spawn_acts L out urls 0 ++ [ACall wg_Wait RUnit; ACall file_Close RUnit].

(** The set-up of lines 38-49 is over: it made only set-up calls, and
    [inputFile] is the list file it opened, if any. *)
Definition setup_done (a0 : list Act) (inputFile : option (list string)) : Prop :=
  forallb setup_act a0 = true
  /\ forall f urls, In (ACall (os_Open f) (RLines (inl urls))) a0 -> inputFile = Some urls.

(** The shape of everything [main] can have done. *)
Definition main_form (L : Lib) (fl : Flags) (acts : list Act) (q : Prog unit) : Prop :=
  (forallb setup_act acts = true /\ is_ret q = false)
  \/ exists a0 inputFile out b,
       acts = a0 ++ AGo LSignals (HandleSIGTERM (cleanup out)) :: b
       /\ setup_done a0 inputFile
       /\ ((build_shape b /\ is_ret q = false)
           \/ exists b1 b2,
                b = b1 ++ b2
                /\ build_complete L (tarFile fl) b1
                /\ match inputFile with
                   | Some urls =>
                       exists rest, b2 ++ rest = file_acts L out urls
                                    /\ (is_ret q = true -> rest = [])
                   | None => forallb run_act b2 = true
                   end).

(** What a goroutine of the process runs, by its label. *)
Definition runs (L : Lib) (l : Label) (c : Prog unit) : Prop :=
  match l with
  | LMain => False
  | LSignals => exists out, c = HandleSIGTERM (cleanup out)
  | LHandler => exists out, c = signal_goroutine (cleanup out)
  | LJob i => exists out u, c = job L out u
  end.

(** Every [go] entry of a trace starts one of the goroutines of the program,
    from the goroutine that has the statement. *)
Definition spawned_ok (L : Lib) (tr : Trace) : Prop :=
  forall parent l c, In (parent, AGo l c) tr ->
    runs L l c /\ parent = match l with LHandler => LSignals | _ => LMain end.

(** The [go] statement of a job. *)
Definition is_go_job (a : Act) : bool :=
  match a with AGo (LJob _) _ => true | _ => false end.

(** The entries of the branch of the list file. *)
Definition file_act (a : Act) : bool :=
  match a with
  | ACall (wg_Add _) _ | ACall wg_Wait _ | ACall file_Close _ | AGo (LJob _) _ => true
  | _ => false
  end.

(** What the entries of a trace add to the counter of the wait group. *)
Definition added (a : Act) : nat :=
  match a with ACall (wg_Add n) _ => n | _ => 0 end.

Definition adds_of (acts : list Act) : nat := list_sum (map added acts).

(** How many entries of a kind. *)
Definition count (P : Act -> bool) (acts : list Act) : nat := List.length (filter P acts).

(** The same over the entries of a trace. *)
Definition adds_tr (tr : Trace) : nat := adds_of (map snd tr).

Definition count_tr (P : Act -> bool) (tr : Trace) : nat := count P (map snd tr).

Definition is_start (a : Act) : bool :=
  match a with ACall (client_ContainerStart _) _ => true | _ => false end.

(** [f 0 + ... + f (n-1)]. *)
Fixpoint sum_to (n : nat) (f : nat -> nat) : nat :=
  match n with
  | O => 0
  | S n' => sum_to n' f + f n'
  end.

(** The kinds of entries that only a job makes. *)
Definition job_only (a : Act) : bool := is_container a || is_wg_Done a.

(** The two steps of the cleanup callback. *)
Definition is_cleanup (a : Act) : bool :=
  match a with
  | ACall ctx_cancel _ | ACall (os_RemoveAll _) _ => true
  | _ => false
  end.

(** The scripts of the counterexamples and witnesses. *)
Definition logs_fail_script : Script :=
  mkScript (sc_open ok_script) (sc_build ok_script) (sc_create ok_script)
    (sc_start ok_script) (fun _ => inr "no such container")
    (sc_remove ok_script) (sc_removeAll ok_script).



Definition removeAll_fail_script : Script :=
  mkScript (sc_open ok_script) (sc_build ok_script) (sc_create ok_script)
    (sc_start ok_script) (sc_logs ok_script) (sc_remove ok_script)
    (Some "permission denied").


(** The log stream could not be opened. *)
Definition is_logs_error (a : Act) : bool :=
  match a with
  | ACall (client_ContainerLogs _ _) (RBody (inr _)) => true
  | _ => false
  end.


(** The entries that a run of one goroutine adds to the history [tr]. *)
Definition added_by {A : Type} (tr : Trace) (r : Outcome A * Trace) : Trace :=
  skipn (List.length tr) (snd r).

(** The schedule of the examples: thirty rounds of all the goroutines. *)
Definition all_sched : list Move := rounds 30 [LMain; LSignals; LHandler; LJob 0; LJob 1].

(** Finds an entry in the trace of a run of the test double. *)
Ltac find_entry := vm_compute; repeat (first [left; reflexivity | right]).

(** A schedule in which the signal arrives while the jobs run: [main] and
    the signal goroutines first, the two jobs for a while, the signal, and
    the handler. *)
Definition signal_sched : list Move :=
  rounds 14 [LMain; LSignals] ++ rounds 3 [LJob 0; LJob 1] ++ [Signal]
  ++ rounds 6 [LHandler].






(** An entry of goroutine [l] that is a print or a read. *)
Definition mine (l : Label) (e : Entry) : bool := Label_eqb (fst e) l && is_io (snd e).


(** *** The identifier and the pattern *)

(** A host name in square brackets loses them, as [splitHostPort] does it. *)
Definition unbracket (host : string) : string :=
  if strings_HasPrefix host "[" && strings_HasSuffix host "]"
  then substring 1 (String.length host - 2) host
  else host.

(** *** The output directory *)

(** The two questions [HandleOutput] asks before it creates the directory. *)
Definition is_resolve (a : Act) : bool :=
  match a with
  | ACall os_UserHomeDir _ | ACall (filepath_Abs _) _ => true
  | _ => false
  end.

(** The report of [LogFatal], as an entry of goroutine [l]. *)
Definition fatal_entry (l : Label) (v : list string) : Entry :=
  (l, ACall (log_Print [(White, "(ERROR) "); (Red, LogFatal_output v)]) RUnit).

(** *** The build response and the log *)

(** How [BuildImage] ends once the build call has given a body: it returns,
    [LogFatal] is called with these operands (status 1), or the nil pointer
    is read (a run-time panic, status 2). *)
Inductive BuildEnd : Type :=
| BuildDone
| BuildFatal (v : list string)
| BuildPanic.

(** The end of [BuildImage] as a function of the chunks of the body, in the
    order they are read, and of the error of the last read: the first chunk
    that stops the build decides; an empty chunk is not written. *)
Fixpoint build_end (L : Lib) (ib : ImageBuildResponse) (chunks : list string)
    (stop : option error) : BuildEnd :=
  match chunks with
  | [] =>
      match stop with
      | None => BuildDone
      | Some e => BuildFatal ["Unable to build copy build response"; e]
      end
  | p :: rest =>
      if (0 <? len p)%Z then
        match json_Decode L p ib with
        | (None, _) => BuildPanic
        | (Some ib', err) =>
            if nonempty (ib_Error ib') then BuildFatal [Message (ib_ErrorDetail ib')]
            else match err with
                 | Some e => BuildFatal ["Unable to build copy build response"; e]
                 | None => build_end L ib' rest stop
                 end
        end
      else build_end L ib rest stop
  end.

(** What the copy of a log leaves in the trace for one [Read]: the read, and
    the line of the chunk when the chunk is not empty. *)
Definition log_entries (l : Label) (src : Source) (g : GitDumperLog)
    (chunk : string) (er : ReadEnd) : Trace :=
  (l, ACall (body_Read src chunk er) RUnit)
  :: (if (0 <? len chunk)%Z
      then [(l, ACall (fmt_Println (render (classify g chunk))) RUnit)]
      else []).

Definition log_trace (l : Label) (src : Source) (g : GitDumperLog) (body : ReadCloser)
    : Trace :=
  flat_map (fun c => log_entries l src g c MoreData) (reads body)
  ++ log_entries l src g (final body) (read_end (stop body)).

(** The number of bytes of a list of chunks. *)
Definition total_len (chunks : list string) : Z :=
  fold_right (fun c n => (len c + n)%Z) 0%Z chunks.

(** A line printed by [fmt.Println], as an entry. *)
Definition println (l : Label) (line : Line) : Entry :=
  (l, ACall (fmt_Println line) RUnit).

(** *** The run of [main] *)

(** What [main] does once the set-up is over and the signal goroutine is
    started, lines 59-78: [out] is the output directory and [inputFile] the
    opened list file, if any. *)
Definition main_tail (L : Lib) (fl : Flags) (out : string)
    (inputFile : option (list string)) : Prog unit :=
  (BuildImage L (tarFile fl) ;;
   match inputFile with
   | Some urls =>
       call (wg_Add (List.length urls)) ;;
       spawn_jobs L out urls 0 ;;
       call wg_Wait ;;
       call file_Close
   | None =>
       id <- CreateContainer L out (input fl) ;;
       RunContainerThenRemove id
   end)%prog.

(** The create request for a target. *)
Definition create_request (out target : string) (url : URL) : Op :=
  client_ContainerCreate (container_Config target (hostname_of url))
    (container_HostConfig out) (hostname_of url).

(** The container that a start, logs or remove call is about. *)
Definition container_of (a : Act) : option string :=
  match a with
  | ACall (client_ContainerStart id) _ | ACall (client_ContainerLogs id _) _
  | ACall (client_ContainerRemove id _) _ => Some id
  | _ => None
  end.

Definition is_go (a : Act) : bool :=
  match a with AGo _ _ => true | _ => false end.

(** [main] has started the signal goroutine: what it did before, in the
    set-up, gave the list file [inputFile] and the output directory [out];
    what it did after is a path [b] of [main_tail] that ends in [q]. *)
Definition started (L : Lib) (fl : Flags) (acts : list Act) (out : string)
    (inputFile : option (list string)) (b : list Act) (q : Prog unit) : Prop :=
  exists a1 o1,
    acts = a1 ++ o1 ++ ACall client_NewClientWithOpts (RErr None)
              :: AGo LSignals (HandleSIGTERM (cleanup out)) :: b
    /\ path (HandleInput (input fl) (inputFilePath fl)) a1 (Ret inputFile)
    /\ path (HandleOutput (output fl)) o1 (Ret out)
    /\ path (main_tail L fl out inputFile) b q.

(** What [main] runs for its only target, lines 77, and a job for its line. *)
Definition single (L : Lib) (out target : string) : Prog unit :=
  (id <- CreateContainer L out target ;; RunContainerThenRemove id)%prog.

(** The kinds of a trace entry that the goroutines of the signal make. *)
Definition is_signal_act (a : Act) : bool :=
  match a with
  | ACall signal_Notify _ | ACall chan_Receive _ | ACall ctx_cancel _
  | ACall (os_RemoveAll _) _ | ACall (log_Print _) _ | AGo LHandler _ => true
  | _ => false
  end.

(** *** The signal *)

(** What the state of a run says about the signals of its schedule: a signal
    in the channel, or a receive in the trace, needs a signal that arrived
    when the channel was registered; a killed process had none registered;
    and the channel is registered by a call of [signal.Notify]. *)
Definition signal_inv (sched : list Move) (s : State) : Prop :=
  (pending s = true -> notified s = true /\ In Signal sched)
  /\ (forall l r, In (l, ACall chan_Receive r) (trace s) ->
                  notified s = true /\ In Signal sched)
  /\ (status s = Killed -> notified s = false)
  /\ (notified s = true -> exists l r, In (l, ACall signal_Notify r) (trace s)).

(* ================================================================= *)
(** ** Part 7: the classifier and the identifier *)

Lemma splits_complete (u v : string) : In (u, v) (splits (String.append u v)).
Proof.
  induction u as [|c u IH]; simpl.
  - destruct v; simpl; auto.
  - right. apply (in_map (fun uv => (String c (fst uv), snd uv))) in IH. exact IH.
Qed.

Lemma classify_other (g : GitDumperLog) (p : string) :
  strings_Contains p "Fetching" = false ->
  strings_Contains p "Testing" = false ->
  classify g p = Other p.
Proof. intros H1 H2. unfold classify. now rewrite H1, H2. Qed.

Lemma split_sentinel_other (g : GitDumperLog) (s u v : string) :
  s = "Fetching" \/ s = "Testing" ->
  String.append u v = s -> u <> EmptyString -> v <> EmptyString ->
  classify g u = Other u /\ classify g v = Other v.
Proof.
  intros Hs Huv Hu Hv.
  pose proof (splits_complete u v) as Hin. rewrite Huv in Hin.
  destruct Hs as [-> | ->]; simpl in Hin;
    repeat (destruct Hin as [Hin | Hin];
            [ injection Hin as <- <-;
              first [ now elim Hu | now elim Hv
                    | split; apply classify_other; reflexivity ]
            | ]);
    contradiction.
Qed.

(** C3.  The branch a chunk takes depends on the chunk alone.  Every chunk
    that contains "Fetching", wherever it stands in the chunk, is classified
    [Fetching] with the first match of [URLRegex] in the chunk; the chunk
    "Fetching https://a.b/.git ..." so gets "https://a.b/.git".  A chunk
    without "Fetching" that contains "Testing" is classified [Testing] in
    the same way.  A chunk that contains neither sentinel is classified
    [Other] and carries its bytes; and when a sentinel is cut in two between
    consecutive chunks, neither half is recognised: both are [Other],
    although the two together hold the sentinel.  Writing a chunk prints the
    event of that chunk and leaves the writer as it was. *)
Theorem C3_classify :
  let g := mkGitDumperLog URLRegex in
  classify g "Fetching https://a.b/.git ..." = Fetching "https://a.b/.git"
  /\ (forall p, strings_Contains p "Fetching" = true ->
                classify g p = Fetching (Regexp_Find URLRegex p))
  /\ (forall p, strings_Contains p "Fetching" = false ->
                strings_Contains p "Testing" = true ->
                classify g p = Testing (Regexp_Find URLRegex p))
  /\ classify g "no sentinel here" = Other "no sentinel here"
  /\ (forall p, strings_Contains p "Fetching" = false ->
                strings_Contains p "Testing" = false ->
                classify g p = Other p)
  /\ (forall s u v, s = "Fetching" \/ s = "Testing" ->
                    String.append u v = s -> u <> EmptyString -> v <> EmptyString ->
                    classify g u = Other u /\ classify g v = Other v
                    /\ classify g (String.append u v) <> Other (String.append u v))
  /\ (forall w l tr p,
        exec w l (GitDumperLog_Write g p) tr =
          (Returned (g, (len p, None)),
           tr ++ [(l, ACall (fmt_Println (render (classify g p))) RUnit)])).
Proof.
  intro g. split; [reflexivity|].
  split; [intros p H; unfold classify; now rewrite H|].
  split; [intros p H1 H2; unfold classify; now rewrite H1, H2|].
  split; [reflexivity|].
  split; [intros p; apply classify_other|].
  split.
  - intros s u v Hs Huv Hu Hv.
    destruct (split_sentinel_other g s u v Hs Huv Hu Hv) as [H1 H2].
    repeat split; trivial.
    rewrite Huv. destruct Hs as [-> | ->]; discriminate.
  - intros w l tr p. reflexivity.
Qed.

(** A chunk with the sentinel in its middle is a [Fetching] chunk, and the
    two halves of a sentinel are not. *)
Lemma C3_classify_witness :
  classify (mkGitDumperLog URLRegex) "[-] Fetching https://a.b/.git/HEAD [200]"
  = Fetching "https://a.b/.git/HEAD"
  /\ classify (mkGitDumperLog URLRegex) "Fetch" = Other "Fetch"
  /\ classify (mkGitDumperLog URLRegex) "ing" = Other "ing"
  /\ classify (mkGitDumperLog URLRegex) (String.append "Fetch" "ing") <> Other (String.append "Fetch" "ing").
Proof.
  split.
  - exact (proj1 (proj2 C3_classify) "[-] Fetching https://a.b/.git/HEAD [200]" eq_refl).
  - apply (proj1 (proj2 (proj2 (proj2 (proj2 (proj2 C3_classify))))) "Fetching" "Fetch" "ing");
      [ now left | reflexivity | discriminate | discriminate ].
Defined.

(** C10.  A chunk that holds both sentinels is classified [Fetching]: the
    test for "Fetching" comes first, and a chunk gets one event. *)
Theorem C10_fetching_first (g : GitDumperLog) (p : string) :
  strings_Contains p "Fetching" = true ->
  strings_Contains p "Testing" = true ->
  classify g p = Fetching (Regexp_Find (gdl_URLRegex g) p).
Proof. intros H _. unfold classify. now rewrite H. Qed.

Lemma C10_fetching_first_witness :
  classify (mkGitDumperLog URLRegex) "Testing done, Fetching http://a.b/.git/HEAD" =
  Fetching (Regexp_Find URLRegex "Testing done, Fetching http://a.b/.git/HEAD").
Proof.
  apply (C10_fetching_first (mkGitDumperLog URLRegex)
           "Testing done, Fetching http://a.b/.git/HEAD"); reflexivity.
Defined.

Lemma prefix_cons (a b : ascii) (s1 s2 : string) :
  String.prefix (String a s1) (String b s2) = Ascii.eqb a b && String.prefix s1 s2.
Proof.
  cbn [String.prefix]. destruct (ascii_dec a b) as [-> | N].
  - now rewrite Ascii.eqb_refl.
  - apply Ascii.eqb_neq in N. now rewrite N.
Qed.

Lemma replace_dots (s : string) :
  strings_ReplaceAll s "." "_" = dots_to_underscores s.
Proof.
  unfold strings_ReplaceAll, strings_Replace. simpl.
  induction s as [|c s IH]; [reflexivity|].
  cbn [replace_from dots_to_underscores andb option_map String.length Nat.sub].
  rewrite prefix_cons, (Ascii.eqb_sym "." c).
  replace (String.prefix "" s) with true by (destruct s; reflexivity).
  rewrite andb_true_r, IH. now destruct (Ascii.eqb c ".").
Qed.

Lemma dot_blind_same (a b : string) :
  dot_blind_eqb a b = true -> dots_to_underscores a = dots_to_underscores b.
Proof.
  revert b. induction a as [|c a IH]; destruct b as [|d b]; simpl; try discriminate; trivial.
  intros H. apply andb_true_iff in H as [Hc Hab]. rewrite (IH b Hab). f_equal.
  apply orb_true_iff in Hc as [Hc | Hc].
  - apply Ascii.eqb_eq in Hc. now subst.
  - apply andb_true_iff in Hc as [H1 H2]. unfold dot_or_underscore in H1, H2.
    apply orb_true_iff in H1, H2.
    destruct H1 as [H1 | H1], H2 as [H2 | H2];
      apply Ascii.eqb_eq in H1, H2; subst; reflexivity.
Qed.

Lemma exec_bind_Do {A : Type} (W : World) (l : Label) (o : Op)
    (k : Resp o -> Prog A) (tr : Trace) :
  exec W l (Do o k) tr =
  exec W l (k (respond W tr o)) (tr ++ [(l, ACall o (enc o (respond W tr o)))]).
Proof. reflexivity. Qed.

(** C4.  For a target that parses, the identifier (the name of the container
    and of its directory) is the host name with every dot replaced by an
    underscore; it is a function of the target alone, so that whatever the
    engine answered before, the create request carries the same name; and a
    target whose host name differs only in dots and underscores gets the same
    identifier, and its create request is issued all the same. *)
Theorem C4_identifier (L : Lib) (out target : string) (url : URL) :
  url_Parse L target = inl url ->
  hostname_of url = dots_to_underscores (Hostname url)
  /\ (forall (respond0 : Trace -> forall o : Op, Resp o) (l : Label) (tr : Trace),
        exists r rest,
          snd (exec (mkWorld L respond0) l (CreateContainer L out target) tr) =
          tr ++ (l, ACall (client_ContainerCreate
                             (container_Config target (dots_to_underscores (Hostname url)))
                             (container_HostConfig out)
                             (dots_to_underscores (Hostname url))) r) :: rest)
  /\ (forall (out' target' : string) (url' : URL),
        url_Parse L target' = inl url' ->
        dot_blind_eqb (Hostname url) (Hostname url') = true ->
        hostname_of url' = hostname_of url
        /\ exists k, CreateContainer L out' target' =
             Do (client_ContainerCreate (container_Config target' (hostname_of url))
                   (container_HostConfig out') (hostname_of url)) k).
Proof.
  intros Hp. unfold hostname_of. rewrite replace_dots. split; [reflexivity|]. split.
  - intros respond0 l tr. unfold CreateContainer. rewrite Hp. unfold hostname_of.
    rewrite replace_dots. simpl.
    destruct (respond0 tr _) as [id | e]; simpl; do 2 eexists;
      [ reflexivity | rewrite <- app_assoc; reflexivity ].
  - intros out' target' url' Hp' Hb. rewrite replace_dots.
    rewrite (dot_blind_same _ _ Hb). split; [reflexivity|].
    unfold CreateContainer. rewrite Hp'. unfold hostname_of. rewrite replace_dots.
    simpl. eauto.
Qed.

Lemma C4_identifier_witness :
  hostname_of (mkURL "http" "a.b" "/.git") = "a_b"
  /\ hostname_of (mkURL "http" "a_b" "/.git") = hostname_of (mkURL "http" "a.b" "/.git").
Proof.
  pose proof (C4_identifier mock_lib "/out" "http://a.b/.git" (mkURL "http" "a.b" "/.git")
                eq_refl) as [H1 [_ H3]].
  split; [exact H1|].
  exact (proj1 (H3 "/out" "http://a_b/.git" (mkURL "http" "a_b" "/.git") eq_refl eq_refl)).
Defined.

(* ================================================================= *)

(** ** Part 8: paths of programs *)

Lemma Label_eqb_eq (a b : Label) : Label_eqb a b = true <-> a = b.
Proof.
  destruct a, b; simpl; split; intro H; try discriminate; try reflexivity.
  - apply Nat.eqb_eq in H. now subst.
  - injection H as ->. apply Nat.eqb_refl.
Qed.

Lemma Label_eqb_refl (a : Label) : Label_eqb a a = true.
Proof. now apply Label_eqb_eq. Qed.

Lemma Label_eqb_neq (a b : Label) : a <> b -> Label_eqb a b = false.
Proof.
  intro H. destruct (Label_eqb a b) eqn:E; [|reflexivity].
  apply Label_eqb_eq in E. contradiction.
Qed.

Lemma Label_eq_dec (a b : Label) : {a = b} + {a <> b}.
Proof.
  destruct (Label_eqb a b) eqn:E.
  - left. now apply Label_eqb_eq.
  - right. intro H. apply Label_eqb_eq in H. congruence.
Qed.

Lemma proj_app (l : Label) (t1 t2 : Trace) : proj l (t1 ++ t2) = proj l t1 ++ proj l t2.
Proof. unfold proj. now rewrite filter_app, map_app. Qed.

Lemma proj_same (l : Label) (a : Act) : proj l [(l, a)] = [a].
Proof. unfold proj. simpl. now rewrite Label_eqb_refl. Qed.

Lemma proj_other (l l' : Label) (a : Act) : l' <> l -> proj l [(l', a)] = [].
Proof. intro H. unfold proj. simpl. now rewrite (Label_eqb_neq _ _ H). Qed.

Lemma proj_In (l : Label) (a : Act) (tr : Trace) : In a (proj l tr) <-> In (l, a) tr.
Proof.
  unfold proj. rewrite in_map_iff. split.
  - intros [[l' a'] [E H]]. simpl in E. subst a'. apply filter_In in H as [H E].
    simpl in E. apply Label_eqb_eq in E. now subst.
  - intro H. exists (l, a). split; [reflexivity|]. apply filter_In. split; [exact H|].
    apply Label_eqb_refl.
Qed.

Lemma path_app {A : Type} (p q : Prog A) (a1 a2 : list Act) :
  path p (a1 ++ a2) q <-> exists m, path p a1 m /\ path m a2 q.
Proof.
  revert p. induction a1 as [|a a1 IH]; intro p; simpl.
  - split.
    + intro H. exists p. split; [exact eq_refl | exact H].
    + intros [m [E H]]. simpl in E. now subst m.
  - destruct p; simpl; try (split; [contradiction | intros [m [[] _]]]).
    + split.
      * intros [r [E H]]. apply IH in H as [m [H1 H2]]. exists m. split; [|exact H2]. now exists r.
      * intros [m [[r [E H1]] H2]]. exists r. split; [exact E|]. apply IH. now exists m.
    + split.
      * intros [E H]. apply IH in H as [m [H1 H2]]. exists m. now repeat split.
      * intros [m [[E H1] H2]]. split; [exact E|]. apply IH. now exists m.
Qed.

Lemma path_snoc_do {A : Type} (p : Prog A) (acts : list Act) (o : Op)
    (k : Resp o -> Prog A) (r : Resp o) :
  path p acts (Do o k) -> path p (acts ++ [ACall o (enc o r)]) (k r).
Proof. intro H. apply path_app. exists (Do o k). split; [exact H|]. simpl. now exists r. Qed.

Lemma path_snoc_go {A : Type} (p : Prog A) (acts : list Act) (l : Label)
    (c : Prog unit) (k : Prog A) :
  path p acts (Go l c k) -> path p (acts ++ [AGo l c]) k.
Proof. intro H. apply path_app. exists (Go l c k). split; [exact H|]. simpl. now split. Qed.

Lemma path_bind {A B : Type} (m : Prog A) (f : A -> Prog B) (acts : list Act) (q : Prog B) :
  path (bind m f) acts q ->
  (exists m', path m acts m' /\ q = bind m' f /\ is_ret m' = false)
  \/ (exists a a1 a2, acts = a1 ++ a2 /\ path m a1 (Ret a) /\ path (f a) a2 q).
Proof.
  revert B f acts q. induction m as [A a | A c | A o k IH | A l c _ k IH]; intros B f acts q H.
  - right. exists a, [], acts. now repeat split.
  - left. destruct acts; simpl in H; [|contradiction]. exists (Exit c). now repeat split.
  - destruct acts as [|x acts]; simpl in H.
    + left. exists (Do o k). now repeat split.
    + destruct H as [r [E H]]. apply IH in H as [[m' [H1 [H2 H3]]] | [a [a1 [a2 [H1 [H2 H3]]]]]].
      * left. exists m'. repeat split; trivial. simpl. now exists r.
      * right. exists a, (x :: a1), a2. subst acts. repeat split; trivial. simpl. now exists r.
  - destruct acts as [|x acts]; simpl in H.
    + left. exists (Go l c k). now repeat split.
    + destruct H as [E H]. apply IH in H as [[m' [H1 [H2 H3]]] | [a [a1 [a2 [H1 [H2 H3]]]]]].
      * left. exists m'. repeat split; trivial.
      * right. exists a, (x :: a1), a2. subst acts. repeat split; trivial.
Qed.

Lemma bind_not_ret {A B : Type} (m : Prog A) (f : A -> Prog B) :
  is_ret m = false -> is_ret (bind m f) = false.
Proof. destruct m; simpl; trivial. discriminate. Qed.

Lemma exec_path {A : Type} (W : World) (l : Label) (p : Prog A) (tr : Trace) :
  exists acts, snd (exec W l p tr) = tr ++ map (pair l) acts
            /\ path p acts (of_outcome (fst (exec W l p tr))).
Proof.
  revert tr. induction p as [A a | A c | A o k IH | A l' c _ k IH]; intro tr; simpl.
  - exists []. simpl. now rewrite app_nil_r.
  - exists []. simpl. now rewrite app_nil_r.
  - destruct (IH (respond W tr o) (tr ++ [(l, ACall o (enc o (respond W tr o)))])) as [acts [H1 H2]].
    exists (ACall o (enc o (respond W tr o)) :: acts). split.
    + rewrite H1, <- app_assoc. reflexivity.
    + simpl. eauto.
  - destruct (IH (tr ++ [(l, AGo l' c)])) as [acts [H1 H2]].
    exists (AGo l' c :: acts). split.
    + rewrite H1, <- app_assoc. reflexivity.
    + simpl. eauto.
Qed.

(* ================================================================= *)

(** ** Part 9: the scheduler keeps every goroutine on a path of its program *)

Lemma upd_same m l p : upd m l p l = Some p.
Proof. unfold upd. now rewrite Label_eqb_refl. Qed.

Lemma upd_other m l p l' : l <> l' -> upd m l p l' = m l'.
Proof. intro H. unfold upd. now rewrite (Label_eqb_neq _ _ H). Qed.

Lemma origin_mono p0 tr e l c : origin p0 tr l c -> origin p0 (tr ++ [e]) l c.
Proof.
  destruct l; simpl; trivial; intros [parent H]; exists parent; apply in_or_app; now left.
Qed.

Lemma init_Inv (p0 : Prog unit) : Inv p0 (init p0).
Proof.
  split; simpl.
  - now exists p0.
  - intros l p H. destruct l; try discriminate. injection H as <-. exists p0. now split.
  - reflexivity.
Qed.

Lemma step_Inv (W : World) (p0 : Prog unit) (l : Label) (s : State) :
  Inv p0 s -> Inv p0 (step W l s).
Proof.
  intros [Hm Hf Hu]. unfold step.
  destruct (status s); [|now split..].
  destruct (threads s l) as [p|] eqn:Hl; [|now split].
  destruct p as [a | c | o k | l' c k].
  - destruct l; now split.
  - now split.
  - destruct (blocked o s); [now split|].
    destruct (effect l o s) as [[[w n] pd] st]. split; simpl.
    + destruct Hm as [pm Hpm]. destruct (Label_eq_dec l LMain) as [-> | N].
      * rewrite upd_same. eauto.
      * rewrite upd_other by trivial. eauto.
    + intros l1 p1 H1. destruct (Label_eq_dec l l1) as [<- | N].
      * rewrite upd_same in H1. injection H1 as <-.
        destruct (Hf l _ Hl) as [c [Ho Hp]]. exists c. split; [now apply origin_mono|].
        rewrite proj_app, proj_same. now apply path_snoc_do.
      * rewrite upd_other in H1 by trivial.
        destruct (Hf l1 _ H1) as [c [Ho Hp]]. exists c. split; [now apply origin_mono|].
        rewrite proj_app, proj_other, app_nil_r by trivial. exact Hp.
    + intros l1 H1. destruct (Label_eq_dec l l1) as [<- | N].
      * now rewrite upd_same in H1.
      * rewrite upd_other in H1 by trivial.
        rewrite proj_app, proj_other, app_nil_r by trivial. now apply Hu.
  - destruct (threads s l') as [p'|] eqn:Hl'; [now split|].
    assert (Nll : l <> l') by (intros ->; congruence).
    assert (Nm : l' <> LMain) by (destruct Hm as [pm Hpm]; intros ->; congruence).
    split; simpl.
    + destruct Hm as [pm Hpm]. rewrite upd_other by trivial.
      destruct (Label_eq_dec l LMain) as [-> | N].
      * rewrite upd_same. eauto.
      * rewrite upd_other by trivial. eauto.
    + intros l1 p1 H1. destruct (Label_eq_dec l' l1) as [<- | N1].
      * rewrite upd_same in H1. injection H1 as <-. exists c. split.
        -- destruct l'; try (now elim Nm); exists l; apply in_or_app; right; now left.
        -- rewrite proj_app, proj_other, app_nil_r by trivial.
           rewrite (Hu _ Hl'). exact eq_refl.
      * rewrite upd_other in H1 by trivial. destruct (Label_eq_dec l l1) as [<- | N].
        -- rewrite upd_same in H1. injection H1 as <-.
           destruct (Hf l _ Hl) as [c0 [Ho Hp]]. exists c0. split; [now apply origin_mono|].
           rewrite proj_app, proj_same. now apply path_snoc_go.
        -- rewrite upd_other in H1 by trivial.
           destruct (Hf l1 _ H1) as [c0 [Ho Hp]]. exists c0. split; [now apply origin_mono|].
           rewrite proj_app, proj_other, app_nil_r by trivial. exact Hp.
    + intros l1 H1. destruct (Label_eq_dec l' l1) as [<- | N1].
      * now rewrite upd_same in H1.
      * rewrite upd_other in H1 by trivial. destruct (Label_eq_dec l l1) as [<- | N].
        -- now rewrite upd_same in H1.
        -- rewrite upd_other in H1 by trivial.
           rewrite proj_app, proj_other, app_nil_r by trivial. now apply Hu.
Qed.

Lemma deliver_Inv (p0 : Prog unit) (s : State) : Inv p0 s -> Inv p0 (deliver s).
Proof.
  intros [Hm Hf Hu]. unfold deliver. destruct (status s); [|now split..].
  destruct (notified s); now split.
Qed.

Lemma move_Inv (W : World) (p0 : Prog unit) (m : Move) (s : State) :
  Inv p0 s -> Inv p0 (move W m s).
Proof. destruct m; [apply step_Inv | apply deliver_Inv]. Qed.

Lemma run_snoc (W : World) (sched : list Move) (m : Move) (s : State) :
  run W (sched ++ [m]) s = move W m (run W sched s).
Proof. unfold run. now rewrite fold_left_app. Qed.

Lemma run_Inv (W : World) (p0 : Prog unit) (sched : list Move) :
  Inv p0 (run W sched (init p0)).
Proof.
  induction sched as [|m sched IH] using rev_ind.
  - apply init_Inv.
  - rewrite run_snoc. now apply move_Inv.
Qed.

(** A move adds at most one entry to the trace. *)
Lemma move_trace (W : World) (m : Move) (s : State) :
  trace (move W m s) = trace s \/ exists e, trace (move W m s) = trace s ++ [e].
Proof.
  destruct m as [l|]; simpl.
  - unfold step. destruct (status s); auto.
    destruct (threads s l) as [p|]; auto.
    destruct p as [a | c | o k | l' c k]; auto.
    + destruct l; auto.
    + destruct (blocked o s); auto. destruct (effect l o s) as [[[w n] pd] st].
      right. simpl. eauto.
    + destruct (threads s l'); auto. right. simpl. eauto.
  - unfold deliver. destruct (status s); auto. destruct (notified s); auto.
Qed.

(** Every prefix of the trace of a run is the trace of a shorter run. *)
Lemma prefix_reachable (W : World) (s0 : State) (sched : list Move)
    (pre : Trace) (e : Entry) (post : Trace) :
  trace s0 = [] ->
  trace (run W sched s0) = pre ++ e :: post ->
  exists sched', trace (run W sched' s0) = pre ++ [e].
Proof.
  intro H0. revert post. induction sched as [|m sched IH] using rev_ind; intros post H.
  - simpl in H. rewrite H0 in H. now destruct pre.
  - rewrite run_snoc in H.
    destruct (move_trace W m (run W sched s0)) as [E | [e' E]]; rewrite E in H.
    + eauto.
    + destruct post as [|x post'] using rev_ind.
      * exists (sched ++ [m]). rewrite run_snoc, E, H. reflexivity.
      * clear IHpost'. change (pre ++ e :: post' ++ [x]) with (pre ++ (e :: post') ++ [x]) in H.
        rewrite app_assoc in H. apply app_inj_tail in H as [H _]. eauto.
Qed.

(* ================================================================= *)

(** ** Part 10: what each function of main.go can do *)

Lemma forallb_print_io acts : forallb is_print acts = true -> forallb is_io acts = true.
Proof.
  intro H. rewrite forallb_forall in *. intros a Ha. unfold is_io. now rewrite (H a Ha).
Qed.

Lemma filter_none {A} (f g : A -> bool) (l : list A) :
  forallb g l = true -> (forall a, g a = true -> f a = false) -> filter f l = [].
Proof.
  intros H Hg. induction l as [|a l IH]; simpl in *; [reflexivity|].
  apply andb_true_iff in H as [Ha Hl]. rewrite (Hg a Ha). auto.
Qed.

Lemma print_not_read a : is_print a = true -> is_read a = false.
Proof. destruct a as [[] r | l c]; simpl; congruence. Qed.

Section CopyPaths.
Context {S : Type} (dst : Writer S) (src : Source).
Hypothesis dst_prints : forall st buf acts q,
  path (dst st buf) acts q -> forallb is_print acts = true.

Lemma copy_write_paths st w buf next acts q :
  path (copy_write dst st w buf next) acts q ->
  (forallb is_print acts = true /\ is_ret q = false)
  \/ (forallb is_print acts = true /\ exists st' w' e, q = Ret (st', (w', Some e)))
  \/ (exists a1 a2 st' w', acts = a1 ++ a2 /\ forallb is_print a1 = true
                           /\ path (next st' w') a2 q
                           /\ (((0 <? len buf)%Z = false /\ st' = st)
                               \/ ((0 <? len buf)%Z = true
                                   /\ exists n, path (dst st buf) a1 (Ret (st', (n, None)))))).
Proof.
  unfold copy_write. destruct (0 <? len buf)%Z eqn:Hlen.
  - intro H. apply path_bind in H as [[m' [H1 [H2 H3]]] | [r [a1 [a2 [H1 [H2 H3]]]]]].
    + left. split; [now apply dst_prints in H1|]. subst q. now apply bind_not_ret.
    + pose proof (dst_prints _ _ _ _ H2) as Hp.
      destruct r as [st' [nw ew]]. cbn [fst snd] in H3.
      destruct ((nw <? 0) || (len buf <? nw))%Z.
      * destruct ew as [e|]; destruct a2; simpl in H3; try contradiction; subst q acts;
          rewrite app_nil_r; right; left; split; trivial; eauto.
      * destruct ew as [e|].
        -- destruct a2; simpl in H3; try contradiction; subst q acts;
             rewrite app_nil_r; right; left; split; trivial; eauto.
        -- destruct (len buf =? nw)%Z.
           ++ right; right. exists a1, a2, st', (w + nw)%Z. repeat split; trivial.
              right. split; [reflexivity|]. now exists nw.
           ++ destruct a2; simpl in H3; try contradiction; subst q acts;
                rewrite app_nil_r; right; left; split; trivial; eauto.
  - intro H. right; right. exists [], acts, st, w. repeat split; trivial. now left.
Qed.

Lemma copy_paths rs fin e st w acts q :
  path (copy_reads dst src rs fin e st w) acts q ->
  forallb is_io acts = true
  /\ (forall st' w', q = Ret (st', (w', None)) ->
        e = None /\ filter is_read acts = all_reads src rs fin e).
Proof.
  revert st w acts q. induction rs as [|buf rs IH]; intros st w acts q H; simpl in H.
  - destruct acts as [|a acts]; simpl in H.
    + subst q. split; [reflexivity | discriminate].
    + destruct H as [[] [-> H]].
      apply copy_write_paths in H as [[Hp Hq] | [[Hp [st' [w' [e' ->]]]] | [a1 [a2 [st' [w' [-> [Hp [H Hw]]]]]]]]].
      * split; [simpl; now apply forallb_print_io|]. intros st' w' ->. discriminate.
      * split; [simpl; now apply forallb_print_io|]. intros st'' w'' E. discriminate.
      * destruct a2; simpl in H; [|contradiction]. subst q. rewrite app_nil_r.
        split; [simpl; now apply forallb_print_io|].
        intros st'' w'' E. injection E as _ _ <-. split; [reflexivity|].
        simpl. now rewrite (filter_none is_read is_print a1 Hp print_not_read).
  - destruct acts as [|a acts]; simpl in H.
    + subst q. split; [reflexivity | discriminate].
    + destruct H as [[] [-> H]].
      apply copy_write_paths in H as [[Hp Hq] | [[Hp [st' [w' [e' ->]]]] | [a1 [a2 [st' [w' [-> [Hp [H Hw]]]]]]]]].
      * split; [simpl; now apply forallb_print_io|]. intros st' w' ->. discriminate.
      * split; [simpl; now apply forallb_print_io|]. intros st'' w'' E. discriminate.
      * apply IH in H as [H1 H2]. split.
        -- simpl. rewrite forallb_app, H1, (forallb_print_io _ Hp). reflexivity.
        -- intros st'' w'' E. destruct (H2 _ _ E) as [-> H3]. split; [reflexivity|].
           simpl. rewrite filter_app, H3.
           now rewrite (filter_none is_read is_print a1 Hp print_not_read).
Qed.
End CopyPaths.

Lemma GitDumperLog_Write_prints g buf acts q :
  path (GitDumperLog_Write g buf) acts q -> forallb is_print acts = true.
Proof.
  unfold GitDumperLog_Write, call. simpl. intro H.
  destruct acts as [|a acts]; simpl in H; [reflexivity|].
  destruct H as [[] [-> H]]. destruct acts; simpl in H; [reflexivity | contradiction].
Qed.

Lemma forallb_io_run acts : forallb is_io acts = true -> forallb run_act acts = true.
Proof.
  intro H. rewrite forallb_forall in *. intros a Ha. unfold run_act. now rewrite (H a Ha).
Qed.

Lemma forallb_run_job acts : forallb run_act acts = true -> forallb job_act acts = true.
Proof.
  intro H. rewrite forallb_forall in *. intros a Ha. unfold job_act. now rewrite (H a Ha).
Qed.

Lemma RunContainerThenRemove_paths (id : string) (acts : list Act) (q : Prog unit) :
  path (RunContainerThenRemove id) acts q ->
  forallb run_act acts = true
  /\ (is_ret q = true ->
      exists rc cp r4,
        acts = ACall (client_ContainerStart id) (RErr None)
               :: ACall (client_ContainerLogs id logsOptions) (RBody (inl rc))
               :: cp ++ [ACall (client_ContainerRemove id removeOptions) (RErr r4)]
        /\ forallb is_io cp = true).
Proof.
  unfold RunContainerThenRemove. simpl. intro H.
  destruct acts as [|a acts]; simpl in H; [subst q; split; [reflexivity | discriminate]|].
  destruct H as [[e|] [-> H]].
  { path_run H; subst q; (split; [reflexivity | discriminate]). }
  destruct acts as [|a acts]; simpl in H; [subst q; split; [reflexivity | discriminate]|].
  destruct H as [[rc|e] [-> H]].
  2:{ path_run H; subst q; (split; [reflexivity | discriminate]). }
  apply path_bind in H as [[m' [H1 [H2 H3]]] | [r [a1 [a2 [H1 [H2 H3]]]]]].
  - apply (copy_paths _ _ GitDumperLog_Write_prints) in H1 as [H1 _]. split.
    + simpl. now apply forallb_io_run.
    + subst q. rewrite bind_not_ret by trivial. discriminate.
  - apply (copy_paths _ _ GitDumperLog_Write_prints) in H2 as [H2 _]. subst acts.
    destruct a2 as [|a a2]; simpl in H3.
    + subst q. split; [|discriminate]. simpl. rewrite app_nil_r. now apply forallb_io_run.
    + destruct H3 as [r4 [-> H3]]. destruct a2; simpl in H3; [|contradiction]. subst q.
      split.
      * simpl. rewrite forallb_app. rewrite (forallb_io_run _ H2). reflexivity.
      * intros _. exists rc, a1, r4. now split.
Qed.

Lemma CreateContainer_paths (L : Lib) (out u : string) (acts : list Act) (q : Prog string) :
  path (CreateContainer L out u) acts q ->
  forallb run_act acts = true
  /\ (forall id, q = Ret id ->
      exists url, url_Parse L u = inl url
        /\ acts = [ACall (client_ContainerCreate (container_Config u (hostname_of url))
                            (container_HostConfig out) (hostname_of url)) (RStr (inl id))]).
Proof.
  unfold CreateContainer. destruct (url_Parse L u) as [url|e]; simpl; intro H.
  - destruct acts as [|a acts]; simpl in H; [subst q; split; [reflexivity | discriminate]|].
    destruct H as [[id|e] [-> H]]; path_run H; subst q;
      (split; [reflexivity|]); try discriminate.
    intros id' E. injection E as <-. now exists url.
  - path_run H; subst q; (split; [reflexivity | discriminate]).
Qed.

Lemma run_act_not_done acts :
  forallb run_act acts = true -> ~ In (ACall wg_Done RUnit) acts.
Proof.
  intros H Hin. rewrite forallb_forall in H. specialize (H _ Hin). discriminate.
Qed.

Lemma job_paths (L : Lib) (out u : string) (acts : list Act) (q : Prog unit) :
  path (job L out u) acts q ->
  forallb job_act acts = true
  /\ (In (ACall wg_Done RUnit) acts -> job_done L out u acts /\ q = Ret tt).
Proof.
  unfold job. intro H.
  apply path_bind in H as [[m' [H1 [H2 H3]]] | [id [a1 [a2 [H1 [H2 H3]]]]]].
  - apply CreateContainer_paths in H1 as [H1 _]. split; [now apply forallb_run_job|].
    intro Hin. now apply run_act_not_done in Hin.
  - apply CreateContainer_paths in H2 as [Hr1 H2]. destruct (H2 id eq_refl) as [url [Hu ->]].
    apply path_bind in H3 as [[m' [H3 [H4 H5]]] | [[] [b1 [b2 [H3 [H4 H5]]]]]].
    + apply RunContainerThenRemove_paths in H3 as [H3 _]. subst acts. split.
      * rewrite forallb_app. now rewrite (forallb_run_job _ H3).
      * intro Hin. apply in_app_or in Hin as [Hin | Hin].
        -- now apply run_act_not_done in Hin.
        -- now apply run_act_not_done in Hin.
    + apply RunContainerThenRemove_paths in H4 as [Hr2 H4].
      destruct (H4 eq_refl) as [rc [cp [r4 [-> Hcp]]]]. subst a2 acts.
      unfold call in H5. path_run H5; subst q.
      * split.
        -- rewrite app_nil_r, forallb_app. now rewrite (forallb_run_job _ Hr2).
        -- rewrite app_nil_r. intro Hin. apply in_app_or in Hin as [Hin | Hin];
             now apply run_act_not_done in Hin.
      * split.
        -- rewrite !forallb_app. rewrite (forallb_run_job _ Hr2). reflexivity.
        -- intros _. split; [|reflexivity]. exists url, id, rc, cp, r4.
           repeat split; trivial. simpl. rewrite <- app_assoc. reflexivity.
Qed.

Lemma forallb_io_build acts : forallb is_io acts = true -> forallb build_act acts = true.
Proof.
  intro H. rewrite forallb_forall in *. intros a Ha. unfold build_act. now rewrite (H a Ha).
Qed.

Lemma ImageBuildResponse_Write_paths (L : Lib) (ib : ImageBuildResponse) (p : string)
    (acts : list Act) (q : Prog (ImageBuildResponse * (Z * option error))) :
  path (ImageBuildResponse_Write L ib p) acts q ->
  forallb is_print acts = true
  /\ (forall ib' n err, q = Ret (ib', (n, err)) ->
        json_Decode L p ib = (Some ib', err) /\ nonempty (ib_Error ib') = false).
Proof.
  unfold ImageBuildResponse_Write, when, call.
  destruct (json_Decode L p ib) as [[ib1|] err1].
  - destruct (nonempty (ib_Error ib1)) eqn:He, (nonempty (ib_Stream ib1)),
      (nonempty (ib_Progress ib1)), (nonempty (ib_Status ib1)); simpl; intro H;
      path_run H; subst q; (split; [reflexivity|]); intros ib' n err E;
      try discriminate; injection E as <- _ <-; now split.
  - intro H. path_run H. subst q. split; [reflexivity | discriminate].
Qed.

Lemma ImageBuildResponse_Write_prints (L : Lib) ib p acts q :
  path (ImageBuildResponse_Write L ib p) acts q -> forallb is_print acts = true.
Proof. intro H. now apply ImageBuildResponse_Write_paths in H. Qed.

Lemma build_copy_clean (L : Lib) (src : Source) (rs : list string) (fin : string)
    (e : option error) (ib : ImageBuildResponse) (w : Z) (acts : list Act)
    (st' : ImageBuildResponse) (w' : Z) :
  path (copy_reads (ImageBuildResponse_Write L) src rs fin e ib w) acts (Ret (st', (w', None))) ->
  first_error L ib (rs ++ [fin]) = None.
Proof.
  revert ib w acts. induction rs as [|buf rs IH]; intros ib w acts H; simpl in H.
  - destruct acts as [|a acts]; simpl in H; [discriminate|].
    destruct H as [[] [-> H]].
    apply (copy_write_paths _ (ImageBuildResponse_Write_prints L)) in H
      as [[Hp Hq] | [[Hp [st1 [w1 [e' E]]]] | [a1 [a2 [st1 [w1 [-> [Hp [H Hw]]]]]]]]];
      try discriminate.
    simpl. destruct Hw as [[Hl ->] | [Hl [n Hn]]]; rewrite Hl; [reflexivity|].
    apply ImageBuildResponse_Write_paths in Hn as [_ Hn].
    destruct (Hn _ _ _ eq_refl) as [-> ->]. reflexivity.
  - destruct acts as [|a acts]; simpl in H; [discriminate|].
    destruct H as [[] [-> H]].
    apply (copy_write_paths _ (ImageBuildResponse_Write_prints L)) in H
      as [[Hp Hq] | [[Hp [st1 [w1 [e' E]]]] | [a1 [a2 [st1 [w1 [-> [Hp [H Hw]]]]]]]]];
      try discriminate.
    apply IH in H. simpl. destruct Hw as [[Hl ->] | [Hl [n Hn]]]; rewrite Hl; [exact H|].
    apply ImageBuildResponse_Write_paths in Hn as [_ Hn].
    destruct (Hn _ _ _ eq_refl) as [-> ->]. exact H.
Qed.

Lemma BuildImage_paths (L : Lib) (tar : string) (acts : list Act) (q : Prog unit) :
  path (BuildImage L tar) acts q ->
  build_shape acts
  /\ (is_ret q = true -> build_complete L tar acts).
Proof.
  intro H0. assert (H := H0). revert H. unfold BuildImage. simpl. intro H.
  destruct acts as [|a acts]; simpl in H; [subst q; split; [now left | discriminate]|].
  destruct H as [r [-> H]]. split.
  - right. exists tar, ["gget"], (RBody r), acts. split; [reflexivity|].
    destruct r as [body|e]; [|path_run H; reflexivity].
    apply path_bind in H as [[m' [H1 [H2 H3]]] | [r [a1 [a2 [H1 [H2 H3]]]]]].
    + now apply (copy_paths _ _ (ImageBuildResponse_Write_prints L)) in H1.
    + apply (copy_paths _ _ (ImageBuildResponse_Write_prints L)) in H2 as [Hio _]. subst acts.
      rewrite forallb_app, Hio.
      destruct (snd (snd r)); path_run H3; reflexivity.
  - destruct r as [body|e]; [|path_run H; subst q; discriminate].
    apply path_bind in H as [[m' [H1 [H2 H3]]] | [r [a1 [a2 [H1 [H2 H3]]]]]].
    + subst q. rewrite bind_not_ret by trivial. discriminate.
    + pose proof H2 as Hc.
      apply (copy_paths _ _ (ImageBuildResponse_Write_prints L)) in H2 as [Hio H2]. subst acts.
      destruct r as [st' [w' [e|]]]; cbn [snd] in H3.
      * path_run H3; subst q; discriminate.
      * destruct a2; simpl in H3; [|contradiction]. subst q. rewrite app_nil_r.
        rewrite app_nil_r in H0. intros _. split; [exact H0|].
        destruct (H2 _ _ eq_refl) as [Hs Hr]. exists body, a1.
        unfold io_Copy in Hc. apply build_copy_clean in Hc.
        rewrite Hs in Hr. repeat split; trivial.
Qed.

Lemma build_shape_acts (b : list Act) : build_shape b -> forallb build_act b = true.
Proof.
  intros [-> | [tar [tags [r [rest [-> H]]]]]]; [reflexivity|].
  simpl. now apply forallb_io_build.
Qed.

Lemma build_complete_shape (L : Lib) (tar : string) (b : list Act) :
  build_complete L tar b -> build_shape b.
Proof.
  intros [_ [body [cp [-> [_ [_ [H _]]]]]]]. right.
  now exists tar, ["gget"], (RBody (inl body)), cp.
Qed.

(* ---------- the signal goroutines ---------- *)

Lemma HandleSIGTERM_paths (cb : Prog unit) (acts : list Act) (q : Prog unit) :
  path (HandleSIGTERM cb) acts q -> exists rest, acts ++ rest = signals_acts cb.
Proof.
  unfold HandleSIGTERM, call. simpl. intro H. path_run H; subst q; unfold signals_acts.
  - now exists [ACall signal_Notify RUnit; AGo LHandler (signal_goroutine cb)].
  - now exists [AGo LHandler (signal_goroutine cb)].
  - now exists [].
Qed.

Lemma signal_goroutine_paths (out : string) (acts : list Act) (q : Prog unit) :
  path (signal_goroutine (cleanup out)) acts q ->
  exists r rest, acts ++ rest = handler_acts out r
    /\ (terminal q = true -> rest = [] /\ q = Exit 1).
Proof.
  unfold signal_goroutine, cleanup, call. simpl. intro H.
  destruct acts as [|a acts]; simpl in H.
  { subst q. exists None. eexists. split; [reflexivity | discriminate]. }
  destruct H as [[] [-> H]].
  destruct acts as [|a acts]; simpl in H.
  { subst q. exists None. eexists. split; [reflexivity | discriminate]. }
  destruct H as [[] [-> H]].
  destruct acts as [|a acts]; simpl in H.
  { subst q. exists None. eexists. split; [reflexivity | discriminate]. }
  destruct H as [[e|] [-> H]]; path_run H; subst q.
  - exists (Some e). eexists. split; [reflexivity | discriminate].
  - exists (Some e), []. split; [reflexivity|]. now split.
  - exists None, []. split; [reflexivity|]. now split.
Qed.

Lemma forallb_out_setup acts : forallb out_act acts = true -> forallb setup_act acts = true.
Proof.
  intro H. rewrite forallb_forall in *. intros a Ha. unfold setup_act. now rewrite (H a Ha).
Qed.

Lemma HandleInput_paths (i f : string) (acts : list Act) (q : Prog (option (list string))) :
  path (HandleInput i f) acts q ->
  forallb setup_act acts = true
  /\ (forall r, q = Ret r ->
        (r = None /\ acts = [])
        \/ exists urls, r = Some urls /\ acts = [ACall (os_Open f) (RLines (inl urls))]).
Proof.
  unfold HandleInput. destruct (nonempty f).
  - simpl. intro H.
    destruct acts as [|a acts]; simpl in H; [subst q; split; [reflexivity | discriminate]|].
    destruct H as [[urls|e] [-> H]]; path_run H; subst q;
      (split; [reflexivity|]); try discriminate.
    intros r E. injection E as <-. right. now exists urls.
  - destruct (String.eqb i ""); intro H; path_run H; subst q;
      (split; [reflexivity|]); try discriminate.
    intros r E. injection E as <-. now left.
Qed.

Lemma HandleOutput_paths (o : string) (acts : list Act) (q : Prog string) :
  path (HandleOutput o) acts q -> forallb out_act acts = true.
Proof.
  unfold HandleOutput. destruct (String.eqb o "").
  { intro H. path_run H; reflexivity. }
  intro H.
  apply path_bind in H as [[m' [H1 _]] | [o1 [a1 [a2 [-> [H1 H2]]]]]].
  { destruct (strings_HasPrefix o "~"); simpl in H1.
    - destruct acts as [|a acts]; simpl in H1; [reflexivity|].
      destruct H1 as [[h|e] [-> H1]]; path_run H1; reflexivity.
    - path_run H1; reflexivity. }
  assert (Ha1 : forallb out_act a1 = true).
  { destruct (strings_HasPrefix o "~"); simpl in H1.
    - destruct a1 as [|a a1]; simpl in H1; [reflexivity|].
      destruct H1 as [[h|e] [-> H1]]; path_run H1; reflexivity.
    - path_run H1; reflexivity. }
  rewrite forallb_app, Ha1. simpl.
  apply path_bind in H2 as [[m' [H2 _]] | [o2 [b1 [b2 [-> [H2 H3]]]]]].
  { destruct (negb (path_IsAbs o1)); simpl in H2.
    - destruct a2 as [|a a2]; simpl in H2; [reflexivity|].
      destruct H2 as [[h|e] [-> H2]]; path_run H2; reflexivity.
    - path_run H2; reflexivity. }
  assert (Hb1 : forallb out_act b1 = true).
  { destruct (negb (path_IsAbs o1)); simpl in H2.
    - destruct b1 as [|a b1]; simpl in H2; [reflexivity|].
      destruct H2 as [[h|e] [-> H2]]; path_run H2; reflexivity.
    - path_run H2; reflexivity. }
  rewrite forallb_app, Hb1. simpl. simpl in H3.
  destruct b2 as [|a b2]; simpl in H3; [reflexivity|].
  destruct H3 as [[e|] [-> H3]]; path_run H3; reflexivity.
Qed.

Lemma spawn_jobs_paths {B : Type} (L : Lib) (out : string) (urls : list string) (i : nat)
    (K : Prog B) (b : list Act) (q : Prog B) :
  path (bind (spawn_jobs L out urls i) (fun _ => K)) b q ->
  (exists rest, b ++ rest = spawn_acts L out urls i /\ rest <> [] /\ is_ret q = false)
  \/ (exists b', b = spawn_acts L out urls i ++ b' /\ path K b' q).
Proof.
  revert i b. induction urls as [|u urls IH]; intros i b H; simpl in H.
  - right. now exists b.
  - destruct b as [|a b]; simpl in H.
    + subst q. left. eexists. split; [reflexivity|]. split; [discriminate | reflexivity].
    + destruct H as [-> H]. apply IH in H as [[rest [H1 [H2 H3]]] | [b' [-> H]]].
      * left. exists rest. simpl. now rewrite H1.
      * right. now exists b'.
Qed.

Lemma file_branch_paths (L : Lib) (out : string) (urls : list string)
    (b : list Act) (q : Prog unit) :
  path (call (wg_Add (List.length urls)) ;; spawn_jobs L out urls 0 ;;
        call wg_Wait ;; call file_Close)%prog b q ->
  exists rest, b ++ rest = file_acts L out urls /\ (is_ret q = true -> rest = []).
Proof.
  unfold call, file_acts. cbn [bind]. intro H.
  destruct b as [|a b]; simpl in H.
  { subst q. eexists. split; [reflexivity | discriminate]. }
  destruct H as [[] [-> H]].
  apply spawn_jobs_paths in H as [[rest [H1 [H2 H3]]] | [b' [-> H]]].
  - exists (rest ++ [ACall wg_Wait RUnit; ACall file_Close RUnit]). split.
    + simpl. now rewrite app_assoc, H1.
    + rewrite H3. discriminate.
  - simpl in H. path_run H; subst q.
    + exists [ACall wg_Wait RUnit; ACall file_Close RUnit]. split; [|discriminate].
      simpl. now rewrite app_nil_r.
    + exists [ACall file_Close RUnit]. split; [|discriminate].
      simpl. rewrite <- app_assoc. reflexivity.
    + exists []. split; [|reflexivity]. simpl. now rewrite app_nil_r.
Qed.

Lemma single_paths (L : Lib) (out i : string) (b : list Act) (q : Prog unit) :
  path (id <- CreateContainer L out i ;; RunContainerThenRemove id)%prog b q ->
  forallb run_act b = true.
Proof.
  intro H. apply path_bind in H as [[m' [H1 _]] | [id [a1 [a2 [-> [H1 H2]]]]]].
  - now apply CreateContainer_paths in H1.
  - apply CreateContainer_paths in H1 as [H1 _].
    apply RunContainerThenRemove_paths in H2 as [H2 _]. now rewrite forallb_app, H1, H2.
Qed.

Opaque BuildImage HandleSIGTERM CreateContainer RunContainerThenRemove spawn_jobs cleanup.

Lemma main_paths (L : Lib) (fl : Flags) (acts : list Act) (q : Prog unit) :
  path (main L fl) acts q -> main_form L fl acts q.
Proof.
  unfold main. intro H.
  apply path_bind in H as [[m' [H1 [-> H3]]] | [inputFile [a1 [a2 [-> [H1 H2]]]]]].
  { left. split; [now apply HandleInput_paths in H1 | now apply bind_not_ret]. }
  apply HandleInput_paths in H1 as [Ha1 H1]. specialize (H1 _ eq_refl).
  apply path_bind in H2 as [[m' [H2 [-> H3]]] | [out [o1 [o2 [-> [H2 H3]]]]]].
  { left. split; [|now apply bind_not_ret].
    apply HandleOutput_paths, forallb_out_setup in H2. now rewrite forallb_app, Ha1. }
  apply HandleOutput_paths in H2. simpl in H3.
  assert (Hsetup : forall x, out_act x = true ->
            setup_done (a1 ++ o1 ++ [x]) inputFile).
  { intros x Hx. split.
    - rewrite !forallb_app, Ha1, (forallb_out_setup _ H2). simpl.
      unfold setup_act. now rewrite Hx.
    - intros f urls Hin. apply in_app_or in Hin as [Hin | Hin].
      + destruct H1 as [[-> ->] | [urls' [-> ->]]]; [contradiction|].
        destruct Hin as [E | []]. now inversion E.
      + apply in_app_or in Hin as [Hin | [E | []]].
        * rewrite forallb_forall in H2. specialize (H2 _ Hin). discriminate.
        * subst x. discriminate. }
  destruct o2 as [|a o2]; simpl in H3.
  { subst q. left. split; [|reflexivity].
    rewrite !forallb_app, Ha1, (forallb_out_setup _ H2). reflexivity. }
  destruct H3 as [[e|] [-> H3]].
  { left. path_run H3; subst q; (split; [|reflexivity]);
      rewrite !forallb_app, Ha1, (forallb_out_setup _ H2); reflexivity. }
  destruct o2 as [|a o2]; simpl in H3.
  { subst q. left. split; [|reflexivity].
    rewrite !forallb_app, Ha1, (forallb_out_setup _ H2). reflexivity. }
  destruct H3 as [-> H3].
  right. exists (a1 ++ o1 ++ [ACall client_NewClientWithOpts (RErr None)]), inputFile, out, o2.
  split; [now rewrite <- !app_assoc|]. split; [now apply Hsetup|].
  apply path_bind in H3 as [[m' [H3 [-> H4]]] | [[] [b1 [b2 [-> [H3 H4]]]]]].
  { left. split; [now apply BuildImage_paths in H3 | now apply bind_not_ret]. }
  right. exists b1, b2. apply BuildImage_paths in H3 as [Hb1 H3].
  split; [reflexivity|]. split; [now apply H3|].
  destruct inputFile as [urls|].
  - now apply file_branch_paths.
  - now apply single_paths in H4.
Qed.

Transparent BuildImage HandleSIGTERM CreateContainer RunContainerThenRemove spawn_jobs cleanup.

(* ================================================================= *)

(** ** Part 11: the goroutines of the process *)

Lemma app_self_nil {A : Type} (l : list A) (e : A) : l <> l ++ [e].
Proof.
  intro H. apply (f_equal (@List.length A)) in H. rewrite length_app in H. simpl in H. lia.
Qed.

(** The entry that a move adds belongs to a goroutine that is there
    afterwards, and a [go] entry never names the goroutine that has it. *)
Lemma move_entry (W : World) (m : Move) (s : State) (e : Entry) :
  trace (move W m s) = trace s ++ [e] ->
  (exists p, threads (move W m s) (fst e) = Some p)
  /\ (forall l c, snd e = AGo l c -> l <> fst e)
  /\ (forall r, snd e = ACall wg_Wait r -> wg s = 0%Z).
Proof.
  destruct m as [l|]; simpl.
  - unfold step. destruct (status s); try (intro H; now apply app_self_nil in H).
    destruct (threads s l) as [p|] eqn:Hl; try (intro H; now apply app_self_nil in H).
    destruct p as [a | c | o k | l' c k].
    + destruct l; intro H; now apply app_self_nil in H.
    + intro H; now apply app_self_nil in H.
    + destruct (blocked o s) eqn:Hb; try (intro H; now apply app_self_nil in H).
      destruct (effect l o s) as [[[w n] pd] st]. simpl. intro H.
      apply app_inv_head in H. injection H as <-. simpl. repeat split.
      * rewrite upd_same. eauto.
      * discriminate.
      * intros r E. injection E as E1 _. subst o. simpl in Hb.
        destruct (wg s =? 0)%Z eqn:E0; [|discriminate]. now apply Z.eqb_eq.
    + destruct (threads s l') eqn:Hl'; try (intro H; now apply app_self_nil in H).
      simpl. intro H. apply app_inv_head in H. injection H as <-. simpl.
      assert (Nll : l <> l') by (intros ->; congruence). repeat split.
      * rewrite upd_other by congruence. rewrite upd_same. eauto.
      * intros l1 c1 E. injection E as <- <-. congruence.
      * discriminate.
  - unfold deliver. destruct (status s); try (intro H; now apply app_self_nil in H).
    destruct (notified s); intro H; now apply app_self_nil in H.
Qed.

Lemma prefix_In {A : Type} (a : A) (l rest full : list A) :
  l ++ rest = full -> In a l -> In a full.
Proof. intros <- H. apply in_or_app. now left. Qed.

Lemma forallb_In {A : Type} (f : A -> bool) (l : list A) (a : A) :
  forallb f l = true -> In a l -> f a = true.
Proof. intros H Ha. rewrite forallb_forall in H. now apply H. Qed.

Lemma spawn_acts_In (L : Lib) (out : string) (urls : list string) (k : nat) (l : Label)
    (c : Prog unit) :
  In (AGo l c) (spawn_acts L out urls k) ->
  exists i u, l = LJob (k + i) /\ nth_error urls i = Some u /\ c = job L out u.
Proof.
  revert k. induction urls as [|u urls IH]; intros k H; simpl in H; [contradiction|].
  destruct H as [E | H].
  - injection E as <- <-. exists 0, u. now rewrite Nat.add_0_r.
  - apply IH in H as [i [u' [-> [H1 H2]]]]. exists (S i), u'.
    repeat split; trivial. f_equal. lia.
Qed.

Lemma file_acts_In (L : Lib) (out : string) (urls : list string) (l : Label) (c : Prog unit) :
  In (AGo l c) (file_acts L out urls) ->
  exists i u, l = LJob i /\ nth_error urls i = Some u /\ c = job L out u.
Proof.
  unfold file_acts. intros [E | H]; [discriminate|].
  apply in_app_or in H as [H | [E | [E | []]]]; try discriminate.
  now apply spawn_acts_In in H.
Qed.

(** The [go] statements of [main]. *)
Lemma main_go (L : Lib) (fl : Flags) (acts : list Act) (q : Prog unit) (l : Label)
    (c : Prog unit) :
  path (main L fl) acts q -> In (AGo l c) acts -> runs L l c /\ l <> LHandler.
Proof.
  intros H Hin. apply main_paths in H as [[H _] | [a0 [inputFile [out [b [-> [[Ha0 _] H]]]]]]].
  { now apply (forallb_In _ _ _ H) in Hin. }
  apply in_app_or in Hin as [Hin | [E | Hin]].
  { now apply (forallb_In _ _ _ Ha0) in Hin. }
  { injection E as <- <-. split; [now exists out | discriminate]. }
  destruct H as [[H _] | [b1 [b2 [-> [Hb1 H]]]]].
  { apply build_shape_acts in H. now apply (forallb_In _ _ _ H) in Hin. }
  apply in_app_or in Hin as [Hin | Hin].
  { apply build_complete_shape, build_shape_acts in Hb1.
    now apply (forallb_In _ _ _ Hb1) in Hin. }
  destruct inputFile as [urls|].
  - destruct H as [rest [H _]]. apply (prefix_In _ _ _ _ H) in Hin.
    apply file_acts_In in Hin as [i [u [-> [_ ->]]]]. split; [now exists out, u | discriminate].
  - now apply (forallb_In _ _ _ H) in Hin.
Qed.

Lemma spawned_ok_run (W : World) (fl : Flags) (sched : list Move) :
  spawned_ok (lib W) (trace (process W fl sched)).
Proof.
  unfold process. induction sched as [|m sched IH] using rev_ind.
  - intros parent l c [].
  - rewrite run_snoc.
    set (s := run W sched (init (main (lib W) fl))) in *.
    destruct (move_trace W m s) as [E | [e E]]; [now rewrite E|].
    pose proof (move_Inv W _ m s (run_Inv W _ sched)) as [_ Hf _].
    destruct (move_entry W m s e E) as [[p Hp] [Hgo _]].
    rewrite E in *. intros parent l c Hin.
    apply in_app_or in Hin as [Hin | [Ee | []]]; [now apply IH|]. subst e.
    simpl in Hp, Hgo. specialize (Hgo l c eq_refl).
    destruct (Hf _ _ Hp) as [c0 [Ho Hpath]].
    rewrite proj_app, proj_same in Hpath.
    assert (Hlast : In (AGo l c) (proj parent (trace s) ++ [AGo l c]))
      by (apply in_or_app; right; now left).
    assert (Hc0 : (parent = LMain /\ c0 = main (lib W) fl)
                  \/ (parent <> LMain /\ runs (lib W) parent c0
                      /\ (parent = LHandler \/ exists g, In (g, AGo parent c0) (trace s)))).
    { destruct parent; simpl in Ho; [now left | right..];
        (split; [discriminate|]);
        destruct Ho as [g Ho]; apply in_app_or in Ho as [Ho | [Eq | []]];
        try (inversion Eq; subst; now elim Hgo);
        (split; [now apply IH in Ho | eauto]). }
    destruct Hc0 as [[-> ->] | [Np [Hr _]]].
    + destruct (main_go _ _ _ _ _ _ Hpath Hlast) as [H1 H2]. split; [exact H1|].
      now destruct l.
    + destruct parent; simpl in Hr; try contradiction.
      * destruct Hr as [out ->]. apply HandleSIGTERM_paths in Hpath as [rest Hpath].
        apply (prefix_In _ _ _ _ Hpath) in Hlast.
        destruct Hlast as [E1 | [E1 | []]]; [discriminate|]. injection E1 as <- <-.
        split; [now exists out | reflexivity].
      * destruct Hr as [out ->]. apply signal_goroutine_paths in Hpath as [r [rest [Hpath _]]].
        apply (prefix_In _ _ _ _ Hpath) in Hlast. unfold handler_acts in Hlast.
        destruct r; simpl in Hlast; intuition discriminate.
      * destruct Hr as [out [u ->]]. apply job_paths in Hpath as [Hpath _].
        now apply (forallb_In _ _ _ Hpath) in Hlast.
Qed.

(** What every goroutine of the process is running. *)
Lemma thread_runs (W : World) (fl : Flags) (sched : list Move) (l : Label) (p : Prog unit) :
  threads (process W fl sched) l = Some p ->
  exists c, path c (proj l (trace (process W fl sched))) p
    /\ match l with
       | LMain => c = main (lib W) fl
       | _ => runs (lib W) l c
              /\ In (match l with LHandler => LSignals | _ => LMain end, AGo l c)
                   (trace (process W fl sched))
       end.
Proof.
  intro H. unfold process in *.
  destruct (run_Inv W (main (lib W) fl) sched) as [_ Hf _].
  destruct (Hf _ _ H) as [c [Ho Hp]]. exists c. split; [exact Hp|].
  pose proof (spawned_ok_run W fl sched) as Hs. unfold process in Hs.
  destruct l; simpl in Ho; trivial; destruct Ho as [g Ho];
    destruct (Hs _ _ _ Ho) as [H1 ->]; now split.
Qed.

(* ================================================================= *)

(** ** Part 12: the build is a barrier (C2, C6) *)

Lemma acted_alive (W : World) (fl : Flags) (sched : list Move) (l : Label) (a : Act) :
  In (l, a) (trace (process W fl sched)) ->
  exists p, threads (process W fl sched) l = Some p.
Proof.
  intro H. unfold process in *.
  destruct (run_Inv W (main (lib W) fl) sched) as [_ _ Hu].
  destruct (threads _ l) as [p|] eqn:E; [eauto|].
  apply Hu in E. apply proj_In in H. rewrite E in H. contradiction.
Qed.

Lemma snoc_split {A : Type} (l m n : list A) (a : A) :
  l ++ [a] = m ++ n -> n <> [] -> exists n', n = n' ++ [a] /\ l = m ++ n'.
Proof.
  intros H Hn. destruct n as [|x n] using rev_ind; [now elim Hn|]. clear IHn.
  rewrite app_assoc in H. apply app_inj_tail in H as [-> ->]. now exists n.
Qed.

Lemma main_thread (W : World) (fl : Flags) (sched : list Move) :
  exists q, path (main (lib W) fl) (proj LMain (trace (process W fl sched))) q
    /\ threads (process W fl sched) LMain = Some q.
Proof.
  unfold process.
  destruct (run_Inv W (main (lib W) fl) sched) as [[q Hq] _ _].
  destruct (thread_runs W fl sched LMain q Hq) as [c [Hp ->]]. eauto.
Qed.

(** Whatever [main] creates or starts as a job comes after a returned
    [BuildImage]. *)
Lemma main_after_build (L : Lib) (fl : Flags) (acts : list Act) (q : Prog unit) (x : Act) :
  path (main L fl) acts q -> In x acts -> is_create x || is_go_job x = true ->
  exists a0 b1 b2, acts = a0 ++ b1 ++ b2 /\ build_complete L (tarFile fl) b1 /\ In x b2.
Proof.
  intros H Hin Hx.
  assert (Hs : setup_act x = false)
    by (destruct x as [[] r | [] c]; simpl in *; try reflexivity; discriminate).
  assert (Hb : build_act x = false)
    by (destruct x as [[] r | [] c]; simpl in *; try reflexivity; discriminate).
  apply main_paths in H as [[H _] | [a0 [inputFile [out [b [-> [[Ha0 _] H]]]]]]].
  { apply (forallb_In _ _ _ H) in Hin. congruence. }
  apply in_app_or in Hin as [Hin | [E | Hin]].
  { apply (forallb_In _ _ _ Ha0) in Hin. congruence. }
  { subst x. discriminate. }
  destruct H as [[H _] | [b1 [b2 [-> [Hb1 H]]]]].
  { apply build_shape_acts in H. apply (forallb_In _ _ _ H) in Hin. congruence. }
  apply in_app_or in Hin as [Hin | Hin].
  { apply build_complete_shape, build_shape_acts in Hb1 as Hb1'.
    apply (forallb_In _ _ _ Hb1') in Hin. congruence. }
  exists (a0 ++ [AGo LSignals (HandleSIGTERM (cleanup out))]), b1, b2.
  rewrite <- app_assoc. split; [reflexivity|]. now split.
Qed.

Lemma barrier (W : World) (fl : Flags) (sched : list Move) (pre : Trace) (e : Entry) :
  trace (process W fl sched) = pre ++ [e] ->
  is_create (snd e) = true ->
  exists a0 b1 b2,
    proj LMain pre = a0 ++ b1 ++ b2 /\ build_complete (lib W) (tarFile fl) b1.
Proof.
  intros Htr He. destruct e as [l a]. simpl in He.
  assert (Hin : In (l, a) (trace (process W fl sched)))
    by (rewrite Htr; apply in_or_app; right; now left).
  destruct (acted_alive _ _ _ _ _ Hin) as [p Hp].
  destruct (main_thread W fl sched) as [q [Hq _]].
  destruct (thread_runs _ _ _ _ _ Hp) as [c [Hpath Hc]].
  rewrite Htr, proj_app in Hq, Hpath. rewrite proj_same in Hpath.
  destruct (Label_eq_dec l LMain) as [-> | Nl].
  - rewrite proj_same in Hq.
    destruct (main_after_build _ _ _ _ a Hq) as [a0 [b1 [b2 [E [Hb Hb2]]]]].
    + apply in_or_app. right. now left.
    + now rewrite He.
    + rewrite app_assoc in E. apply snoc_split in E as [n' [-> E]];
        [|intros ->; contradiction].
      exists a0, b1, n'. now rewrite <- app_assoc in E.
  - rewrite proj_other, app_nil_r in Hq by trivial.
    assert (Hgo : exists c', In (AGo l c') (proj LMain pre) /\ is_go_job (AGo l c') = true).
    { destruct l; try (now elim Nl); destruct Hc as [Hr Hc].
      - destruct Hr as [out ->]. apply HandleSIGTERM_paths in Hpath as [rest Hpath].
        assert (Ha : In a (signals_acts (cleanup out)))
          by (rewrite <- Hpath; apply in_or_app; left; apply in_or_app; right; now left).
        destruct Ha as [E0 | [E0 | []]]; subst a; simpl in He; discriminate He.
      - destruct Hr as [out ->]. apply signal_goroutine_paths in Hpath as [r [rest [Hpath _]]].
        assert (Ha : In a (handler_acts out r))
          by (rewrite <- Hpath; apply in_or_app; left; apply in_or_app; right; now left).
        unfold handler_acts in Ha. destruct r; simpl in Ha;
          repeat (destruct Ha as [E0 | Ha]; [subst a; simpl in He; discriminate He|]);
          contradiction.
      - exists c. split; [|reflexivity]. rewrite Htr in Hc.
        apply in_app_or in Hc as [Hc | [E | []]].
        + now apply proj_In.
        + discriminate E. }
    destruct Hgo as [c' [Hgo1 Hgo2]].
    destruct (main_after_build _ _ _ _ _ Hq Hgo1) as [a0 [b1 [b2 [E [Hb _]]]]].
    + now rewrite Hgo2, orb_true_r.
    + now exists a0, b1, b2.
Qed.

(** C2.  [BuildImage] is a barrier: before any container-create call of a
    run, whichever goroutine makes it, [main] has made the build call, got a
    response body, read that body to [io.EOF] (every chunk, and the last read)
    with no line reporting an error, and [BuildImage] has returned. *)
Theorem C2_build_barrier (W : World) (fl : Flags) (sched : list Move)
    (pre : Trace) (e : Entry) (post : Trace) :
  trace (process W fl sched) = pre ++ e :: post ->
  is_create (snd e) = true ->
  exists a0 b1 b2 body cp,
    proj LMain pre = a0 ++ b1 ++ b2
    /\ path (BuildImage (lib W) (tarFile fl)) b1 (Ret tt)
    /\ b1 = ACall (client_ImageBuild (tarFile fl) ["gget"]) (RBody (inl body)) :: cp
    /\ stop body = None
    /\ filter is_read cp = all_reads BuildBody (reads body) (final body) None.
Proof.
  intros Htr He. unfold process in Htr.
  apply prefix_reachable in Htr as [sched' Htr]; [|reflexivity].
  destruct (barrier W fl sched' pre e Htr He)
    as [a0 [b1 [b2 [E [Hp [body [cp [Hb [Hs [Hr _]]]]]]]]]].
  exists a0, b1, b2, body, cp. now repeat split.
Qed.

(** The list file of the test double has two lines: both jobs are created
    after the build has been read to the end. *)
Lemma C2_build_barrier_witness :
  exists a0 b1 b2 body cp,
    proj LMain (firstn 13 (trace (process (mock_world ok_script) list_flags
                                    (rounds 30 [LMain; LSignals; LHandler; LJob 0; LJob 1]))))
      = a0 ++ b1 ++ b2
    /\ path (BuildImage mock_lib "TAR") b1 (Ret tt)
    /\ b1 = ACall (client_ImageBuild "TAR" ["gget"]) (RBody (inl body)) :: cp
    /\ stop body = None
    /\ filter is_read cp = all_reads BuildBody (reads body) (final body) None.
Proof.
  refine (C2_build_barrier (mock_world ok_script) list_flags
            (rounds 30 [LMain; LSignals; LHandler; LJob 0; LJob 1])
            (firstn 13 (trace (process (mock_world ok_script) list_flags
                                 (rounds 30 [LMain; LSignals; LHandler; LJob 0; LJob 1]))))
            _ _ _ _).
  - vm_compute. reflexivity.
  - reflexivity.
Defined.

Lemma spawn_acts_kind (L : Lib) (out : string) (urls : list string) (i : nat) :
  forallb file_act (spawn_acts L out urls i) = true.
Proof. revert i. induction urls as [|u urls IH]; intro i; simpl; auto. Qed.

Lemma file_acts_kind (L : Lib) (out : string) (urls : list string) :
  forallb file_act (file_acts L out urls) = true.
Proof. unfold file_acts. simpl. now rewrite forallb_app, spawn_acts_kind. Qed.

(** Where an entry of [main] can stand, by what it is. *)
Lemma main_entry (L : Lib) (fl : Flags) (acts : list Act) (q : Prog unit) (x : Act) :
  path (main L fl) acts q -> In x acts ->
  setup_act x = true
  \/ (exists out, x = AGo LSignals (HandleSIGTERM (cleanup out)))
  \/ (is_io x = true)
  \/ (is_build_call x = true
      /\ forall y, In y acts -> is_build_call y = true -> y = x)
  \/ file_act x = true
  \/ run_act x = true.
Proof.
  intros H Hin.
  apply main_paths in H as [[H _] | [a0 [inputFile [out [b [-> [[Ha0 _] H]]]]]]].
  { left. now apply (forallb_In _ _ _ H). }
  assert (Hb2 : forall b1 b2, b = b1 ++ b2 -> build_shape b1 ->
            (forall y, In y b2 -> is_build_call y = false) ->
            In x b ->
            is_io x = true
            \/ (is_build_call x = true
                /\ forall y, In y (a0 ++ AGo LSignals (HandleSIGTERM (cleanup out)) :: b) ->
                             is_build_call y = true -> y = x)
            \/ In x b2).
  { intros b1 b2 -> Hs Hno Hx. apply in_app_or in Hx as [Hx | Hx]; [|now right; right].
    destruct Hs as [-> | [tar [tags [r [rest [-> Hio]]]]]]; [contradiction|].
    destruct Hx as [<- | Hx]; [|left; now apply (forallb_In _ _ _ Hio)].
    right; left. split; [reflexivity|]. intros y Hy Hyb.
    apply in_app_or in Hy as [Hy | [<- | Hy]].
    - apply (forallb_In _ _ _ Ha0) in Hy. destruct y as [[] ? | ? ?]; discriminate.
    - discriminate.
    - destruct Hy as [<- | Hy]; [reflexivity|]. apply in_app_or in Hy as [Hy | Hy].
      + apply (forallb_In _ _ _ Hio) in Hy. destruct y as [[] ? | ? ?]; discriminate.
      + rewrite (Hno _ Hy) in Hyb. discriminate. }
  apply in_app_or in Hin as [Hin | [<- | Hin]].
  { left. now apply (forallb_In _ _ _ Ha0). }
  { right; left. now exists out. }
  destruct H as [[H _] | [b1 [b2 [E [Hb1 H]]]]].
  - destruct (Hb2 b [] (eq_sym (app_nil_r b)) H (fun y (Hy : In y []) => match Hy with end) Hin)
      as [Hx | [Hx | []]]; auto.
  - apply build_complete_shape in Hb1. destruct inputFile as [urls|].
    + destruct H as [rest [H _]].
      assert (Hk : forall y, In y b2 -> file_act y = true).
      { intros y Hy. apply (prefix_In _ _ _ _ H) in Hy.
        now apply (forallb_In _ _ _ (file_acts_kind L out urls)). }
      assert (Hno : forall y, In y b2 -> is_build_call y = false).
      { intros y Hy. apply Hk in Hy. destruct y as [[] ? | ? ?]; simpl in *; congruence. }
      destruct (Hb2 b1 b2 E Hb1 Hno Hin) as [Hx | [Hx | Hx]]; auto.
      right; right; right; right; left. now apply Hk.
    + assert (Hno : forall y, In y b2 -> is_build_call y = false).
      { intros y Hy. apply (forallb_In _ _ _ H) in Hy.
        destruct y as [[] ? | ? ?]; try reflexivity; discriminate Hy. }
      destruct (Hb2 b1 b2 E Hb1 Hno Hin) as [Hx | [Hx | Hx]]; auto.
      right; right; right; right; right. now apply (forallb_In _ _ _ H).
Qed.



(* ================================================================= *)

(** ** Part 13: the wait group and the fan-out (C7) *)

Lemma adds_of_app (l1 l2 : list Act) : adds_of (l1 ++ l2) = adds_of l1 + adds_of l2.
Proof. unfold adds_of. now rewrite map_app, list_sum_app. Qed.

Lemma count_app (P : Act -> bool) (l1 l2 : list Act) :
  count P (l1 ++ l2) = count P l1 + count P l2.
Proof. unfold count. now rewrite filter_app, length_app. Qed.

Lemma adds_tr_snoc (tr : Trace) (e : Entry) : adds_tr (tr ++ [e]) = adds_tr tr + added (snd e).
Proof.
  unfold adds_tr. rewrite map_app, adds_of_app. f_equal. unfold adds_of. simpl. lia.
Qed.

Lemma count_tr_app (P : Act -> bool) (t1 t2 : Trace) :
  count_tr P (t1 ++ t2) = count_tr P t1 + count_tr P t2.
Proof. unfold count_tr. now rewrite map_app, count_app. Qed.

Lemma count_tr_snoc (P : Act -> bool) (tr : Trace) (e : Entry) :
  count_tr P (tr ++ [e]) = count_tr P tr + if P (snd e) then 1 else 0.
Proof.
  rewrite count_tr_app. f_equal. unfold count_tr, count. simpl. now destruct (P (snd e)).
Qed.

Lemma move_wg (W : World) (m : Move) (s : State) :
  wg s = (Z.of_nat (adds_tr (trace s)) - Z.of_nat (count_tr is_wg_Done (trace s)))%Z ->
  wg (move W m s) = (Z.of_nat (adds_tr (trace (move W m s)))
                     - Z.of_nat (count_tr is_wg_Done (trace (move W m s))))%Z.
Proof.
  intro IH. destruct m as [l|]; simpl.
  - unfold step. destruct (status s); trivial.
    destruct (threads s l) as [p|]; trivial.
    destruct p as [a | c | o k | l' c k]; trivial.
    + destruct l; trivial.
    + destruct (blocked o s); trivial.
      destruct (effect l o s) as [[[w n] pd] st] eqn:E. simpl.
      rewrite adds_tr_snoc, count_tr_snoc.
      destruct o; simpl in E; injection E as <- _ _ _; simpl; lia.
    + destruct (threads s l'); trivial. simpl.
      rewrite adds_tr_snoc, count_tr_snoc. simpl. lia.
  - unfold deliver. destruct (status s); trivial. destruct (notified s); trivial.
Qed.

(** The counter of the wait group is what was added minus the calls of
    [wg.Done]. *)
Lemma wg_value (W : World) (p0 : Prog unit) (sched : list Move) :
  wg (run W sched (init p0)) =
  (Z.of_nat (adds_tr (trace (run W sched (init p0))))
   - Z.of_nat (count_tr is_wg_Done (trace (run W sched (init p0)))))%Z.
Proof.
  induction sched as [|m sched IH] using rev_ind; [reflexivity|].
  rewrite run_snoc. now apply move_wg.
Qed.

(** Every entry of the trace of a run was added by one move of a shorter
    run. *)
Lemma prefix_step (W : World) (s0 : State) (sched : list Move)
    (pre : Trace) (e : Entry) (post : Trace) :
  trace s0 = [] ->
  trace (run W sched s0) = pre ++ e :: post ->
  exists sched1 m, trace (run W sched1 s0) = pre
                   /\ trace (move W m (run W sched1 s0)) = pre ++ [e].
Proof.
  intro H0. revert post. induction sched as [|m sched IH] using rev_ind; intros post H.
  - simpl in H. rewrite H0 in H. now destruct pre.
  - rewrite run_snoc in H.
    destruct (move_trace W m (run W sched s0)) as [E | [e' E]].
    + rewrite E in H. eauto.
    + rewrite E in H. destruct post as [|x post'] using rev_ind.
      * apply app_inj_tail in H as [H1 H2]. subst e'. exists sched, m. now rewrite E, H1.
      * clear IHpost'. change (pre ++ e :: post' ++ [x]) with (pre ++ (e :: post') ++ [x]) in H.
        rewrite app_assoc in H. apply app_inj_tail in H as [H _]. eauto.
Qed.

Lemma move_finished (W : World) (m : Move) (s : State) :
  (status s = Finished -> exists a, threads s LMain = Some (Ret a)) ->
  status (move W m s) = Finished -> exists a, threads (move W m s) LMain = Some (Ret a).
Proof.
  intro IH. destruct m as [l|]; simpl.
  - unfold step. destruct (status s) eqn:Hs; try (intro H; apply IH; congruence).
    destruct (threads s l) as [p|] eqn:Hl; [|congruence].
    destruct p as [a | c | o k | l' c k].
    + destruct l; simpl; try congruence. intros _. eauto.
    + simpl. discriminate.
    + destruct (blocked o s); [congruence|].
      destruct (effect l o s) as [[[w n] pd] st] eqn:E. simpl. intros ->.
      destruct o; simpl in E; try (injection E as _ _ _ E; congruence).
      injection E as _ _ _ E. destruct (wg s - 1 <? 0)%Z; congruence.
    + destruct (threads s l'); simpl; congruence.
  - unfold deliver. destruct (status s) eqn:Hs; try (intro H; apply IH; congruence).
    destruct (notified s); simpl; congruence.
Qed.

(** The process has ended with [main] returning only if [main] has returned. *)
Lemma finished_ret (W : World) (p0 : Prog unit) (sched : list Move) :
  status (run W sched (init p0)) = Finished ->
  exists a, threads (run W sched (init p0)) LMain = Some (Ret a).
Proof.
  induction sched as [|m sched IH] using rev_ind; [discriminate|].
  rewrite run_snoc. now apply move_finished.
Qed.

Lemma sum_to_plus (n : nat) (f g : nat -> nat) :
  sum_to n (fun i => f i + g i) = sum_to n f + sum_to n g.
Proof. induction n as [|n IH]; simpl; [reflexivity|]. rewrite IH. lia. Qed.

Lemma sum_to_ext (n : nat) (f g : nat -> nat) :
  (forall i, i < n -> f i = g i) -> sum_to n f = sum_to n g.
Proof.
  induction n as [|n IH]; intro H; simpl; [reflexivity|].
  rewrite IH by (intros; apply H; lia). now rewrite H by lia.
Qed.

Lemma sum_to_zero (n : nat) : sum_to n (fun _ => 0) = 0.
Proof. induction n as [|n IH]; simpl; lia. Qed.

Lemma sum_to_one (n j : nat) :
  sum_to n (fun i => if Nat.eqb j i then 1 else 0) = if j <? n then 1 else 0.
Proof.
  induction n as [|n IH]; simpl; [reflexivity|]. rewrite IH.
  destruct (Nat.eqb_spec j n) as [-> | N].
  - rewrite Nat.ltb_irrefl. destruct (Nat.ltb_spec n (S n)); lia.
  - destruct (Nat.ltb_spec j n), (Nat.ltb_spec j (S n)); lia.
Qed.

Lemma sum_to_le (n : nat) (f : nat -> nat) :
  (forall i, i < n -> f i <= 1) -> sum_to n f <= n.
Proof.
  induction n as [|n IH]; intro H; simpl; [lia|].
  specialize (IH (fun i Hi => H i (Nat.lt_lt_succ_r _ _ Hi))). specialize (H n). lia.
Qed.

Lemma sum_to_full (n : nat) (f : nat -> nat) :
  (forall i, i < n -> f i <= 1) -> n <= sum_to n f -> forall i, i < n -> f i = 1.
Proof.
  induction n as [|n IH]; intros H Hs i Hi; [lia|]. simpl in Hs.
  pose proof (sum_to_le n f (fun i Hi => H i (Nat.lt_lt_succ_r _ _ Hi))) as Hle.
  pose proof (H n (Nat.lt_succ_diag_r n)) as Hn.
  destruct (Nat.eq_dec i n) as [-> | N]; [lia|].
  apply IH; try lia. intros j Hj. apply H. lia.
Qed.

Lemma sum_to_const (n : nat) (f : nat -> nat) :
  (forall i, i < n -> f i = 1) -> sum_to n f = n.
Proof.
  induction n as [|n IH]; intro H; simpl; [reflexivity|].
  rewrite IH by (intros; apply H; lia). rewrite H; lia.
Qed.

(** Counting the entries of a kind that only the jobs [0 .. n-1] make. *)
Lemma count_by_job (P : Act -> bool) (n : nat) (tr : Trace) :
  (forall l a, In (l, a) tr -> P a = true -> exists i, i < n /\ l = LJob i) ->
  count_tr P tr = sum_to n (fun i => count P (proj (LJob i) tr)).
Proof.
  induction tr as [|[l a] tr IH]; intro H.
  - unfold count_tr, count, proj. simpl. now rewrite sum_to_zero.
  - assert (H' : forall l a, In (l, a) tr -> P a = true -> exists i, i < n /\ l = LJob i)
      by (intros l0 a0 Hin; apply H; now right).
    specialize (IH H'). unfold count_tr, count in *. simpl.
    rewrite (sum_to_ext n _ (fun i => (if Label_eqb l (LJob i) && P a then 1 else 0)
                                      + List.length (filter P (proj (LJob i) tr)))).
    2:{ intros i _. unfold proj. simpl. destruct (Label_eqb l (LJob i)); simpl; [|reflexivity].
        destruct (P a); reflexivity. }
    rewrite sum_to_plus, <- IH. destruct (P a) eqn:Pa; simpl.
    + destruct (H l a (or_introl eq_refl) Pa) as [j [Hj ->]].
      rewrite (sum_to_ext n _ (fun i => if Nat.eqb j i then 1 else 0)).
      2:{ intros i _. simpl. now rewrite andb_true_r. }
      rewrite sum_to_one. destruct (Nat.ltb_spec j n); [reflexivity | lia].
    + rewrite (sum_to_ext n _ (fun _ => 0)).
      2:{ intros i _. now rewrite andb_false_r. }
      now rewrite sum_to_zero.
Qed.

Lemma count_none (P Q : Act -> bool) (l : list Act) :
  forallb Q l = true -> (forall a, Q a = true -> P a = false) -> count P l = 0.
Proof. intros H HQ. unfold count. now rewrite (filter_none P Q l H HQ). Qed.

Lemma count_pos (P : Act -> bool) (l : list Act) :
  0 < count P l -> exists a, In a l /\ P a = true.
Proof.
  unfold count. induction l as [|a l IH]; simpl; [lia|].
  destruct (P a) eqn:Pa.
  - intros _. exists a. now split; [left|].
  - intro H. destruct (IH H) as [x [Hx Px]]. exists x. now split; [right|].
Qed.

(** The responses in a path are responses of their calls. *)
Lemma path_call_enc {A : Type} (p q : Prog A) (acts : list Act) (o : Op) (r : Rsp) :
  path p acts q -> In (ACall o r) acts -> exists x, r = enc o x.
Proof.
  revert p. induction acts as [|a acts IH]; intros p H Hin; [contradiction|].
  simpl in H. destruct p as [x | c | o' k | l c k]; try contradiction.
  - destruct H as [x [E H]]. destruct Hin as [E0 | Hin].
    + subst a. injection E0 as E1 E2. subst o'. eauto.
    + eauto.
  - destruct H as [E H]. destruct Hin as [E0 | Hin]; [congruence | eauto].
Qed.

(** Two ways to cut a list at an entry that stands in it once. *)
Lemma cut_unique {A : Type} (x : A) (l1 r1 l2 r2 : list A) :
  l1 ++ x :: r1 = l2 ++ x :: r2 -> ~ In x l2 -> ~ In x r2 -> l1 = l2 /\ r1 = r2.
Proof.
  revert l2. induction l1 as [|a l1 IH]; intros l2 H N2 Nr; destruct l2 as [|b l2]; simpl in H.
  - injection H as ->. now split.
  - injection H as <- _. elim N2. now left.
  - injection H as -> <-. elim Nr. apply in_or_app. right. now left.
  - injection H as <- H. destruct (IH l2 H) as [-> ->]; trivial.
    + intro Hx. apply N2. now right.
    + now split.
Qed.

(** The shape of what [main] has done when it has opened a list file. *)
Lemma main_file (L : Lib) (fl : Flags) (acts : list Act) (q : Prog unit)
    (f : string) (urls : list string) :
  path (main L fl) acts q ->
  In (ACall (os_Open f) (RLines (inl urls))) acts ->
  (forallb setup_act acts = true /\ is_ret q = false)
  \/ exists a0 out b,
       acts = a0 ++ AGo LSignals (HandleSIGTERM (cleanup out)) :: b
       /\ forallb setup_act a0 = true
       /\ ((build_shape b /\ is_ret q = false)
           \/ exists b1 b2 rest,
                b = b1 ++ b2
                /\ build_complete L (tarFile fl) b1
                /\ b2 ++ rest = file_acts L out urls
                /\ (is_ret q = true -> rest = [])).
Proof.
  intros H Hin.
  apply main_paths in H as [H | [a0 [inputFile [out [b [-> [[Ha0 Hopen] H]]]]]]]; [now left|].
  right. exists a0, out, b. split; [reflexivity|]. split; [exact Ha0|].
  destruct H as [H | [b1 [b2 [-> [Hb1 H]]]]]; [now left|].
  right. exists b1, b2.
  assert (Hf : inputFile = Some urls).
  { apply in_app_or in Hin as [Hin | [E | Hin]]; [eauto | discriminate |].
    exfalso. apply in_app_or in Hin as [Hin | Hin].
    - apply build_complete_shape, build_shape_acts in Hb1.
      apply (forallb_In _ _ _ Hb1) in Hin; simpl in Hin; discriminate Hin.
    - destruct inputFile as [urls'|].
      + destruct H as [rest [H _]]. apply (prefix_In _ _ _ _ H) in Hin.
        apply (forallb_In _ _ _ (file_acts_kind L out urls')) in Hin; simpl in Hin; discriminate Hin.
      + apply (forallb_In _ _ _ H) in Hin; simpl in Hin; discriminate Hin. }
  subst inputFile. destruct H as [rest [H1 H2]]. exists rest.
  split; [reflexivity|]. split; [exact Hb1|]. now split.
Qed.

Lemma main_spawns (L : Lib) (fl : Flags) (acts : list Act) (q : Prog unit)
    (f : string) (urls : list string) (i : nat) (c : Prog unit) :
  path (main L fl) acts q ->
  In (ACall (os_Open f) (RLines (inl urls))) acts ->
  In (AGo (LJob i) c) acts ->
  exists out u, nth_error urls i = Some u /\ c = job L out u.
Proof.
  intros H Hopen Hin.
  apply (main_file _ _ _ _ _ _ H) in Hopen
    as [[Hs _] | [a0 [out [b [-> [Ha0 Hb]]]]]].
  { apply (forallb_In _ _ _ Hs) in Hin; simpl in Hin; discriminate Hin. }
  apply in_app_or in Hin as [Hin | [E | Hin]].
  { apply (forallb_In _ _ _ Ha0) in Hin; simpl in Hin; discriminate Hin. }
  { discriminate. }
  destruct Hb as [[Hb _] | [b1 [b2 [rest [-> [Hb1 [Hb2 _]]]]]]].
  { apply build_shape_acts in Hb. apply (forallb_In _ _ _ Hb) in Hin; simpl in Hin; discriminate Hin. }
  apply in_app_or in Hin as [Hin | Hin].
  { apply build_complete_shape, build_shape_acts in Hb1.
    apply (forallb_In _ _ _ Hb1) in Hin; simpl in Hin; discriminate Hin. }
  apply (prefix_In _ _ _ _ Hb2) in Hin.
  apply file_acts_In in Hin as [i' [u [E [Hn ->]]]]. injection E as <-. eauto.
Qed.

(** A job that has made an entry runs the body of the goroutine for the
    line of its index. *)
Lemma job_origin (W : World) (fl : Flags) (sched : list Move) (f : string)
    (urls : list string) (i : nat) (a : Act) :
  In (LMain, ACall (os_Open f) (RLines (inl urls))) (trace (process W fl sched)) ->
  In (LJob i, a) (trace (process W fl sched)) ->
  exists out u p,
    nth_error urls i = Some u
    /\ threads (process W fl sched) (LJob i) = Some p
    /\ path (job (lib W) out u) (proj (LJob i) (trace (process W fl sched))) p.
Proof.
  intros Hopen Hin.
  destruct (acted_alive _ _ _ _ _ Hin) as [p Hp].
  destruct (thread_runs _ _ _ _ _ Hp) as [c [Hpath [_ Hgo]]].
  destruct (main_thread W fl sched) as [q [Hq _]].
  apply proj_In in Hopen, Hgo.
  destruct (main_spawns _ _ _ _ _ _ _ _ Hq Hopen Hgo) as [out [u [Hu ->]]].
  now exists out, u, p.
Qed.

Lemma job_done_counts (L : Lib) (out u : string) (acts : list Act) :
  job_done L out u acts ->
  count is_wg_Done acts = 1 /\ count is_create acts = 1
  /\ count is_start acts = 1 /\ count is_remove acts = 1.
Proof.
  intros [url [id [rc [cp [r4 [_ [-> Hcp]]]]]]].
  repeat split; unfold count; simpl; rewrite filter_app; simpl;
    rewrite (filter_none _ is_io cp Hcp); trivial;
    intros a Ha; destruct a as [[] ? | ? ?]; trivial; discriminate.
Qed.

(** A job calls [wg.Done] once at most, and then it is done. *)
Lemma job_done_once (W : World) (fl : Flags) (sched : list Move) (f : string)
    (urls : list string) (i : nat) :
  In (LMain, ACall (os_Open f) (RLines (inl urls))) (trace (process W fl sched)) ->
  0 < count is_wg_Done (proj (LJob i) (trace (process W fl sched))) ->
  exists out u,
    nth_error urls i = Some u
    /\ job_done (lib W) out u (proj (LJob i) (trace (process W fl sched)))
    /\ threads (process W fl sched) (LJob i) = Some (Ret tt).
Proof.
  intros Hopen Hc. apply count_pos in Hc as [a [Ha Hd]].
  assert (Hin := Ha). apply proj_In in Hin.
  destruct (job_origin _ _ _ _ _ _ _ Hopen Hin) as [out [u [p [Hu [Hp Hpath]]]]].
  destruct a as [o r | ? ?]; [|discriminate]. destruct o; try discriminate.
  destruct (path_call_enc _ _ _ _ _ Hpath Ha) as [[] ->].
  apply job_paths in Hpath as [_ Hpath]. destruct (Hpath Ha) as [Hj ->].
  now exists out, u.
Qed.

Lemma adds_zero (Q : Act -> bool) (l : list Act) :
  forallb Q l = true -> (forall a, Q a = true -> added a = 0) -> adds_of l = 0.
Proof.
  intros H HQ. unfold adds_of. induction l as [|a l IH]; simpl in *; [reflexivity|].
  apply andb_true_iff in H as [Ha Hl]. rewrite (HQ a Ha). auto.
Qed.

Lemma adds_main (tr : Trace) :
  (forall l a, In (l, a) tr -> added a <> 0 -> l = LMain) ->
  adds_tr tr = adds_of (proj LMain tr).
Proof.
  unfold adds_tr, adds_of, proj. induction tr as [|[l a] tr IH]; intro H; [reflexivity|].
  simpl. rewrite IH by (intros l0 a0 Hin; apply H; now right).
  destruct (Label_eqb l LMain) eqn:E; simpl; [reflexivity|].
  destruct (Nat.eq_dec (added a) 0) as [-> | N]; [reflexivity|].
  rewrite (H l a (or_introl eq_refl) N) in E. discriminate.
Qed.

(** What the goroutines other than [main] and the jobs do. *)
Lemma signal_entry (W : World) (fl : Flags) (sched : list Move) (l : Label) (a : Act) :
  In (l, a) (trace (process W fl sched)) -> l = LSignals \/ l = LHandler ->
  exists out r, In a (signals_acts (cleanup out)) \/ In a (handler_acts out r).
Proof.
  intros Hin Hl. destruct (acted_alive _ _ _ _ _ Hin) as [p Hp].
  destruct (thread_runs _ _ _ _ _ Hp) as [c [Hpath Hc]]. apply proj_In in Hin.
  destruct Hl as [-> | ->]; destruct Hc as [[out ->] _].
  - apply HandleSIGTERM_paths in Hpath as [rest Hpath].
    exists out, None. left. now apply (prefix_In _ _ _ _ Hpath).
  - apply signal_goroutine_paths in Hpath as [r [rest [Hpath _]]].
    exists out, r. right. now apply (prefix_In _ _ _ _ Hpath).
Qed.

Lemma signal_entry_kind (out : string) (r : option error) (a : Act) :
  In a (signals_acts (cleanup out)) \/ In a (handler_acts out r) ->
  job_only a = false /\ added a = 0 /\ is_build_call a = false.
Proof.
  unfold signals_acts, handler_acts. intros [H | H]; [|destruct r]; simpl in H;
    repeat (destruct H as [<- | H]; [now repeat split|]); contradiction.
Qed.

Lemma spawn_acts_go (L : Lib) (out : string) (urls : list string) (i : nat) :
  forallb is_go_job (spawn_acts L out urls i) = true.
Proof. revert i. induction urls as [|u urls IH]; intro i; simpl; auto. Qed.

Lemma only_main_adds (W : World) (fl : Flags) (sched : list Move) (l : Label) (a : Act) :
  In (l, a) (trace (process W fl sched)) -> added a <> 0 -> l = LMain.
Proof.
  intros Hin Ha. destruct l; trivial; exfalso.
  - destruct (signal_entry _ _ _ _ _ Hin (or_introl eq_refl)) as [out [r H]].
    apply signal_entry_kind in H as [_ [H _]]. contradiction.
  - destruct (signal_entry _ _ _ _ _ Hin (or_intror eq_refl)) as [out [r H]].
    apply signal_entry_kind in H as [_ [H _]]. contradiction.
  - destruct (acted_alive _ _ _ _ _ Hin) as [p Hp].
    destruct (thread_runs _ _ _ _ _ Hp) as [c [Hpath [[out [u ->]] _]]].
    apply proj_In in Hin. apply job_paths in Hpath as [Hpath _].
    apply (forallb_In _ _ _ Hpath) in Hin.
    destruct a as [[] ? | ? ?]; simpl in Ha; try contradiction; discriminate Hin.
Qed.

(** When [main] has returned from the branch of the list file, it has done
    all of it. *)
Lemma finished_main (W : World) (fl : Flags) (sched : list Move) (f : string)
    (urls : list string) :
  status (process W fl sched) = Finished ->
  In (LMain, ACall (os_Open f) (RLines (inl urls))) (trace (process W fl sched)) ->
  exists a0 out b1,
    proj LMain (trace (process W fl sched))
      = a0 ++ AGo LSignals (HandleSIGTERM (cleanup out)) :: b1 ++ file_acts (lib W) out urls
    /\ forallb setup_act a0 = true
    /\ build_complete (lib W) (tarFile fl) b1.
Proof.
  intros Hfin Hopen. destruct (finished_ret _ _ _ Hfin) as [x Hx].
  destruct (main_thread W fl sched) as [q [Hq Hq']]. unfold process in Hq'.
  rewrite Hx in Hq'. injection Hq' as Hq'. subst q. apply proj_In in Hopen.
  destruct (main_file _ _ _ _ _ _ Hq Hopen) as [[_ H] | [a0 [out [b [E [Ha0 H]]]]]];
    [discriminate H|].
  destruct H as [[_ H] | [b1 [b2 [rest [Eb [Hb1 [Hb2 Hr]]]]]]]; [discriminate H|].
  rewrite (Hr eq_refl), app_nil_r in Hb2. subst b2 b. now exists a0, out, b1.
Qed.

Lemma main_entry_kind (L : Lib) (tar out : string) (urls : list string)
    (a0 b1 : list Act) (a : Act) :
  forallb setup_act a0 = true -> build_complete L tar b1 ->
  In a (a0 ++ AGo LSignals (HandleSIGTERM (cleanup out)) :: b1 ++ file_acts L out urls) ->
  job_only a = false.
Proof.
  intros Ha0 Hb1 Hin. apply build_complete_shape, build_shape_acts in Hb1.
  apply in_app_or in Hin as [Hin | [<- | Hin]]; [| reflexivity |].
  - apply (forallb_In _ _ _ Ha0) in Hin. destruct a as [[] ? | ? ?]; trivial; discriminate Hin.
  - apply in_app_or in Hin as [Hin | Hin].
    + apply (forallb_In _ _ _ Hb1) in Hin.
      destruct a as [[] ? | ? ?]; trivial; discriminate Hin.
    + apply (forallb_In _ _ _ (file_acts_kind L out urls)) in Hin.
      destruct a as [[] ? | ? ?]; trivial; discriminate Hin.
Qed.

(** In a finished run over a list file, container calls and [wg.Done] are
    made by the jobs of its lines, and by nobody else. *)
Lemma only_jobs (W : World) (fl : Flags) (sched : list Move) (f : string)
    (urls : list string) (l : Label) (a : Act) :
  status (process W fl sched) = Finished ->
  In (LMain, ACall (os_Open f) (RLines (inl urls))) (trace (process W fl sched)) ->
  In (l, a) (trace (process W fl sched)) -> job_only a = true ->
  exists i, i < List.length urls /\ l = LJob i.
Proof.
  intros Hfin Hopen Hin Ha. destruct l.
  - exfalso. destruct (finished_main _ _ _ _ _ Hfin Hopen) as [a0 [out [b1 [E [Ha0 Hb1]]]]].
    apply proj_In in Hin. rewrite E in Hin.
    apply (main_entry_kind _ _ _ _ _ _ _ Ha0 Hb1) in Hin. congruence.
  - exfalso. destruct (signal_entry _ _ _ _ _ Hin (or_introl eq_refl)) as [out [r H]].
    apply signal_entry_kind in H as [H _]. congruence.
  - exfalso. destruct (signal_entry _ _ _ _ _ Hin (or_intror eq_refl)) as [out [r H]].
    apply signal_entry_kind in H as [H _]. congruence.
  - destruct (job_origin _ _ _ _ _ _ _ Hopen Hin) as [out [u [p [Hu _]]]].
    exists i. split; [|reflexivity]. apply nth_error_Some. congruence.
Qed.

(** When [main] passes [wg.Wait], every job has called [wg.Done]. *)
Lemma all_done (W : World) (fl : Flags) (sched : list Move) (f : string)
    (urls : list string) :
  status (process W fl sched) = Finished ->
  In (LMain, ACall (os_Open f) (RLines (inl urls))) (trace (process W fl sched)) ->
  forall i, i < List.length urls ->
    count is_wg_Done (proj (LJob i) (trace (process W fl sched))) = 1.
Proof.
  intros Hfin Hopen.
  destruct (finished_main _ _ _ _ _ Hfin Hopen) as [a0 [out [b1 [E [Ha0 Hb1]]]]].
  set (tr := trace (process W fl sched)) in *.
  (* the entry of [wg.Wait], and the run just before it *)
  assert (Hw : In (LMain, ACall wg_Wait RUnit) tr).
  { apply proj_In. rewrite E. apply in_or_app. right. right. apply in_or_app. right.
    unfold file_acts. right. apply in_or_app. right. now left. }
  apply in_split in Hw as [pre [post Htr]].
  assert (Hstep := Htr). unfold tr, process in Hstep.
  apply prefix_step in Hstep as [sched1 [m [Hpre Hm]]]; [|reflexivity].
  rewrite <- Hpre in Hm. destruct (move_entry _ _ _ _ Hm) as [_ [_ Hwg]].
  specialize (Hwg RUnit eq_refl). rewrite wg_value, Hpre in Hwg.
  (* what [main] had done then *)
  assert (Hmain : proj LMain pre
                  = a0 ++ AGo LSignals (HandleSIGTERM (cleanup out))
                       :: b1 ++ ACall (wg_Add (List.length urls)) RUnit
                       :: spawn_acts (lib W) out urls 0).
  { rewrite Htr, proj_app in E. simpl in E. fold (proj LMain post) in E.
    change (proj LMain pre ++ ACall wg_Wait RUnit :: proj LMain post
            = a0 ++ AGo LSignals (HandleSIGTERM (cleanup out))
                 :: b1 ++ file_acts (lib W) out urls) in E.
    unfold file_acts in E.
    replace (a0 ++ AGo LSignals (HandleSIGTERM (cleanup out))
               :: b1 ++ ACall (wg_Add (List.length urls)) RUnit
               :: spawn_acts (lib W) out urls 0 ++ [ACall wg_Wait RUnit; ACall file_Close RUnit])
      with ((a0 ++ AGo LSignals (HandleSIGTERM (cleanup out))
               :: b1 ++ ACall (wg_Add (List.length urls)) RUnit
               :: spawn_acts (lib W) out urls 0) ++ ACall wg_Wait RUnit :: [ACall file_Close RUnit])
      in E by (rewrite <- !app_assoc; simpl; rewrite <- !app_assoc; reflexivity).
    apply cut_unique in E as [E _]; trivial.
    - intro Hin. apply build_complete_shape, build_shape_acts in Hb1.
      apply in_app_or in Hin as [Hin | [Hin | Hin]]; [| discriminate Hin |].
      + apply (forallb_In _ _ _ Ha0) in Hin. discriminate Hin.
      + apply in_app_or in Hin as [Hin | [Hin | Hin]]; [| discriminate Hin |].
        * apply (forallb_In _ _ _ Hb1) in Hin. discriminate Hin.
        * apply (forallb_In _ _ _ (spawn_acts_go (lib W) out urls 0)) in Hin.
          discriminate Hin.
    - intros [Hin | []]. discriminate Hin. }
  assert (Hadds : adds_tr pre = List.length urls).
  { rewrite adds_main.
    - rewrite Hmain, adds_of_app.
      change (adds_of (?x :: ?l)) with (added x + adds_of l). rewrite adds_of_app.
      change (adds_of (?x :: ?l)) with (added x + adds_of l).
      apply build_complete_shape, build_shape_acts in Hb1.
      rewrite (adds_zero setup_act a0 Ha0), (adds_zero build_act b1 Hb1),
        (adds_zero is_go_job _ (spawn_acts_go (lib W) out urls 0)); [simpl; lia | ..];
        intros a Ha; destruct a as [[] ? | ? ?]; trivial; discriminate Ha.
    - intros l a Hin. apply (only_main_adds W fl sched). fold tr. rewrite Htr.
      apply in_or_app. now left. }
  assert (Hdone : List.length urls <= count_tr is_wg_Done tr).
  { rewrite Htr, count_tr_app. lia. }
  rewrite (count_by_job is_wg_Done (List.length urls)) in Hdone.
  2:{ intros l a Hin Ha. apply (only_jobs W fl sched f urls l a Hfin Hopen Hin).
      unfold job_only. now rewrite Ha, orb_true_r. }
  apply sum_to_full; [|exact Hdone].
  intros i Hi.
  destruct (Nat.eq_dec (count is_wg_Done (proj (LJob i) tr)) 0) as [-> | N]; [lia|].
  destruct (job_done_once W fl sched f urls i Hopen) as [out' [u [_ [Hj _]]]]; [fold tr; lia|].
  apply job_done_counts in Hj as [Hc _]. unfold tr. lia.
Qed.

(** C7.  With a list file of N lines, [main] starts one goroutine per line and
    no other job, the [i]-th running the create, start, logs, remove sequence
    for line [i]; and when [main] has returned, every one of the N jobs has
    made exactly that sequence, in that order, and has come to its end, so
    that the run holds N create, N start and N remove calls.  (A run that a
    fatal error or the signal handler ends does not end with [Finished].) *)
Theorem C7_fan_out (W : World) (fl : Flags) (sched : list Move) (urls : list string) :
  In (LMain, ACall (os_Open (inputFilePath fl)) (RLines (inl urls)))
     (trace (process W fl sched)) ->
  (forall i c, In (LMain, AGo (LJob i) c) (trace (process W fl sched)) ->
     exists out u, nth_error urls i = Some u /\ c = job (lib W) out u)
  /\ (status (process W fl sched) = Finished ->
      (forall i u, nth_error urls i = Some u ->
         exists out,
           job_done (lib W) out u (proj (LJob i) (trace (process W fl sched)))
           /\ threads (process W fl sched) (LJob i) = Some (Ret tt))
      /\ count_tr is_create (trace (process W fl sched)) = List.length urls
      /\ count_tr is_start (trace (process W fl sched)) = List.length urls
      /\ count_tr is_remove (trace (process W fl sched)) = List.length urls).
Proof.
  intro Hopen. split.
  - intros i c Hin. destruct (main_thread W fl sched) as [q [Hq _]].
    apply proj_In in Hin. apply proj_In in Hopen.
    apply (main_spawns _ _ _ _ _ _ _ _ Hq Hopen Hin).
  - intro Hfin. pose proof (all_done W fl sched _ urls Hfin Hopen) as Hall.
    assert (Hjob : forall i, i < List.length urls ->
              exists out u, nth_error urls i = Some u
                /\ job_done (lib W) out u (proj (LJob i) (trace (process W fl sched)))
                /\ threads (process W fl sched) (LJob i) = Some (Ret tt)).
    { intros i Hi. apply (job_done_once W fl sched _ urls i Hopen). rewrite (Hall i Hi). lia. }
    split; [|repeat split].
    + intros i u Hu. destruct (Hjob i) as [out [u' [Hu' [Hj Ht]]]].
      { apply nth_error_Some. congruence. }
      exists out. rewrite Hu in Hu'. injection Hu' as <-. now split.
    + rewrite (count_by_job is_create (List.length urls)).
      * apply sum_to_const. intros i Hi. destruct (Hjob i Hi) as [out [u [_ [Hj _]]]].
        now apply job_done_counts in Hj.
      * intros l a Hin Ha. apply (only_jobs W fl sched _ urls l a Hfin Hopen Hin).
        destruct a as [[] ? | ? ?]; trivial; discriminate Ha.
    + rewrite (count_by_job is_start (List.length urls)).
      * apply sum_to_const. intros i Hi. destruct (Hjob i Hi) as [out [u [_ [Hj _]]]].
        now apply job_done_counts in Hj.
      * intros l a Hin Ha. apply (only_jobs W fl sched _ urls l a Hfin Hopen Hin).
        destruct a as [[] ? | ? ?]; trivial; discriminate Ha.
    + rewrite (count_by_job is_remove (List.length urls)).
      * apply sum_to_const. intros i Hi. destruct (Hjob i Hi) as [out [u [_ [Hj _]]]].
        now apply job_done_counts in Hj.
      * intros l a Hin Ha. apply (only_jobs W fl sched _ urls l a Hfin Hopen Hin).
        destruct a as [[] ? | ? ?]; trivial; discriminate Ha.
Qed.

(** Two lines in the list file: two jobs, and when [main] has returned the
    trace holds two create calls and the second job is at its end. *)
Lemma C7_fan_out_witness :
  count_tr is_create (trace (process (mock_world ok_script) list_flags all_sched)) = 2
  /\ threads (process (mock_world ok_script) list_flags all_sched) (LJob 1) = Some (Ret tt).
Proof.
  destruct (C7_fan_out (mock_world ok_script) list_flags all_sched
              ["http://a.com/.git"; "http://b.org/.git"]) as [_ H]; [find_entry|].
  destruct H as [Hj [Hc _]]; [vm_compute; reflexivity|].
  split; [exact Hc|].
  destruct (Hj 1 "http://b.org/.git" eq_refl) as [out [_ Ht]]. exact Ht.
Defined.

(* ================================================================= *)

(** ** Part 14: one job alone (C1, C8, C9) and the signal handler (C5) *)

Lemma exec_bind {A B : Type} (W : World) (l : Label) (m : Prog A) (f : A -> Prog B)
    (tr : Trace) :
  exec W l (bind m f) tr =
  match fst (exec W l m tr) with
  | Returned a => exec W l (f a) (snd (exec W l m tr))
  | Exited c => (Exited c, snd (exec W l m tr))
  end.
Proof.
  revert B f tr. induction m as [A a | A c | A o k IH | A l' c _ k IH]; intros B f tr; simpl;
    trivial.
Qed.

Lemma len_nonneg (p : string) : (len p <? 0)%Z = false.
Proof. unfold len. apply Z.ltb_ge. lia. Qed.

(** Copying a log through [GitDumperLog.Write] never fails at a write: it
    reads the body to its end and returns the error of the last read. *)
Lemma exec_copy_log (W : World) (l : Label) (src : Source) (g : GitDumperLog)
    (rs : list string) (fin : string) (e : option error) (w : Z) (tr : Trace) :
  exists evs w',
    exec W l (copy_reads GitDumperLog_Write src rs fin e g w) tr
      = (Returned (g, (w', e)), tr ++ evs)
    /\ forallb (mine l) evs = true.
Proof.
  revert w tr. induction rs as [|buf rs IH]; intros w tr.
  - simpl. unfold copy_write. destruct (0 <? len fin)%Z.
    + simpl. rewrite len_nonneg, Z.ltb_irrefl. simpl. rewrite Z.eqb_refl. simpl.
      eexists. eexists. split.
      * rewrite <- app_assoc. reflexivity.
      * unfold mine. simpl. now rewrite Label_eqb_refl.
    + simpl. eexists. eexists. split; [reflexivity|].
      unfold mine. simpl. now rewrite Label_eqb_refl.
  - simpl. unfold copy_write. destruct (0 <? len buf)%Z.
    + simpl. rewrite len_nonneg, Z.ltb_irrefl. simpl. rewrite Z.eqb_refl.
      match goal with |- context [exec W l (copy_reads _ _ _ _ _ _ ?w1) ?t1] =>
        destruct (IH w1 t1) as [evs [w' [E H]]] end.
      rewrite E. eexists. eexists. split.
      * rewrite <- !app_assoc. reflexivity.
      * simpl. unfold mine at 1 2. simpl. now rewrite Label_eqb_refl.
    + simpl.
      match goal with |- context [exec W l (copy_reads _ _ _ _ _ _ ?w1) ?t1] =>
        destruct (IH w1 t1) as [evs [w' [E H]]] end.
      rewrite E. eexists. eexists. split.
      * rewrite <- !app_assoc. reflexivity.
      * simpl. unfold mine at 1. simpl. now rewrite Label_eqb_refl.
Qed.

Opaque io_Copy.

(** What [RunContainerThenRemove] does, case by case. *)
Lemma exec_Run (W : World) (l : Label) (id : string) (tr : Trace) :
  let r := exec W l (RunContainerThenRemove id) tr in
  match respond W tr (client_ContainerStart id) with
  | Some e =>
      r = (Exited 1,
           tr ++ [(l, ACall (client_ContainerStart id) (RErr (Some e)));
                  (l, ACall (log_Print [(White, "(ERROR) ");
                            (Red, LogFatal_output ["Unable to start container"; id; e])]) RUnit)])
  | None =>
      let tr1 := tr ++ [(l, ACall (client_ContainerStart id) (RErr None))] in
      match respond W tr1 (client_ContainerLogs id logsOptions) with
      | inr e =>
          r = (Exited 1,
               tr1 ++ [(l, ACall (client_ContainerLogs id logsOptions) (RBody (inr e)));
                       (l, ACall (log_Print [(White, "(ERROR) ");
                                 (Red, LogFatal_output ["Unable to follow container log output"; e])]) RUnit)])
      | inl rc =>
          exists evs,
            forallb (mine l) evs = true
            /\ r = (Returned tt,
                    (tr1 ++ [(l, ACall (client_ContainerLogs id logsOptions) (RBody (inl rc)))])
                    ++ evs
                    ++ [(l, ACall (client_ContainerRemove id removeOptions)
                              (RErr (respond W
                                 ((tr1 ++ [(l, ACall (client_ContainerLogs id logsOptions)
                                                 (RBody (inl rc)))]) ++ evs)
                                 (client_ContainerRemove id removeOptions))))])
      end
  end.
Proof.
  unfold RunContainerThenRemove. cbn [bind]. cbv zeta. rewrite exec_bind_Do.
  destruct (respond W tr (client_ContainerStart id)) as [e|].
  - simpl. now rewrite <- app_assoc.
  - rewrite exec_bind_Do.
    destruct (respond W _ (client_ContainerLogs id logsOptions)) as [rc|e].
    + rewrite exec_bind. Transparent io_Copy. unfold io_Copy.
      match goal with |- context [exec W l (copy_reads _ _ ?rs ?fin ?e ?g ?w) ?t1] =>
        destruct (exec_copy_log W l (LogsBody id) g rs fin e w t1) as [evs [w' [E H]]] end.
      rewrite E. simpl. exists evs. split; [exact H|]. now rewrite <- app_assoc.
    + simpl. now rewrite <- app_assoc.
Qed.

Lemma added_by_app {A : Type} (tr evs : Trace) (o : Outcome A) :
  added_by tr (o, tr ++ evs) = evs.
Proof.
  unfold added_by. simpl. rewrite skipn_app, Nat.sub_diag, skipn_all. reflexivity.
Qed.

(** C1, as the code has it.  [RunContainerThenRemove] makes the remove call,
    as its last call, whenever the start call and the opening of the log
    stream succeed: whatever the copy of the stream meets (a read error is
    not looked at), the function then returns.  When the start call or the
    opening of the log stream fails, the process ends with status 1 and no
    remove call is made. *)
Theorem C1_remove_after_stream (W : World) (l : Label) (id : string) (tr : Trace) :
  let r := exec W l (RunContainerThenRemove id) tr in
  let tr1 := tr ++ [(l, ACall (client_ContainerStart id) (RErr None))] in
  (forall rc,
     respond W tr (client_ContainerStart id) = None ->
     respond W tr1 (client_ContainerLogs id logsOptions) = inl rc ->
     fst r = Returned tt
     /\ exists evs r4,
          forallb (mine l) evs = true
          /\ added_by tr r =
               [(l, ACall (client_ContainerStart id) (RErr None));
                (l, ACall (client_ContainerLogs id logsOptions) (RBody (inl rc)))]
               ++ evs ++ [(l, ACall (client_ContainerRemove id removeOptions) (RErr r4))])
  /\ (forall e,
        respond W tr (client_ContainerStart id) = Some e
        \/ (respond W tr (client_ContainerStart id) = None
            /\ respond W tr1 (client_ContainerLogs id logsOptions) = inr e) ->
        fst r = Exited 1
        /\ existsb (fun en => is_remove (snd en)) (added_by tr r) = false).
Proof.
  intros r tr1. pose proof (exec_Run W l id tr) as H. cbv zeta in H. fold r in H. split.
  - intros rc Hs Ho. rewrite Hs in H. fold tr1 in H. rewrite Ho in H.
    destruct H as [evs [Hm ->]]. split; [reflexivity|].
    exists evs. eexists. split; [exact Hm|].
    unfold tr1. rewrite <- !app_assoc. rewrite added_by_app. reflexivity.
  - intros e [Hs | [Hs Ho]]; rewrite Hs in H.
    + rewrite H. now rewrite added_by_app.
    + fold tr1 in H. rewrite Ho in H. rewrite H. unfold tr1.
      rewrite <- app_assoc. now rewrite added_by_app.
Qed.

Lemma C1_remove_after_stream_witness :
  fst (exec (mock_world ok_script) LMain (RunContainerThenRemove "c1") []) = Returned tt
  /\ exists evs r4,
       forallb (mine LMain) evs = true
       /\ added_by [] (exec (mock_world ok_script) LMain (RunContainerThenRemove "c1") []) =
            [(LMain, ACall (client_ContainerStart "c1") (RErr None));
             (LMain, ACall (client_ContainerLogs "c1" logsOptions)
                       (RBody (inl (mkBody ["Fetching http://a.com/.git/HEAD [200]"; "done"]
                                      "" None))))]
            ++ evs ++ [(LMain, ACall (client_ContainerRemove "c1" removeOptions) (RErr r4))].
Proof.
  apply (proj1 (C1_remove_after_stream (mock_world ok_script) LMain "c1" [])); reflexivity.
Defined.

(** The claim C1 as it was stated fails: the log stream of the only job
    cannot be opened, the process ends with status 1, and the trace holds the
    create and start calls of the job but no remove call. *)
Lemma C1_counterexample :
  status (process (mock_world logs_fail_script) single_flags (rounds 30 [LMain]))
    = Ended LMain 1
  /\ existsb (fun en => is_logs_error (snd en))
       (trace (process (mock_world logs_fail_script) single_flags (rounds 30 [LMain]))) = true
  /\ existsb (fun en => is_create (snd en))
       (trace (process (mock_world logs_fail_script) single_flags (rounds 30 [LMain]))) = true
  /\ existsb (fun en => is_remove (snd en))
       (trace (process (mock_world logs_fail_script) single_flags (rounds 30 [LMain]))) = false.
Proof. vm_compute. repeat split. Qed.

Transparent io_Copy.






(** C9.  [CreateContainer] parses the target first.  When [url.Parse] gives
    an error, it reports it through [LogFatal] and the process ends with
    status 1: that report is all it does, and no create request is made.
    When the target parses, the first thing it does is the create request,
    and the parse error is not reported. *)
Theorem C9_parse_error (L : Lib) (out target : string) :
  (forall e, url_Parse L target = inr e ->
     CreateContainer L out target = LogFatal ["Unable to parse git URL "; e]
     /\ forall respond0 l tr,
          exec (mkWorld L respond0) l (CreateContainer L out target) tr =
          (Exited 1,
           tr ++ [(l, ACall (log_Print [(White, "(ERROR) ");
                             (Red, LogFatal_output ["Unable to parse git URL "; e])]) RUnit)]))
  /\ (forall url, url_Parse L target = inl url ->
        forall respond0 l tr,
          let r := exec (mkWorld L respond0) l (CreateContainer L out target) tr in
          let request := client_ContainerCreate (container_Config target (hostname_of url))
                           (container_HostConfig out) (hostname_of url) in
          (exists id, r = (Returned id, tr ++ [(l, ACall request (RStr (inl id)))]))
          \/ (exists e, r = (Exited 1,
                tr ++ [(l, ACall request (RStr (inr e)));
                       (l, ACall (log_Print [(White, "(ERROR) ");
                                 (Red, LogFatal_output ["Unable to create a container"; e])])
                             RUnit)]))).
Proof.
  split.
  - intros e H. unfold CreateContainer. rewrite H. split; reflexivity.
  - intros url H respond0 l tr. unfold CreateContainer. rewrite H. cbn [bind]. cbv zeta.
    rewrite exec_bind_Do. cbn [respond].
    destruct (respond0 tr _) as [id | e].
    + left. exists id. reflexivity.
    + right. exists e. simpl. now rewrite <- app_assoc.
Qed.

Lemma C9_parse_error_witness :
  CreateContainer mock_lib "/out" "http://a b/.git" =
    LogFatal ["Unable to parse git URL "; "invalid character in host name"]
  /\ forall respond0 l tr,
       exec (mkWorld mock_lib respond0) l (CreateContainer mock_lib "/out" "http://a b/.git") tr =
       (Exited 1,
        tr ++ [(l, ACall (log_Print [(White, "(ERROR) ");
                          (Red, LogFatal_output ["Unable to parse git URL ";
                                                 "invalid character in host name"])]) RUnit)]).
Proof.
  exact (proj1 (C9_parse_error mock_lib "/out" "http://a b/.git")
           "invalid character in host name" eq_refl).
Defined.




(** Only the signal handler cancels the context and deletes the output
    directory. *)
Lemma only_handler_cleans (W : World) (fl : Flags) (sched : list Move) (l : Label) (a : Act) :
  In (l, a) (trace (process W fl sched)) -> is_cleanup a = true -> l = LHandler.
Proof.
  intros Hin Ha. destruct l; trivial; exfalso.
  - destruct (main_thread W fl sched) as [q [Hq _]]. apply proj_In in Hin.
    destruct (main_entry _ _ _ _ _ Hq Hin) as [H | [[out H] | [H | [[H _] | [H | H]]]]];
      try (subst a; discriminate Ha);
      destruct a as [[] ? | ? ?]; try discriminate Ha; discriminate H.
  - destruct (acted_alive _ _ _ _ _ Hin) as [p Hp].
    destruct (thread_runs _ _ _ _ _ Hp) as [c [Hpath [[out ->] _]]].
    apply proj_In in Hin. apply HandleSIGTERM_paths in Hpath as [rest Hpath].
    apply (prefix_In _ _ _ _ Hpath) in Hin.
    destruct Hin as [E | [E | []]]; subst a; discriminate Ha.
  - destruct (acted_alive _ _ _ _ _ Hin) as [p Hp].
    destruct (thread_runs _ _ _ _ _ Hp) as [c [Hpath [[out [u ->]] _]]].
    apply proj_In in Hin. apply job_paths in Hpath as [Hpath _].
    apply (forallb_In _ _ _ Hpath) in Hin.
    destruct a as [[] ? | ? ?]; try discriminate Ha; discriminate Hin.
Qed.




(* ================================================================= *)
(** ** Part 15: the identifier and the pattern *)

Lemma length_append (a b : string) :
  String.length (String.append a b) = String.length a + String.length b.
Proof. induction a as [|c a IH]; simpl; [reflexivity | now rewrite IH]. Qed.

Lemma append_assoc (a b c : string) :
  String.append (String.append a b) c = String.append a (String.append b c).
Proof. induction a as [|x a IH]; simpl; [reflexivity | now rewrite IH]. Qed.

Lemma append_nil_r (a : string) : String.append a "" = a.
Proof. induction a as [|x a IH]; simpl; [reflexivity | now rewrite IH]. Qed.

Lemma substring_all (a : string) : substring 0 (String.length a) a = a.
Proof. induction a as [|c a IH]; simpl; [reflexivity | now rewrite IH]. Qed.

Lemma substring_head (a b : string) :
  substring 0 (String.length a) (String.append a b) = a.
Proof.
  induction a as [|c a IH]; simpl; [now destruct b | now rewrite IH].
Qed.

Lemma substring_tail (a b : string) :
  substring (String.length a) (String.length b) (String.append a b) = b.
Proof. induction a as [|c a IH]; simpl; [apply substring_all | exact IH]. Qed.

Lemma prefix_nil (s : string) : String.prefix "" s = true.
Proof. now destruct s. Qed.

Lemma prefix_append (a b : string) : String.prefix a (String.append a b) = true.
Proof.
  induction a as [|c a IH]; simpl String.append; [apply prefix_nil|].
  now rewrite prefix_cons, Ascii.eqb_refl.
Qed.

(** *** The identifier *)

Lemma dots_gone (s : string) : strings_Contains (dots_to_underscores s) "." = false.
Proof.
  induction s as [|c s IH]; [reflexivity|].
  cbn [dots_to_underscores strings_Contains]. rewrite prefix_cons, prefix_nil, IH, andb_true_r.
  destruct (Ascii.eqb c ".") eqn:E; [reflexivity|].
  rewrite Ascii.eqb_sym, E. reflexivity.
Qed.

Lemma dots_length (s : string) :
  String.length (dots_to_underscores s) = String.length s.
Proof. induction s as [|c s IH]; simpl; [reflexivity | now rewrite IH]. Qed.

Lemma dots_append (a b : string) :
  dots_to_underscores (String.append a b)
  = String.append (dots_to_underscores a) (dots_to_underscores b).
Proof. induction a as [|c a IH]; simpl; [reflexivity | now rewrite IH]. Qed.

Lemma contains_append_r (a b x : string) :
  strings_Contains b x = true -> strings_Contains (String.append a b) x = true.
Proof.
  intro H. induction a as [|c a IH]; [exact H|].
  cbn [String.append strings_Contains]. rewrite IH. apply orb_true_r.
Qed.

(** X1.  The identifier never holds a dot, and it is as long as the host name:
    the name of the container and of its directory differs from the host
    name in the dots alone.  What the directory argument of the command ends
    with is dot-free too. *)
Theorem identifier_has_no_dot (u : URL) (gitUrl : string) :
  strings_Contains (hostname_of u) "." = false
  /\ String.length (hostname_of u) = String.length (Hostname u)
  /\ nth_error (Cmd (container_Config gitUrl (hostname_of u))) 2
     = Some (String.append "/home/gget/" (hostname_of u)).
Proof.
  unfold hostname_of. rewrite replace_dots. split; [apply dots_gone|].
  split; [apply dots_length | reflexivity].
Qed.

(** *** The port *)

Lemma no_colon_digits (s : string) :
  forallb is_digit (bytes_of s) = true -> strings_LastIndexByte s ":" = None.
Proof.
  induction s as [|c s IH]; [reflexivity|].
  cbn [bytes_of list_ascii_of_string forallb]. intro H.
  apply andb_true_iff in H as [Hc Hs]. cbn [strings_LastIndexByte].
  unfold bytes_of in IH. rewrite (IH Hs).
  destruct (Ascii.eqb c ":") eqn:E; [|reflexivity].
  apply Ascii.eqb_eq in E. subst c. discriminate Hc.
Qed.

Lemma last_colon (h port : string) :
  strings_LastIndexByte port ":" = None ->
  strings_LastIndexByte (String.append h (String ":" port)) ":" = Some (String.length h).
Proof.
  intro H. induction h as [|c h IH].
  - cbn [String.append strings_LastIndexByte]. rewrite H. reflexivity.
  - cbn [String.append strings_LastIndexByte]. rewrite IH. reflexivity.
Qed.

Lemma splitHostPort_port (h port : string) :
  forallb is_digit (bytes_of port) = true ->
  splitHostPort (String.append h (String ":" port)) = (unbracket h, port).
Proof.
  intro Hd. unfold splitHostPort.
  rewrite (last_colon h port (no_colon_digits port Hd)).
  rewrite length_append. cbn [String.length].
  replace (String.length h + S (String.length port) - String.length h)
    with (String.length (String ":" port)) by (simpl; lia).
  rewrite substring_tail. cbn [validOptionalPort]. rewrite Ascii.eqb_refl, Hd.
  cbn [andb]. rewrite substring_head.
  replace (String.length h + S (String.length port) - (String.length h + 1))
    with (String.length port) by lia.
  replace (String.append h (String ":" port))
    with (String.append (String.append h ":") port)
    by (rewrite append_assoc; reflexivity).
  replace (String.length h + 1) with (String.length (String.append h ":"))
    by (rewrite length_append; reflexivity).
  rewrite substring_tail. unfold unbracket.
  destruct (strings_HasPrefix h "[" && strings_HasSuffix h "]"); reflexivity.
Qed.

Lemma no_colon_split (h : string) :
  strings_LastIndexByte h ":" = None -> splitHostPort h = (unbracket h, "").
Proof.
  intro H. unfold splitHostPort. rewrite H. unfold unbracket.
  destruct (strings_HasPrefix h "[" && strings_HasSuffix h "]"); reflexivity.
Qed.

(** X2.  The port is no part of the identifier.  Two targets whose hosts differ
    in the port alone get the same identifier, and a host with a port gets
    the identifier of the host without it: their create requests carry the
    same container name and the same directory. *)
Theorem identifier_ignores_port (L : Lib) (out t1 t2 : string) (u1 u2 : URL)
    (h p1 p2 : string) :
  url_Parse L t1 = inl u1 -> url_Parse L t2 = inl u2 ->
  Host u1 = String.append h (String ":" p1) ->
  Host u2 = String.append h (String ":" p2) ->
  forallb is_digit (bytes_of p1) = true ->
  forallb is_digit (bytes_of p2) = true ->
  hostname_of u1 = dots_to_underscores (unbracket h)
  /\ hostname_of u2 = hostname_of u1
  /\ (strings_LastIndexByte h ":" = None ->
      forall s p, hostname_of (mkURL s h p) = hostname_of u1)
  /\ exists k1 k2,
       CreateContainer L out t1 =
         Do (client_ContainerCreate (container_Config t1 (hostname_of u1))
               (container_HostConfig out) (hostname_of u1)) k1
       /\ CreateContainer L out t2 =
         Do (client_ContainerCreate (container_Config t2 (hostname_of u1))
               (container_HostConfig out) (hostname_of u1)) k2.
Proof.
  intros P1 P2 H1 H2 D1 D2.
  assert (E1 : hostname_of u1 = dots_to_underscores (unbracket h)).
  { unfold hostname_of, Hostname. now rewrite replace_dots, H1, splitHostPort_port. }
  assert (E2 : hostname_of u2 = dots_to_underscores (unbracket h)).
  { unfold hostname_of, Hostname. now rewrite replace_dots, H2, splitHostPort_port. }
  split; [exact E1|]. split; [now rewrite E1, E2|]. split.
  - intros Hn s p. rewrite E1. unfold hostname_of, Hostname. cbn [Host].
    now rewrite replace_dots, no_colon_split.
  - unfold CreateContainer. rewrite P1, P2. cbn [bind]. rewrite E2, <- E1. eauto.
Qed.

Lemma identifier_ignores_port_witness :
  hostname_of (mkURL "http" "a.com:8080" "/.git") = "a_com"
  /\ hostname_of (mkURL "http" "a.com:9090" "/.git") = hostname_of (mkURL "http" "a.com:8080" "/.git").
Proof.
  pose proof (identifier_ignores_port mock_lib "/out" "http://a.com:8080/.git"
                "http://a.com:9090/.git" (mkURL "http" "a.com:8080" "/.git")
                (mkURL "http" "a.com:9090" "/.git") "a.com" "8080" "9090"
                eq_refl eq_refl eq_refl eq_refl eq_refl eq_refl) as [H1 [H2 _]].
  split; [exact H1 | exact H2].
Defined.

(** *** The pattern *)

Lemma rx_rep_suffix (f : ascii -> bool) (lo : nat) (hi : option nat)
    (k : option ascii -> string -> option string) (s : string) :
  forall (n : nat) (prev : option ascii) (rest : string),
    rx_rep f lo hi k n prev s = Some rest ->
    exists mid t prev', s = String.append mid t /\ k prev' t = Some rest.
Proof.
  induction s as [|c s IH]; intros n prev rest H; cbn [rx_rep] in H.
  - destruct (lo <=? n); [|discriminate]. exists "", "", prev. now split.
  - assert (Hstop : (if lo <=? n then k prev (String c s) else None) = Some rest ->
              exists mid t prev', String c s = String.append mid t /\ k prev' t = Some rest).
    { destruct (lo <=? n); [|discriminate]. intro E. exists "", (String c s), prev. now split. }
    destruct (match hi with Some h => n <? h | None => true end && f c); [|now apply Hstop].
    destruct (rx_rep f lo hi k (S n) (Some c) s) as [r|] eqn:E; [|now apply Hstop].
    injection H as ->. apply IH in E as [mid [t [prev' [-> E]]]].
    exists (String c mid), t, prev'. now split.
Qed.

(** What a match leaves is an end of the text, and the continuation was
    run on it. *)
Lemma rx_match_suffix (r : Regex) :
  forall (prev : option ascii) (s : string)
         (k : option ascii -> string -> option string) (rest : string),
    rx_match r prev s k = Some rest ->
    exists mid t prev', s = String.append mid t /\ k prev' t = Some rest.
Proof.
  induction r as [ | c | f | r1 IH1 r2 IH2 | r1 IH1 | f lo hi | ];
    intros prev s k rest H; cbn [rx_match] in H.
  - exists "", s, prev. now split.
  - destruct s as [|d s]; [discriminate|]. destruct (Ascii.eqb c d); [|discriminate].
    exists (String d ""), s, (Some d). now split.
  - destruct s as [|d s]; [discriminate|]. destruct (f d); [|discriminate].
    exists (String d ""), s, (Some d). now split.
  - apply IH1 in H as [m1 [t1 [p1 [-> H]]]]. apply IH2 in H as [m2 [t2 [p2 [-> H]]]].
    exists (String.append m1 m2), t2, p2. split; [now rewrite append_assoc | exact H].
  - destruct (rx_match r1 prev s k) as [x|] eqn:E.
    + injection H as ->. now apply IH1 in E.
    + exists "", s, prev. now split.
  - now apply rx_rep_suffix in H.
  - destruct (xorb (is_word prev) (is_word (first_byte s))); [|discriminate].
    exists "", s, prev. now split.
Qed.

Lemma rx_lit_match (lit : string) :
  forall (prev : option ascii) (s : string)
         (k : option ascii -> string -> option string) (rest : string),
    rx_match (rx_lit lit) prev s k = Some rest ->
    exists t prev', s = String.append lit t /\ k prev' t = Some rest.
Proof.
  induction lit as [|c lit IH]; intros prev s k rest H; cbn [rx_lit rx_match] in H.
  - exists s, prev. now split.
  - destruct s as [|d s]; [discriminate|]. destruct (Ascii.eqb c d) eqn:E; [|discriminate].
    apply Ascii.eqb_eq in E. subst d.
    apply IH in H as [t [p [-> H]]]. exists t, p. now split.
Qed.

(** A match of [URLRegex] begins with the scheme. *)
Lemma URLRegex_match (prev : option ascii) (s rest : string) :
  rx_match URLRegex prev s (fun _ r => Some r) = Some rest ->
  exists body, s = String.append body rest
    /\ (String.prefix "http://" body = true \/ String.prefix "https://" body = true).
Proof.
  unfold URLRegex. intro H. cbn [rx_match] in H.
  apply rx_lit_match in H as [t1 [p1 [-> H]]].
  assert (Hrest : forall p t,
            rx_match (rx_lit "://") p t
              (fun prev' s' =>
                 rx_match (ROpt (rx_lit "www.")) prev' s'
                   (fun prev'0 s'0 =>
                      rx_match (RRepSet url_set1 1 (Some 256)) prev'0 s'0
                        (fun prev'1 s'1 =>
                           rx_match (RChar ".") prev'1 s'1
                             (fun prev'2 s'2 =>
                                rx_match (RRepSet url_set2 1 (Some 6)) prev'2 s'2
                                  (fun prev'3 s'3 =>
                                     rx_match RWordBoundary prev'3 s'3
                                       (fun prev'4 s'4 =>
                                          rx_match (RRepSet url_set3 0 None) prev'4 s'4
                                            (fun _ r => Some r))))))) = Some rest ->
            exists mid, t = String.append "://" (String.append mid rest)).
  { intros p t E. apply rx_lit_match in E as [t3 [p3 [-> E]]].
    apply (rx_match_suffix
             (RCat (ROpt (rx_lit "www."))
                (RCat (RRepSet url_set1 1 (Some 256))
                   (RCat (RChar ".")
                      (RCat (RRepSet url_set2 1 (Some 6))
                         (RCat RWordBoundary (RRepSet url_set3 0 None))))))
             p3 t3 (fun _ r => Some r) rest) in E as [mid [t4 [p4 [-> E]]]].
    injection E as ->. now exists mid. }
  destruct t1 as [|d t1].
  - apply Hrest in H as [mid H]. discriminate H.
  - destruct (Ascii.eqb "s" d) eqn:Ed.
    + apply Ascii.eqb_eq in Ed. subst d.
      match type of H with
      | match ?x with Some _ => _ | None => _ end = _ => destruct x as [r1|] eqn:E1
      end.
      * injection H as ->. apply Hrest in E1 as [mid ->].
        exists (String.append "https://" mid). split; [reflexivity|]. right.
        apply (prefix_append "https://" mid).
      * apply Hrest in H as [mid H]. discriminate H.
    + apply Hrest in H as [mid ->].
      exists (String.append "http://" mid). split; [reflexivity|]. left.
      apply (prefix_append "http://" mid).
Qed.

Lemma find_at_shape (s : string) :
  forall (prev : option ascii) (m : string),
    rx_find_at URLRegex prev s = Some m ->
    exists pre post, s = String.append pre (String.append m post)
      /\ (String.prefix "http://" m = true \/ String.prefix "https://" m = true).
Proof.
  assert (Hhit : forall prev s rest,
            rx_match URLRegex prev s (fun _ r => Some r) = Some rest ->
            exists post, s = String.append (substring 0 (String.length s - String.length rest) s) post
              /\ (String.prefix "http://" (substring 0 (String.length s - String.length rest) s) = true
                  \/ String.prefix "https://" (substring 0 (String.length s - String.length rest) s) = true)).
  { intros prev s0 rest E. apply URLRegex_match in E as [body [-> Hp]].
    rewrite length_append, Nat.add_sub, substring_head. now exists rest. }
  induction s as [|c s IH]; intros prev m H.
  - cbn [rx_find_at] in H.
    destruct (rx_match URLRegex prev "" (fun _ r => Some r)) as [rest|] eqn:E; [|discriminate].
    injection H as <-. apply Hhit in E as [post [E Hp]]. now exists "", post.
  - cbn [rx_find_at] in H.
    destruct (rx_match URLRegex prev (String c s) (fun _ r => Some r)) as [rest|] eqn:E.
    + injection H as <-. apply Hhit in E as [post [E Hp]]. now exists "", post.
    + apply IH in H as [pre [post [-> Hp]]]. now exists (String c pre), post.
Qed.

(** X3.  What a FETCHING or TESTING line shows after its label is a piece of the
    chunk that begins with [http://] or [https://], or nothing at all: the
    classifier never prints text that is not in the chunk. *)
Theorem found_url_is_in_chunk (g : GitDumperLog) (p : string) :
  gdl_URLRegex g = URLRegex ->
  forall url, classify g p = Fetching url \/ classify g p = Testing url ->
    url = ""
    \/ exists pre post, p = String.append pre (String.append url post)
         /\ (String.prefix "http://" url = true \/ String.prefix "https://" url = true).
Proof.
  intros Hg url H.
  assert (E : url = Regexp_Find URLRegex p).
  { unfold classify in H. rewrite Hg in H.
    destruct (strings_Contains p "Fetching"); [destruct H as [H | H]; congruence|].
    destruct (strings_Contains p "Testing"); destruct H as [H | H]; congruence. }
  subst url. unfold Regexp_Find.
  destruct (rx_find_at URLRegex None p) as [m|] eqn:Em; [|now left].
  right. now apply find_at_shape in Em.
Qed.

Lemma found_url_is_in_chunk_witness :
  "https://a.b/.git" = ""
  \/ exists pre post,
       "Fetching https://a.b/.git ..." = String.append pre (String.append "https://a.b/.git" post)
       /\ (String.prefix "http://" "https://a.b/.git" = true
           \/ String.prefix "https://" "https://a.b/.git" = true).
Proof.
  apply (found_url_is_in_chunk (mkGitDumperLog URLRegex) "Fetching https://a.b/.git ..." eq_refl).
  left. reflexivity.
Defined.

Lemma contains_piece (pre m post x : string) :
  String.prefix x m = true ->
  strings_Contains (String.append pre (String.append m post)) x = true.
Proof.
  intro H. apply contains_append_r.
  assert (Hp : String.prefix x (String.append m post) = true).
  { revert m H. induction x as [|c x IH]; intros m H; [apply prefix_nil|].
    destruct m as [|d m]; [discriminate H|]. cbn [String.append].
    rewrite prefix_cons in *. apply andb_true_iff in H as [H1 H2].
    rewrite H1. cbn [andb]. now apply IH. }
  destruct (String.append m post); cbn [strings_Contains]; now rewrite Hp.
Qed.

Lemma prefix_trans_lit (a b m : string) :
  String.prefix a b = true -> String.prefix b m = true -> String.prefix a m = true.
Proof.
  revert b m. induction a as [|c a IH]; intros b m H1 H2; [apply prefix_nil|].
  destruct b as [|d b]; [discriminate H1|]. destruct m as [|e m]; [discriminate H2|].
  rewrite prefix_cons in *. apply andb_true_iff in H1 as [E1 H1], H2 as [E2 H2].
  apply Ascii.eqb_eq in E1, E2. subst. rewrite Ascii.eqb_refl. cbn [andb]. now apply (IH b).
Qed.

(** X4.  A chunk without [http] in it gets no URL: a FETCHING or TESTING line is
    then printed with the empty string after the label. *)
Theorem no_scheme_no_url (g : GitDumperLog) (p : string) :
  gdl_URLRegex g = URLRegex ->
  strings_Contains p "http" = false ->
  Regexp_Find (gdl_URLRegex g) p = ""
  /\ (strings_Contains p "Fetching" = true ->
      render (classify g p) = [(White, "(FETCHING)"); (Green, "")])
  /\ (strings_Contains p "Fetching" = false -> strings_Contains p "Testing" = true ->
      render (classify g p) = [(White, "(TESTING)"); (Yellow, "")]).
Proof.
  intros Hg Hno.
  assert (E : Regexp_Find (gdl_URLRegex g) p = "").
  { rewrite Hg. unfold Regexp_Find.
    destruct (rx_find_at URLRegex None p) as [m|] eqn:Em; [|reflexivity].
    apply find_at_shape in Em as [pre [post [-> Hp]]].
    rewrite contains_piece in Hno; [discriminate Hno|].
    destruct Hp as [Hp | Hp];
      [apply (prefix_trans_lit "http" "http://") | apply (prefix_trans_lit "http" "https://")];
      trivial. }
  split; [exact E|]. unfold classify. split.
  - intros ->. now rewrite E.
  - intros -> ->. now rewrite E.
Qed.

Lemma no_scheme_no_url_witness :
  render (classify (mkGitDumperLog URLRegex) "Fetching objects")
  = [(White, "(FETCHING)"); (Green, "")].
Proof.
  apply (proj1 (proj2 (no_scheme_no_url (mkGitDumperLog URLRegex) "Fetching objects"
                         eq_refl eq_refl))).
  reflexivity.
Defined.

(* ================================================================= *)
(** ** Part 16: the output directory *)

Lemma replace_spent (old new : string) (s : string) :
  replace_from old new (Some 0) 0 s = s.
Proof. induction s as [|c s IH]; cbn [replace_from andb]; [reflexivity | now rewrite IH]. Qed.

(** Line 246 replaces the leading tilde and no other. *)
Lemma replace_tilde (rest home : string) :
  strings_Replace (String "~" rest) "~" home 1 = String.append home rest.
Proof.
  unfold strings_Replace. cbn [Z.ltb Z.compare Z.to_nat Pos.to_nat Pos.iter_op Nat.add].
  cbn [replace_from]. rewrite prefix_cons, prefix_nil.
  cbn [Ascii.eqb Bool.eqb andb option_map Nat.pred String.length Nat.sub].
  now rewrite replace_spent.
Qed.

Lemma abs_append (home rest : string) :
  strings_HasPrefix home "/" = true -> path_IsAbs (String.append home rest) = true.
Proof.
  unfold path_IsAbs, strings_HasPrefix. destruct home as [|c home]; [discriminate|].
  cbn [String.append]. rewrite !prefix_cons, !prefix_nil. trivial.
Qed.

Lemma exec_fatal {A : Type} (W : World) (l : Label) (v : list string) (tr : Trace) :
  exec W l (@LogFatal A v) tr = (Exited 1, tr ++ [fatal_entry l v]).
Proof. reflexivity. Qed.

Lemma ret_not_bind {A B : Type} (m : Prog A) (f : A -> Prog B) (b : B) :
  is_ret m = false -> Ret b <> bind m f.
Proof. intros H E. apply (bind_not_ret m f) in H. rewrite <- E in H. discriminate H. Qed.

(** What [HandleOutput] has done when it returns. *)
Lemma HandleOutput_ret (o : string) (acts : list Act) (out : string) :
  path (HandleOutput o) acts (Ret out) ->
  o <> ""
  /\ exists pre,
       acts = pre ++ [ACall (os_MkdirAll out) (RErr None)]
       /\ forallb is_resolve pre = true
       /\ (path_IsAbs out = true \/ exists p, In (ACall (filepath_Abs p) (RStr (inl out))) pre)
       /\ (strings_HasPrefix o "/" = true -> out = o /\ pre = []).
Proof.
  unfold HandleOutput. destruct (String.eqb o "") eqn:Eo.
  { intro H. path_run H; discriminate H. }
  intro H. split; [intros ->; discriminate Eo|].
  apply path_bind in H as [[m' [_ [E N]]] | [o1 [a1 [a2 [-> [H1 H2]]]]]];
    [now apply ret_not_bind in E|].
  apply path_bind in H2 as [[m' [_ [E N]]] | [o2 [b1 [b2 [-> [H2 H3]]]]]];
    [now apply ret_not_bind in E|].
  assert (Hb2 : b2 = [ACall (os_MkdirAll o2) (RErr None)] /\ out = o2).
  { cbn [bind] in H3. destruct b2 as [|x b2]; [discriminate H3|].
    cbn [path] in H3. destruct H3 as [[e|] [-> H3]]; path_run H3; try discriminate H3.
    injection H3 as ->. now split. }
  destruct Hb2 as [-> ->].
  assert (Ha1 : (strings_HasPrefix o "~" = true
                 /\ exists home, a1 = [ACall os_UserHomeDir (RStr (inl home))])
                \/ (strings_HasPrefix o "~" = false /\ a1 = [] /\ o1 = o)).
  { revert H1. destruct (strings_HasPrefix o "~"); intro H1.
    - left. split; [reflexivity|]. cbn [bind] in H1.
      destruct a1 as [|x a1]; [discriminate H1|]. cbn [path] in H1.
      destruct H1 as [[home|e] [-> H1]]; path_run H1; try discriminate H1. now exists home.
    - right. split; [reflexivity|]. destruct a1; [|simpl in H1; contradiction].
      cbn [path] in H1. injection H1 as ->. now split. }
  assert (Hb1 : (path_IsAbs o1 = false /\ b1 = [ACall (filepath_Abs o1) (RStr (inl o2))])
                \/ (path_IsAbs o1 = true /\ b1 = [] /\ o2 = o1)).
  { revert H2. destruct (path_IsAbs o1); intro H2.
    - right. split; [reflexivity|]. destruct b1; [|simpl in H2; contradiction].
      cbn [path] in H2. injection H2 as ->. now split.
    - left. split; [reflexivity|]. cbn [negb bind] in H2.
      destruct b1 as [|x b1]; [discriminate H2|]. cbn [path] in H2.
      destruct H2 as [[abs|e] [-> H2]]; path_run H2; try discriminate H2.
      injection H2 as ->. reflexivity. }
  exists (a1 ++ b1). split; [now rewrite <- app_assoc|].
  destruct Ha1 as [[Ht [home ->]] | [Ht [-> ->]]], Hb1 as [[Hab ->] | [Hab [-> ->]]];
    cbn [app]; (split; [reflexivity|]);
    (split; [first [now left | right; eexists; simpl; eauto]|]);
    intro Hs; unfold path_IsAbs, strings_HasPrefix in *;
    (destruct o as [|c o]; [discriminate Hs|]);
    rewrite prefix_cons, prefix_nil, andb_true_r in Hs;
    apply Ascii.eqb_eq in Hs; subst c;
    try (rewrite prefix_cons, prefix_nil in Ht; cbn in Ht; discriminate Ht);
    try (rewrite prefix_cons, prefix_nil in Hab; cbn in Hab; discriminate Hab);
    now split.
Qed.

(** X5.  When [HandleOutput] returns a directory, the last thing it did was to
    create that very directory with [os.MkdirAll], without error; before
    that it only asked for the home directory or for an absolute path; the
    directory is an absolute path by [path.IsAbs] or is what [filepath.Abs]
    gave; and an [-o] that begins with a slash is returned as it is,
    [os.MkdirAll] being the only call. *)
Theorem output_directory_created (W : World) (l : Label) (tr : Trace) (o out : string) :
  fst (exec W l (HandleOutput o) tr) = Returned out ->
  o <> ""
  /\ exists pre,
       snd (exec W l (HandleOutput o) tr)
         = tr ++ map (pair l) pre ++ [(l, ACall (os_MkdirAll out) (RErr None))]
       /\ forallb is_resolve pre = true
       /\ (path_IsAbs out = true \/ exists p, In (ACall (filepath_Abs p) (RStr (inl out))) pre)
       /\ (strings_HasPrefix o "/" = true -> out = o /\ pre = []).
Proof.
  intro H. destruct (exec_path W l (HandleOutput o) tr) as [acts [Htr Hp]].
  rewrite H in Hp. cbn [of_outcome] in Hp.
  apply HandleOutput_ret in Hp as [Ho [pre [-> [Hk [Ha Hs]]]]].
  split; [exact Ho|]. exists pre. rewrite Htr, map_app.
  split; [reflexivity|]. split; [exact Hk|]. split; [exact Ha | exact Hs].
Qed.

Lemma output_directory_created_witness :
  exists pre,
    snd (exec (mock_world ok_script) LMain (HandleOutput "dump") [])
      = [] ++ map (pair LMain) pre ++ [(LMain, ACall (os_MkdirAll "/cwd/dump") (RErr None))]
    /\ (path_IsAbs "/cwd/dump" = true
        \/ exists p, In (ACall (filepath_Abs p) (RStr (inl "/cwd/dump"))) pre).
Proof.
  destruct (output_directory_created (mock_world ok_script) LMain [] "dump" "/cwd/dump" eq_refl)
    as [_ [pre [H1 [_ [H2 _]]]]].
  exists pre. split; [exact H1 | exact H2].
Defined.

(** X6.  An [-o] that begins with a tilde: the home directory stands for that
    tilde and for no later one, whatever follows it (a slash or not), and
    when the home directory is absolute the result is created as it is,
    with no call of [filepath.Abs]; when the home directory is not known,
    the process ends with status 1 and nothing is created. *)
Theorem tilde_is_home_directory (W : World) (l : Label) (tr : Trace) (rest : string) :
  let tr1 r := tr ++ [(l, ACall os_UserHomeDir (RStr r))] in
  (forall home,
     respond W tr os_UserHomeDir = inl home ->
     strings_HasPrefix home "/" = true ->
     let d := String.append home rest in
     exec W l (HandleOutput (String "~" rest)) tr =
     match respond W (tr1 (inl home)) (os_MkdirAll d) with
     | None => (Returned d, tr1 (inl home) ++ [(l, ACall (os_MkdirAll d) (RErr None))])
     | Some e => (Exited 1, tr1 (inl home) ++ [(l, ACall (os_MkdirAll d) (RErr (Some e)));
                                              fatal_entry l [e; fmt_pointer]])
     end)
  /\ (forall e,
        respond W tr os_UserHomeDir = inr e ->
        exec W l (HandleOutput (String "~" rest)) tr =
        (Exited 1, tr1 (inr e) ++ [fatal_entry l [e; fmt_pointer]])).
Proof.
  intro tr1. unfold HandleOutput.
  assert (Hp : strings_HasPrefix (String "~" rest) "~" = true)
    by (unfold strings_HasPrefix; now rewrite prefix_cons, prefix_nil).
  rewrite Hp. cbn [String.eqb bind]. split.
  - intros home Hh Ha. rewrite exec_bind_Do, Hh. cbn [bind].
    rewrite replace_tilde. set (d := String.append home rest).
    unfold d at 1. rewrite (abs_append home rest Ha). cbn [negb bind].
    rewrite exec_bind_Do. cbn [enc]. fold (tr1 (inl home)).
    destruct (respond W (tr1 (inl home)) (os_MkdirAll d)) as [e|].
    + unfold LogFatal, fatal_entry. cbn [bind exec]. rewrite <- app_assoc. reflexivity.
    + reflexivity.
  - intros e He. rewrite exec_bind_Do, He. unfold LogFatal, fatal_entry.
    cbn [bind exec enc]. fold (tr1 (inr e)). reflexivity.
Qed.

Lemma tilde_is_home_directory_witness :
  exec (mock_world ok_script) LMain (HandleOutput "~/dumps/~old") [] =
  (Returned "/home/u/dumps/~old",
   [(LMain, ACall os_UserHomeDir (RStr (inl "/home/u")));
    (LMain, ACall (os_MkdirAll "/home/u/dumps/~old") (RErr None))]).
Proof.
  exact (proj1 (tilde_is_home_directory (mock_world ok_script) LMain [] "/dumps/~old")
           "/home/u" eq_refl eq_refl).
Defined.

(* ================================================================= *)
(** ** Part 17: the build response and the log of a container *)


Lemma len_lt_self (p : string) : (len p <? len p)%Z = false.
Proof. apply Z.ltb_irrefl. Qed.

(** [ImageBuildResponse.Write] on a line that is decoded without an [error]
    field: it prints and returns the length of the line with the error of the
    decoder. *)
Lemma exec_Write_ok (W : World) (l : Label) (ib ib' : ImageBuildResponse) (p : string)
    (err : option error) (tr : Trace) :
  json_Decode (lib W) p ib = (Some ib', err) ->
  nonempty (ib_Error ib') = false ->
  exec W l (ImageBuildResponse_Write (lib W) ib p) tr =
  (Returned (ib', (len p, err)),
   tr ++ (if nonempty (ib_Stream ib')
          then [println l [(White, "(STREAM)")]; println l [(Green, ib_Stream ib')]] else [])
      ++ (if nonempty (ib_Progress ib')
          then [println l [(White, "(STATUS)")]; println l [(Green, ib_Status ib')]] else [])
      ++ (if nonempty (ib_Status ib')
          then [println l [(White, "(PROGRESS)")]; println l [(Green, ib_Progress ib')]] else [])).
Proof.
  intros Hd He. unfold ImageBuildResponse_Write, when, call, println. rewrite Hd, He.
  destruct (nonempty (ib_Stream ib')), (nonempty (ib_Progress ib')), (nonempty (ib_Status ib'));
    cbn [bind exec enc app]; rewrite <- ?app_assoc; cbn [app]; rewrite ?app_nil_r; reflexivity.
Qed.



(** *** The end of the build *)

Lemma exec_call {A : Type} (W : World) (l : Label) (o : Op) (k : Prog A) (tr : Trace) :
  exec W l (call o ;; k)%prog tr = exec W l k (tr ++ [(l, ACall o (enc o (respond W tr o)))]).
Proof. reflexivity. Qed.

Lemma exec_extends {A : Type} (W : World) (l : Label) (p : Prog A) (tr : Trace) :
  exists evs, snd (exec W l p tr) = tr ++ evs.
Proof.
  destruct (exec_path W l p tr) as [acts [H _]]. now exists (map (pair l) acts).
Qed.

(** The copy of the build response, chunk by chunk. *)
Lemma exec_build_copy (W : World) (l : Label) (rs : list string) (fin : string)
    (e : option error) :
  forall (ib : ImageBuildResponse) (w : Z) (tr : Trace),
    let r := exec W l (copy_reads (ImageBuildResponse_Write (lib W)) BuildBody rs fin e ib w) tr in
    match build_end (lib W) ib (rs ++ [fin]) e with
    | BuildDone => exists st' w', fst r = Returned (st', (w', None))
    | BuildPanic => fst r = Exited 2
    | BuildFatal v =>
        (exists st' w' e', fst r = Returned (st', (w', Some e'))
                           /\ v = ["Unable to build copy build response"; e'])
        \/ (fst r = Exited 1 /\ exists pre, snd r = pre ++ [fatal_entry l v])
    end.
Proof.
  assert (Hone : forall (buf : string) (ib : ImageBuildResponse) (w : Z) (tr : Trace)
                   (next : ImageBuildResponse -> Z -> Prog (ImageBuildResponse * (Z * option error)))
                   (rest : list string),
            (forall ib1 w1 tr1,
               let r := exec W l (next ib1 w1) tr1 in
               match build_end (lib W) ib1 rest e with
               | BuildDone => exists st' w', fst r = Returned (st', (w', None))
               | BuildPanic => fst r = Exited 2
               | BuildFatal v =>
                   (exists st' w' e', fst r = Returned (st', (w', Some e'))
                                      /\ v = ["Unable to build copy build response"; e'])
                   \/ (fst r = Exited 1 /\ exists pre, snd r = pre ++ [fatal_entry l v])
               end) ->
            let r := exec W l (copy_write (ImageBuildResponse_Write (lib W)) ib w buf next) tr in
            match build_end (lib W) ib (buf :: rest) e with
            | BuildDone => exists st' w', fst r = Returned (st', (w', None))
            | BuildPanic => fst r = Exited 2
            | BuildFatal v =>
                (exists st' w' e', fst r = Returned (st', (w', Some e'))
                                   /\ v = ["Unable to build copy build response"; e'])
                \/ (fst r = Exited 1 /\ exists pre, snd r = pre ++ [fatal_entry l v])
            end).
  { intros buf ib w tr next rest Hnext. cbn [build_end]. unfold copy_write.
    destruct (0 <? len buf)%Z; [|apply Hnext].
    rewrite exec_bind.
    destruct (json_Decode (lib W) buf ib) as [[ib'|] err] eqn:Hd.
    - destruct (nonempty (ib_Error ib')) eqn:He.
      + unfold ImageBuildResponse_Write. rewrite Hd, He. unfold when, LogFatal.
        cbn [bind exec fst snd]. right. split; [reflexivity|]. now exists tr.
      + rewrite (exec_Write_ok W l ib ib' buf err tr Hd He). cbn [fst snd].
        rewrite len_nonneg, len_lt_self. cbn [orb].
        destruct err as [e'|].
        * cbn [exec fst]. left. now exists ib', (w + len buf)%Z, e'.
        * rewrite Z.eqb_refl. apply Hnext.
    - unfold ImageBuildResponse_Write. rewrite Hd. reflexivity. }
  induction rs as [|buf rs IH]; intros ib w tr.
  - cbn [copy_reads app]. rewrite exec_call. apply Hone.
    intros ib1 w1 tr1. cbn [build_end exec fst snd]. destruct e as [e'|].
    + left. now exists ib1, w1, e'.
    + now exists ib1, w1.
  - cbn [copy_reads app]. rewrite exec_call. apply Hone.
    intros ib1 w1 tr1. apply IH.
Qed.

(** X8.  How [BuildImage] ends is decided by the first chunk of the response
    that stops it.  A chunk decoded with an [error] field ends the process
    with status 1 and the message of [errorDetail]; a chunk on which the
    decoder fails, and a failed read, end it with status 1 and the report
    "Unable to build copy build response"; a chunk that is the document
    [null] makes the program read a nil pointer, which is a panic; an empty
    chunk is skipped; and with no such chunk [BuildImage] returns.  A short
    or invalid write cannot happen. *)
Theorem build_ends_at_first_bad_chunk (W : World) (l : Label) (tr : Trace) (tar : string)
    (body : ReadCloser) :
  respond W tr (client_ImageBuild tar ["gget"]) = inl body ->
  let r := exec W l (BuildImage (lib W) tar) tr in
  match build_end (lib W) zero_ImageBuildResponse (reads body ++ [final body]) (stop body) with
  | BuildDone => fst r = Returned tt
  | BuildPanic => fst r = Exited 2
  | BuildFatal v => fst r = Exited 1 /\ exists pre, snd r = pre ++ [fatal_entry l v]
  end.
Proof.
  intros Hb r. unfold r, BuildImage. cbn [bind]. cbv zeta. rewrite exec_bind_Do, Hb.
  rewrite exec_bind. unfold io_Copy.
  pose proof (exec_build_copy W l (reads body) (final body) (stop body)
                zero_ImageBuildResponse 0%Z
                (tr ++ [(l, ACall (client_ImageBuild tar ["gget"])
                              (enc (client_ImageBuild tar ["gget"]) (inl body)))])) as H.
  cbv zeta in H.
  destruct (build_end (lib W) zero_ImageBuildResponse (reads body ++ [final body]) (stop body))
    as [ | v | ].
  - destruct H as [st' [w' H]]. rewrite H. reflexivity.
  - destruct H as [[st' [w' [e' [H ->]]]] | [H [pre Hpre]]].
    + rewrite H. cbn [snd]. rewrite exec_fatal. split; [reflexivity|]. cbn [snd]. eauto.
    + rewrite H. cbn [fst snd]. split; [reflexivity|]. eauto.
  - rewrite H. reflexivity.
Qed.

Lemma build_ends_at_first_bad_chunk_witness :
  fst (exec (mock_world (mkScript (sc_open ok_script)
                           (inl (mkBody ["stream Step 1/3"; ""; "null"; "stream Step 2/3"] "" None))
                           (sc_create ok_script) (sc_start ok_script) (sc_logs ok_script)
                           (sc_remove ok_script) (sc_removeAll ok_script)))
         LMain (BuildImage mock_lib "TAR") []) = Exited 2.
Proof.
  exact (build_ends_at_first_bad_chunk
           (mock_world (mkScript (sc_open ok_script)
                          (inl (mkBody ["stream Step 1/3"; ""; "null"; "stream Step 2/3"] "" None))
                          (sc_create ok_script) (sc_start ok_script) (sc_logs ok_script)
                          (sc_remove ok_script) (sc_removeAll ok_script)))
           LMain [] "TAR" _ eq_refl).
Defined.

(** *** The copy of the log *)

Lemma exec_log_copy (W : World) (l : Label) (src : Source) (g : GitDumperLog)
    (rs : list string) (fin : string) (e : option error) :
  forall (w : Z) (tr : Trace),
    exec W l (copy_reads GitDumperLog_Write src rs fin e g w) tr =
    (Returned (g, ((w + total_len (rs ++ [fin]))%Z, e)),
     tr ++ log_trace l src g (mkBody rs fin e)).
Proof.
  assert (Hone : forall (buf : string) (er : ReadEnd) (w : Z) (tr : Trace)
                   (next : GitDumperLog -> Z -> Prog (GitDumperLog * (Z * option error))),
            exec W l (call (body_Read src buf er) ;;
                      copy_write GitDumperLog_Write g w buf next)%prog tr
            = exec W l (next g (w + len buf)%Z) (tr ++ log_entries l src g buf er)).
  { intros buf er w tr next. rewrite exec_call. unfold copy_write, log_entries. cbn [enc].
    destruct (0 <? len buf)%Z eqn:Hl.
    - unfold GitDumperLog_Write, call. cbn [bind exec fst snd enc].
      rewrite len_nonneg, len_lt_self. cbn [orb]. rewrite Z.eqb_refl. cbn [exec].
      now rewrite <- app_assoc.
    - replace (len buf) with 0%Z; [now rewrite Z.add_0_r|].
      apply Z.ltb_ge in Hl. unfold len in *. lia. }
  unfold log_trace. cbn [reads final stop].
  induction rs as [|buf rs IH]; intros w tr.
  - cbn [copy_reads app flat_map]. rewrite Hone. cbn [exec].
    unfold total_len. cbn [fold_right]. now rewrite Z.add_0_r.
  - cbn [copy_reads app flat_map]. rewrite Hone, IH.
    change (total_len (buf :: rs ++ [fin])) with (len buf + total_len (rs ++ [fin]))%Z.
    rewrite <- !app_assoc, Z.add_assoc. reflexivity.
Qed.

(** X9.  What a job shows of a log.  When the container starts and its log
    stream opens, [RunContainerThenRemove] reads the stream to its end,
    whatever it holds and however the last read ends; every chunk that is not
    empty gives one printed line, the line of its classification, in the
    order read, and an empty chunk gives none; then comes the remove call,
    and nothing after it. *)
Theorem log_lines_follow_chunks (W : World) (l : Label) (id : string) (tr : Trace)
    (rc : ReadCloser) :
  let tr1 := tr ++ [(l, ACall (client_ContainerStart id) (RErr None))] in
  let tr2 := tr1 ++ [(l, ACall (client_ContainerLogs id logsOptions) (RBody (inl rc)))] in
  let tr3 := tr2 ++ log_trace l (LogsBody id) (mkGitDumperLog URLRegex) rc in
  respond W tr (client_ContainerStart id) = None ->
  respond W tr1 (client_ContainerLogs id logsOptions) = inl rc ->
  exec W l (RunContainerThenRemove id) tr =
    (Returned tt,
     tr3 ++ [(l, ACall (client_ContainerRemove id removeOptions)
                   (RErr (respond W tr3 (client_ContainerRemove id removeOptions))))])
  /\ map snd (filter (fun en => is_print (snd en)) tr3)
     = map snd (filter (fun en => is_print (snd en)) tr)
       ++ map (fun c => ACall (fmt_Println (render (classify (mkGitDumperLog URLRegex) c))) RUnit)
            (filter (fun c => (0 <? len c)%Z) (reads rc ++ [final rc])).
Proof.
  intros tr1 tr2 tr3 Hs Ho. split.
  - unfold RunContainerThenRemove. cbn [bind]. cbv zeta.
    rewrite exec_bind_Do, Hs. cbn [enc]. fold tr1.
    rewrite exec_bind_Do, Ho. cbn [enc]. fold tr2.
    rewrite exec_bind. unfold io_Copy. rewrite exec_log_copy. cbn [fst snd].
    replace (mkBody (reads rc) (final rc) (stop rc)) with rc by now destruct rc.
    fold tr3. reflexivity.
  - assert (Hone : forall c er,
              map snd (filter (fun en => is_print (snd en))
                         (log_entries l (LogsBody id) (mkGitDumperLog URLRegex) c er))
              = map (fun c => ACall (fmt_Println (render (classify (mkGitDumperLog URLRegex) c))) RUnit)
                  (filter (fun c => (0 <? len c)%Z) [c])).
    { intros c er. unfold log_entries. cbn [filter snd is_print].
      destruct (0 <? len c)%Z; reflexivity. }
    assert (Hall : forall cs,
              map snd (filter (fun en => is_print (snd en))
                         (flat_map (fun c => log_entries l (LogsBody id) (mkGitDumperLog URLRegex)
                                               c MoreData) cs))
              = map (fun c => ACall (fmt_Println (render (classify (mkGitDumperLog URLRegex) c))) RUnit)
                  (filter (fun c => (0 <? len c)%Z) cs)).
    { induction cs as [|c cs IH]; [reflexivity|].
      cbn [flat_map]. unfold Entry in *. rewrite filter_app, map_app, (Hone c MoreData), IH.
      cbn [filter]. destruct (0 <? len c)%Z; reflexivity. }
    unfold tr3, tr2, tr1, log_trace. unfold Trace, Entry in *.
    rewrite !filter_app, !map_app, Hall, Hone. cbn [filter snd is_print map app].
    rewrite !app_nil_r. reflexivity.
Qed.

Lemma log_lines_follow_chunks_witness :
  exec (mock_world ok_script) LMain (RunContainerThenRemove "c1") [] =
  (Returned tt,
   [(LMain, ACall (client_ContainerStart "c1") (RErr None));
    (LMain, ACall (client_ContainerLogs "c1" logsOptions)
              (RBody (inl (mkBody ["Fetching http://a.com/.git/HEAD [200]"; "done"] "" None))));
    (LMain, ACall (body_Read (LogsBody "c1") "Fetching http://a.com/.git/HEAD [200]" MoreData) RUnit);
    println LMain [(White, "(FETCHING)"); (Green, "http://a.com/.git/HEAD")];
    (LMain, ACall (body_Read (LogsBody "c1") "done" MoreData) RUnit);
    println LMain [(White, "done")];
    (LMain, ACall (body_Read (LogsBody "c1") "" AtEOF) RUnit);
    (LMain, ACall (client_ContainerRemove "c1" removeOptions) (RErr None))]).
Proof.
  exact (proj1 (log_lines_follow_chunks (mock_world ok_script) LMain "c1" []
                  (mkBody ["Fetching http://a.com/.git/HEAD [200]"; "done"] "" None)
                  eq_refl eq_refl)).
Defined.

(* ================================================================= *)
(** ** Part 18: [main], cut where the signal goroutine starts *)

Lemma HandleInput_ret (i f : string) (acts : list Act) (r : option (list string)) :
  path (HandleInput i f) acts (Ret r) ->
  (r = None /\ acts = [] /\ f = "" /\ i <> "")
  \/ exists urls, r = Some urls /\ acts = [ACall (os_Open f) (RLines (inl urls))] /\ f <> "".
Proof.
  unfold HandleInput, nonempty. destruct (String.eqb f "") eqn:Ef; cbn [negb].
  - apply String.eqb_eq in Ef. subst f.
    destruct (String.eqb i "") eqn:Ei; intro H; path_run H; try discriminate H.
    injection H as ->. left. repeat split. intros ->. discriminate Ei.
  - cbn [bind]. intro H. destruct acts as [|a acts]; [discriminate H|]. cbn [path] in H.
    destruct H as [[urls|e] [-> H]]; path_run H; try discriminate H.
    injection H as ->. right. exists urls. repeat split. intros ->. discriminate Ef.
Qed.

Opaque BuildImage HandleSIGTERM CreateContainer RunContainerThenRemove spawn_jobs cleanup
  HandleInput HandleOutput.

(** [main], cut where the signal goroutine is started. *)
Lemma main_split (L : Lib) (fl : Flags) (acts : list Act) (q : Prog unit) :
  path (main L fl) acts q ->
  (forallb setup_act acts = true /\ is_ret q = false)
  \/ exists a1 o1 inputFile out b,
       acts = a1 ++ o1 ++ ACall client_NewClientWithOpts (RErr None)
                 :: AGo LSignals (HandleSIGTERM (cleanup out)) :: b
       /\ path (HandleInput (input fl) (inputFilePath fl)) a1 (Ret inputFile)
       /\ path (HandleOutput (output fl)) o1 (Ret out)
       /\ path (main_tail L fl out inputFile) b q.
Proof.
  unfold main. intro H.
  apply path_bind in H as [[m' [H1 [-> H3]]] | [inputFile [a1 [a2 [-> [H1 H2]]]]]].
  { left. split; [now apply HandleInput_paths in H1 | now apply bind_not_ret]. }
  pose proof (HandleInput_paths _ _ _ _ H1) as [Ha1 _].
  apply path_bind in H2 as [[m' [H2 [-> H3]]] | [out [o1 [o2 [-> [H2 H3]]]]]].
  { left. split; [|now apply bind_not_ret].
    apply HandleOutput_paths, forallb_out_setup in H2. now rewrite forallb_app, Ha1. }
  pose proof (forallb_out_setup _ (HandleOutput_paths _ _ _ H2)) as Ho1.
  cbn [bind] in H3.
  destruct o2 as [|a o2]; cbn [path] in H3.
  { subst q. left. split; [|reflexivity]. now rewrite !forallb_app, Ha1, Ho1. }
  destruct H3 as [[e|] [-> H3]].
  { left. path_run H3; subst q; (split; [|reflexivity]);
      rewrite !forallb_app, Ha1, Ho1; reflexivity. }
  destruct o2 as [|a o2]; cbn [path] in H3.
  { subst q. left. split; [|reflexivity]. now rewrite !forallb_app, Ha1, Ho1. }
  destruct H3 as [-> H3].
  right. exists a1, o1, inputFile, out, o2. repeat split; trivial.
Qed.

Transparent BuildImage HandleSIGTERM CreateContainer RunContainerThenRemove spawn_jobs cleanup
  HandleInput HandleOutput.

Lemma setup_no_go (acts : list Act) (a : Act) :
  forallb setup_act acts = true -> In a acts ->
  is_go a = false /\ is_container a = false /\ is_build_call a = false
  /\ is_cleanup a = false /\ is_wg_Done a = false /\ added a = 0.
Proof.
  intros H Hin. apply (forallb_In _ _ _ H) in Hin.
  destruct a as [[] ? | ? ?]; try discriminate Hin; now repeat split.
Qed.

Lemma io_kind (a : Act) :
  is_io a = true ->
  is_go a = false /\ is_container a = false /\ is_build_call a = false
  /\ is_cleanup a = false /\ is_wg_Done a = false /\ added a = 0 /\ setup_act a = false
     \/ is_go a = false /\ is_container a = false /\ is_build_call a = false
        /\ is_cleanup a = false /\ is_wg_Done a = false /\ added a = 0 /\ is_print a = true.
Proof.
  destruct a as [[] ? | ? ?]; intro H; try discriminate H;
    first [left; now repeat split | right; now repeat split].
Qed.

(** The entries of [CreateContainer]: the create request of its target, and
    the report of a failure. *)
Lemma CreateContainer_entries (L : Lib) (out u : string) (acts : list Act) (q : Prog string)
    (a : Act) :
  path (CreateContainer L out u) acts q -> In a acts ->
  is_print a = true
  \/ exists url r, url_Parse L u = inl url /\ a = ACall (create_request out u url) r
                   /\ acts <> [] /\ hd_error acts = Some a.
Proof.
  unfold CreateContainer. destruct (url_Parse L u) as [url|e]; cbn [bind]; intros H Hin.
  - destruct acts as [|x acts]; [contradiction|]. cbn [path] in H.
    destruct H as [r [-> H]].
    destruct Hin as [<- | Hin].
    + right. exists url, (RStr r). repeat split. discriminate.
    + left. destruct r as [id|e]; path_run H; try contradiction.
      destruct Hin as [<- | []]. reflexivity.
  - left. path_run H; try contradiction. destruct Hin as [<- | []]. reflexivity.
Qed.

(** The entries of [RunContainerThenRemove]: calls about its container, reads
    and prints. *)
Lemma Run_entries (id : string) (acts : list Act) (q : Prog unit) (a : Act) :
  path (RunContainerThenRemove id) acts q -> In a acts ->
  is_io a = true \/ container_of a = Some id /\ is_create a = false.
Proof.
  unfold RunContainerThenRemove. cbn [bind]. intros H Hin.
  destruct acts as [|x acts]; [contradiction|]. cbn [path] in H.
  destruct H as [r1 [-> H]]. destruct Hin as [<- | Hin]; [right; now split|].
  destruct r1 as [e|].
  { left. path_run H; try contradiction. destruct Hin as [<- | []]. reflexivity. }
  cbn [bind] in H. destruct acts as [|x acts]; [contradiction|]. cbn [path] in H.
  destruct H as [r2 [-> H]]. destruct Hin as [<- | Hin]; [right; now split|].
  destruct r2 as [rc|e].
  2:{ left. path_run H; try contradiction. destruct Hin as [<- | []]. reflexivity. }
  cbv zeta in H.
  apply path_bind in H as [[m' [H1 _]] | [r [a1 [a2 [-> [H1 H2]]]]]].
  - apply (copy_paths _ _ GitDumperLog_Write_prints) in H1 as [H1 _].
    left. now apply (forallb_In _ _ _ H1).
  - apply (copy_paths _ _ GitDumperLog_Write_prints) in H1 as [H1 _].
    apply in_app_or in Hin as [Hin | Hin]; [left; now apply (forallb_In _ _ _ H1)|].
    cbn [bind] in H2. destruct a2 as [|x a2]; [contradiction|]. cbn [path] in H2.
    destruct H2 as [r4 [-> H2]]. path_run H2; try contradiction.
    destruct Hin as [<- | []]. right. now split.
Qed.

(** After the create request of a target. *)
Lemma create_then {B : Type} (L : Lib) (out u : string) (F : string -> Prog B)
    (acts : list Act) (q : Prog B) (a : Act) :
  path (id <- CreateContainer L out u ;; F id)%prog acts q -> In a acts ->
  is_print a = true
  \/ (exists url r, url_Parse L u = inl url /\ a = ACall (create_request out u url) r
                    /\ hd_error acts = Some a)
  \/ (exists url id a2,
        url_Parse L u = inl url
        /\ acts = ACall (create_request out u url) (RStr (inl id)) :: a2
        /\ path (F id) a2 q /\ In a a2).
Proof.
  intros H Hin.
  apply path_bind in H as [[m' [H1 _]] | [id [a1 [a2 [-> [H1 H2]]]]]].
  - destruct (CreateContainer_entries _ _ _ _ _ _ H1 Hin) as [Hp | [url [r [Hu [-> [_ Hh]]]]]];
      [now left|]. right; left. now exists url, r.
  - pose proof (CreateContainer_paths _ _ _ _ _ H1) as [_ Hc].
    destruct (Hc id eq_refl) as [url [Hu ->]].
    cbn [app] in Hin. destruct Hin as [<- | Hin].
    + right; left. now exists url, (RStr (inl id)).
    + right; right. now exists url, id, a2.
Qed.

(** The entries of the only target of [main]. *)
Lemma single_entries (L : Lib) (out u : string) (acts : list Act) (q : Prog unit) (a : Act) :
  path (single L out u) acts q -> In a acts ->
  is_io a = true
  \/ (exists url r, url_Parse L u = inl url /\ a = ACall (create_request out u url) r
                    /\ hd_error acts = Some a)
  \/ (exists url id,
        url_Parse L u = inl url
        /\ hd_error acts = Some (ACall (create_request out u url) (RStr (inl id)))
        /\ container_of a = Some id /\ is_create a = false).
Proof.
  intros H Hin. unfold single in H.
  destruct (create_then _ _ _ _ _ _ _ H Hin)
    as [Hp | [Hc | [url [id [a2 [Hu [-> [H2 Hin2]]]]]]]].
  - left. unfold is_io. now rewrite Hp.
  - now right; left.
  - destruct (Run_entries _ _ _ _ H2 Hin2) as [Hio | [Hc1 Hc2]]; [now left|].
    right; right. now exists url, id.
Qed.

(** The entries of a job. *)
Lemma job_entries (L : Lib) (out u : string) (acts : list Act) (q : Prog unit) (a : Act) :
  path (job L out u) acts q -> In a acts ->
  is_io a = true
  \/ (exists url r, url_Parse L u = inl url /\ a = ACall (create_request out u url) r
                    /\ hd_error acts = Some a)
  \/ (exists url id,
        url_Parse L u = inl url
        /\ hd_error acts = Some (ACall (create_request out u url) (RStr (inl id)))
        /\ container_of a = Some id /\ is_create a = false)
  \/ a = ACall wg_Done RUnit.
Proof.
  intros H Hin. unfold job in H.
  destruct (create_then _ _ _ _ _ _ _ H Hin)
    as [Hp | [Hc | [url [id [a2 [Hu [-> [H2 Hin2]]]]]]]].
  - left. unfold is_io. now rewrite Hp.
  - now right; left.
  - apply path_bind in H2 as [[m' [H2 _]] | [[] [b1 [b2 [-> [H2 H3]]]]]].
    + destruct (Run_entries _ _ _ _ H2 Hin2) as [Hio | [Hc1 Hc2]]; [now left|].
      right; right; left. now exists url, id.
    + apply in_app_or in Hin2 as [Hin2 | Hin2].
      * destruct (Run_entries _ _ _ _ H2 Hin2) as [Hio | [Hc1 Hc2]]; [now left|].
        right; right; left. now exists url, id.
      * right; right; right. unfold call in H3. path_run H3; try contradiction.
        destruct Hin2 as [<- | []]. reflexivity.
Qed.

(** [main] after the set-up: the build, and then the branch of the list
    file or the only target. *)
Lemma main_tail_split (L : Lib) (fl : Flags) (out : string) (inputFile : option (list string))
    (b : list Act) (q : Prog unit) :
  path (main_tail L fl out inputFile) b q ->
  (build_shape b /\ is_ret q = false)
  \/ exists b1 b2,
       b = b1 ++ b2 /\ build_complete L (tarFile fl) b1
       /\ match inputFile with
          | Some urls => exists rest, b2 ++ rest = file_acts L out urls
                                      /\ (is_ret q = true -> rest = [])
          | None => path (single L out (input fl)) b2 q
          end.
Proof.
  unfold main_tail. intro H.
  apply path_bind in H as [[m' [H3 [-> H4]]] | [[] [b1 [b2 [-> [H3 H4]]]]]].
  { left. split; [now apply BuildImage_paths in H3 | now apply bind_not_ret]. }
  right. exists b1, b2. apply BuildImage_paths in H3 as [Hb1 H3].
  split; [reflexivity|]. split; [now apply H3|].
  destruct inputFile as [urls|]; [now apply file_branch_paths | exact H4].
Qed.

Lemma build_kind (b : list Act) (a : Act) :
  build_shape b -> In a b ->
  is_go a = false /\ is_container a = false /\ is_cleanup a = false
  /\ is_wg_Done a = false /\ added a = 0 /\ setup_act a = false \/ is_print a = true.
Proof.
  intros H Hin. apply build_shape_acts in H. apply (forallb_In _ _ _ H) in Hin.
  destruct a as [[] ? | ? ?]; try discriminate Hin;
    first [left; now repeat split | right; reflexivity].
Qed.

(** The [go] statements of [main] after the set-up start the jobs of the
    lines of the list file. *)
Lemma main_tail_go (L : Lib) (fl : Flags) (out : string) (inputFile : option (list string))
    (b : list Act) (q : Prog unit) (l : Label) (c : Prog unit) :
  path (main_tail L fl out inputFile) b q -> In (AGo l c) b ->
  exists urls i u, inputFile = Some urls /\ l = LJob i /\ nth_error urls i = Some u
                   /\ c = job L out u.
Proof.
  intros H Hin. apply main_tail_split in H as [[H _] | [b1 [b2 [-> [Hb1 H]]]]].
  { destruct (build_kind _ _ H Hin) as [[Hg _] | Hp]; discriminate. }
  apply in_app_or in Hin as [Hin | Hin].
  { apply build_complete_shape in Hb1.
    destruct (build_kind _ _ Hb1 Hin) as [[Hg _] | Hp]; discriminate. }
  destruct inputFile as [urls|].
  - destruct H as [rest [H _]]. apply (prefix_In _ _ _ _ H) in Hin.
    apply file_acts_In in Hin as [i [u [-> [Hn ->]]]]. now exists urls, i, u.
  - destruct (single_entries _ _ _ _ _ _ H Hin) as [Hio | [[url [r [_ [E _]]]] | [url [id [_ [_ [E _]]]]]]];
      discriminate.
Qed.

Lemma HandleOutput_kind (o : string) (o1 : list Act) (out : string) (a : Act) :
  path (HandleOutput o) o1 (Ret out) -> In a o1 ->
  is_resolve a = true \/ a = ACall (os_MkdirAll out) (RErr None).
Proof.
  intros H Hin. apply HandleOutput_ret in H as [_ [pre [-> [Hk _]]]].
  apply in_app_or in Hin as [Hin | [<- | []]]; [left | now right].
  now apply (forallb_In _ _ _ Hk).
Qed.

(** The [go] statements of [main]. *)
Lemma started_go (L : Lib) (fl : Flags) (acts : list Act) (out : string)
    (inputFile : option (list string)) (b : list Act) (q : Prog unit)
    (l : Label) (c : Prog unit) :
  started L fl acts out inputFile b q -> In (AGo l c) acts ->
  (l = LSignals /\ c = HandleSIGTERM (cleanup out))
  \/ exists urls i u, inputFile = Some urls /\ l = LJob i /\ nth_error urls i = Some u
                      /\ c = job L out u.
Proof.
  intros [a1 [o1 [-> [H1 [H2 H3]]]]] Hin.
  apply in_app_or in Hin as [Hin | Hin].
  { apply HandleInput_ret in H1 as [[_ [-> _]] | [urls [_ [-> _]]]];
      [contradiction | destruct Hin as [E | []]; discriminate E]. }
  apply in_app_or in Hin as [Hin | [E | [E | Hin]]].
  - destruct (HandleOutput_kind _ _ _ _ H2 Hin) as [E | E]; discriminate E.
  - discriminate E.
  - injection E as <- <-. now left.
  - right. now apply (main_tail_go _ _ _ _ _ _ _ _ H3).
Qed.

(** Where [main] stands in a run. *)
Lemma main_view (W : World) (fl : Flags) (sched : list Move) :
  (forallb setup_act (proj LMain (trace (process W fl sched))) = true
   /\ status (process W fl sched) <> Finished)
  \/ exists out inputFile b q,
       started (lib W) fl (proj LMain (trace (process W fl sched))) out inputFile b q
       /\ threads (process W fl sched) LMain = Some q.
Proof.
  destruct (main_thread W fl sched) as [q [Hq Ht]].
  apply main_split in Hq as [[H1 H2] | [a1 [o1 [inputFile [out [b [E [Ha [Ho Hb]]]]]]]]].
  - left. split; [exact H1|]. intro Hf. unfold process in *.
    apply finished_ret in Hf as [x Hx]. rewrite Hx in Ht. injection Ht as <-. discriminate H2.
  - right. exists out, inputFile, b, q. split; [|exact Ht]. now exists a1, o1.
Qed.

(** While [main] is in the set-up it is alone. *)
Lemma alone_in_setup (W : World) (fl : Flags) (sched : list Move) (l : Label) (a : Act) :
  forallb setup_act (proj LMain (trace (process W fl sched))) = true ->
  In (l, a) (trace (process W fl sched)) -> l = LMain.
Proof.
  intros Hs Hin.
  assert (Hno : forall l' c, ~ In (LMain, AGo l' c) (trace (process W fl sched))).
  { intros l' c H. apply proj_In in H. apply (forallb_In _ _ _ Hs) in H. discriminate H. }
  destruct (acted_alive _ _ _ _ _ Hin) as [p Hp].
  destruct (thread_runs _ _ _ _ _ Hp) as [c [Hpath Hc]].
  destruct l; trivial; destruct Hc as [_ Hc]; try (now apply Hno in Hc).
  exfalso. destruct (acted_alive _ _ _ _ _ Hc) as [p' Hp'].
  destruct (thread_runs _ _ _ _ _ Hp') as [c' [_ [_ Hc']]]. now apply Hno in Hc'.
Qed.

(** What the other goroutines run, given where [main] stands. *)
Lemma goroutine_view (W : World) (fl : Flags) (sched : list Move) (out : string)
    (inputFile : option (list string)) (b : list Act) (q : Prog unit)
    (l : Label) (p : Prog unit) :
  started (lib W) fl (proj LMain (trace (process W fl sched))) out inputFile b q ->
  threads (process W fl sched) l = Some p ->
  match l with
  | LMain => True
  | LSignals => path (HandleSIGTERM (cleanup out)) (proj l (trace (process W fl sched))) p
  | LHandler => path (signal_goroutine (cleanup out)) (proj l (trace (process W fl sched))) p
  | LJob i => exists urls u, inputFile = Some urls /\ nth_error urls i = Some u
                /\ path (job (lib W) out u) (proj l (trace (process W fl sched))) p
  end.
Proof.
  intros Hst Hp.
  assert (Hsig : forall p', threads (process W fl sched) LSignals = Some p' ->
            path (HandleSIGTERM (cleanup out)) (proj LSignals (trace (process W fl sched))) p').
  { intros p' Hp'. destruct (thread_runs _ _ _ _ _ Hp') as [c [Hpath [_ Hc]]].
    apply proj_In in Hc.
    destruct (started_go _ _ _ _ _ _ _ _ _ Hst Hc) as [[_ ->] | [urls [i [u [_ [E _]]]]]];
      [exact Hpath | discriminate E]. }
  destruct l.
  - exact I.
  - now apply Hsig.
  - destruct (thread_runs _ _ _ _ _ Hp) as [c [Hpath [_ Hc]]].
    destruct (acted_alive _ _ _ _ _ Hc) as [p' Hp'].
    pose proof (Hsig _ Hp') as Hs. apply proj_In in Hc.
    apply HandleSIGTERM_paths in Hs as [rest Hs].
    apply (prefix_In _ _ _ _ Hs) in Hc.
    destruct Hc as [E | [E | []]]; [discriminate E|]. injection E as <-. exact Hpath.
  - destruct (thread_runs _ _ _ _ _ Hp) as [c [Hpath [_ Hc]]]. apply proj_In in Hc.
    destruct (started_go _ _ _ _ _ _ _ _ _ Hst Hc) as [[E _] | [urls [j [u [Hi [E [Hn ->]]]]]]];
      [discriminate E|]. injection E as <-. now exists urls, u.
Qed.

(* ================================================================= *)
(** ** Part 19: the containers of a run *)

(** What the set-up has done when [main] has started the signal goroutine. *)
Lemma started_facts (L : Lib) (fl : Flags) (acts : list Act) (out : string)
    (inputFile : option (list string)) (b : list Act) (q : Prog unit) :
  started L fl acts out inputFile b q ->
  output fl <> ""
  /\ In (ACall (os_MkdirAll out) (RErr None)) acts
  /\ In (ACall client_NewClientWithOpts (RErr None)) acts
  /\ match inputFile with
     | Some urls =>
         inputFilePath fl <> ""
         /\ In (ACall (os_Open (inputFilePath fl)) (RLines (inl urls))) acts
     | None => inputFilePath fl = "" /\ input fl <> ""
     end.
Proof.
  intros [a1 [o1 [-> [H1 [H2 H3]]]]].
  apply HandleOutput_ret in H2 as [Ho [pre [-> _]]]. split; [exact Ho|]. split.
  { apply in_or_app. right. apply in_or_app. left. apply in_or_app. right. now left. }
  split.
  { apply in_or_app. right. apply in_or_app. right. now left. }
  apply HandleInput_ret in H1 as [[-> [-> [Hf Hi]]] | [urls [-> [-> Hf]]]].
  - now split.
  - split; [exact Hf | now left].
Qed.

(** An entry of [main] is an entry of the set-up, the start of the signal
    goroutine, or an entry of what follows. *)
Lemma started_entry (L : Lib) (fl : Flags) (acts : list Act) (out : string)
    (inputFile : option (list string)) (b : list Act) (q : Prog unit) (a : Act) :
  started L fl acts out inputFile b q -> In a acts ->
  (setup_act a = true
   /\ (forall p r, a = ACall (os_MkdirAll p) r -> p = out /\ r = RErr None))
  \/ a = AGo LSignals (HandleSIGTERM (cleanup out))
  \/ In a b.
Proof.
  intros [a1 [o1 [-> [H1 [H2 H3]]]]] Hin.
  apply in_app_or in Hin as [Hin | Hin].
  { left. apply HandleInput_ret in H1 as [[_ [-> _]] | [urls [_ [-> _]]]]; [contradiction|].
    destruct Hin as [<- | []]. split; [reflexivity | discriminate]. }
  apply in_app_or in Hin as [Hin | [<- | [<- | Hin]]].
  - left. destruct (HandleOutput_kind _ _ _ _ H2 Hin) as [E | ->].
    + destruct a as [[] ? | ? ?]; try discriminate E; (split; [reflexivity | discriminate]).
    + split; [reflexivity|]. intros p r E. injection E as <- <-. now split.
  - left. split; [reflexivity | discriminate].
  - now right; left.
  - now right; right.
Qed.

(** What [main] does after the build is over. *)
Lemma tail_entry (L : Lib) (fl : Flags) (out : string) (inputFile : option (list string))
    (b : list Act) (q : Prog unit) (a : Act) :
  path (main_tail L fl out inputFile) b q -> In a b ->
  build_act a = true
  \/ (exists urls, inputFile = Some urls /\ In a (file_acts L out urls))
  \/ (inputFile = None
      /\ exists b1 b2, b = b1 ++ b2 /\ path (single L out (input fl)) b2 q /\ In a b2).
Proof.
  intros H Hin. apply main_tail_split in H as [[H _] | [b1 [b2 [-> [Hb1 H]]]]].
  { left. apply build_shape_acts in H. now apply (forallb_In _ _ _ H). }
  apply in_app_or in Hin as [Hin | Hin].
  { left. apply build_complete_shape, build_shape_acts in Hb1.
    now apply (forallb_In _ _ _ Hb1). }
  destruct inputFile as [urls|].
  - right; left. destruct H as [rest [H _]]. exists urls. split; [reflexivity|].
    now apply (prefix_In _ _ _ _ H).
  - right; right. split; [reflexivity|]. now exists b1, b2.
Qed.

Lemma file_acts_kind_of (L : Lib) (out : string) (urls : list string) (a : Act) :
  In a (file_acts L out urls) ->
  is_container a = false /\ is_wg_Done a = false /\ is_cleanup a = false
  /\ is_build_call a = false /\ setup_act a = false /\ is_print a = false.
Proof.
  intro H. apply (forallb_In _ _ _ (file_acts_kind L out urls)) in H.
  destruct a as [[] ? | [] ?]; try discriminate H; now repeat split.
Qed.

Lemma build_act_kind (a : Act) :
  build_act a = true ->
  is_container a = false /\ is_wg_Done a = false /\ is_cleanup a = false /\ is_go a = false.
Proof. destruct a as [[] ? | ? ?]; intro H; try discriminate H; now repeat split. Qed.

Lemma setup_act_kind (a : Act) :
  setup_act a = true ->
  is_container a = false /\ is_wg_Done a = false /\ is_cleanup a = false /\ is_go a = false
  /\ is_build_call a = false.
Proof. destruct a as [[] ? | ? ?]; intro H; try discriminate H; now repeat split. Qed.

Lemma io_act_kind (a : Act) :
  is_io a = true ->
  is_container a = false /\ is_wg_Done a = false /\ is_cleanup a = false /\ is_go a = false
  /\ is_build_call a = false.
Proof. destruct a as [[] ? | ? ?]; intro H; try discriminate H; now repeat split. Qed.

Lemma create_is_container (a : Act) : is_create a = true -> is_container a = true.
Proof. destruct a as [[] ? | ? ?]; intro H; try discriminate H; reflexivity. Qed.

Lemma container_of_container (a : Act) (id : string) :
  container_of a = Some id -> is_container a = true /\ is_create a = false.
Proof. destruct a as [[] ? | ? ?]; intro H; try discriminate H; now split. Qed.

(** The entries of the two goroutines of the signal. *)
Lemma signal_entries (W : World) (fl : Flags) (sched : list Move) (out : string)
    (inputFile : option (list string)) (b : list Act) (q : Prog unit) (l : Label) (a : Act) :
  started (lib W) fl (proj LMain (trace (process W fl sched))) out inputFile b q ->
  In (l, a) (trace (process W fl sched)) -> l = LSignals \/ l = LHandler ->
  is_signal_act a = true /\ is_container a = false /\ is_wg_Done a = false
  /\ (forall d r, a = ACall (os_RemoveAll d) r -> d = out)
  /\ (l = LHandler -> exists r rest,
        proj LHandler (trace (process W fl sched)) ++ rest = handler_acts out r).
Proof.
  intros Hst Hin Hl. destruct (acted_alive _ _ _ _ _ Hin) as [p Hp].
  pose proof (goroutine_view _ _ _ _ _ _ _ _ _ Hst Hp) as Hv. apply proj_In in Hin.
  destruct Hl as [-> | ->].
  - apply HandleSIGTERM_paths in Hv as [rest Hv]. apply (prefix_In _ _ _ _ Hv) in Hin.
    destruct Hin as [<- | [<- | []]]; repeat split; discriminate.
  - apply signal_goroutine_paths in Hv as [r [rest [Hv _]]].
    pose proof (prefix_In _ _ _ _ Hv Hin) as Hin'. unfold handler_acts in Hin'.
    assert (Hk : is_signal_act a = true /\ is_container a = false /\ is_wg_Done a = false
                 /\ (forall d r0, a = ACall (os_RemoveAll d) r0 -> d = out)).
    { destruct r; simpl in Hin';
        repeat (destruct Hin' as [<- | Hin'];
                [repeat split; try discriminate; intros d r0 E; now injection E as <-|]);
        contradiction. }
    destruct Hk as [H1 [H2 [H3 H4]]]. repeat split; trivial. intros _. now exists r, rest.
Qed.

(** Who makes a container call, and for which target. *)
Lemma container_entry (W : World) (fl : Flags) (sched : list Move) (l : Label) (a : Act) :
  In (l, a) (trace (process W fl sched)) -> is_container a = true ->
  exists out inputFile b q target acts,
    started (lib W) fl (proj LMain (trace (process W fl sched))) out inputFile b q
    /\ In a acts
    /\ (exists rest, path (single (lib W) out target) acts rest
                     \/ path (job (lib W) out target) acts rest)
    /\ (forall x, In x acts -> In (l, x) (trace (process W fl sched)))
    /\ ((l = LMain /\ inputFile = None /\ target = input fl)
        \/ exists i urls, l = LJob i /\ inputFile = Some urls /\ nth_error urls i = Some target).
Proof.
  intros Hin Hc.
  destruct (main_view W fl sched) as [[Hs _] | [out [inputFile [b [q [Hst Hq]]]]]].
  { pose proof (alone_in_setup _ _ _ _ _ Hs Hin) as ->. apply proj_In in Hin.
    apply (forallb_In _ _ _ Hs), setup_act_kind in Hin as [Hin _]. congruence. }
  destruct l.
  - apply proj_In in Hin.
    destruct (started_entry _ _ _ _ _ _ _ _ Hst Hin) as [[Hk _] | [-> | Hb]].
    + apply setup_act_kind in Hk as [Hk _]. congruence.
    + discriminate Hc.
    + pose proof Hst as [a1 [o1 [E [_ [_ H3]]]]].
      destruct (tail_entry _ _ _ _ _ _ _ H3 Hb) as [Hk | [[urls [_ Hk]] | [-> [b1 [b2 [Eb [Hp Hb2]]]]]]].
      * apply build_act_kind in Hk as [Hk _]. congruence.
      * apply file_acts_kind_of in Hk as [Hk _]. congruence.
      * exists out, None, b, q, (input fl), b2. split; [exact Hst|]. split; [exact Hb2|].
        split; [exists q; now left|]. split; [|left; now repeat split].
        intros x Hx. apply proj_In. rewrite E, Eb.
        apply in_or_app. right. apply in_or_app. right. right. right.
        apply in_or_app. now right.
  - destruct (signal_entries _ _ _ _ _ _ _ _ _ Hst Hin (or_introl eq_refl)) as [_ [H _]].
    congruence.
  - destruct (signal_entries _ _ _ _ _ _ _ _ _ Hst Hin (or_intror eq_refl)) as [_ [H _]].
    congruence.
  - destruct (acted_alive _ _ _ _ _ Hin) as [p Hp].
    destruct (goroutine_view _ _ _ _ _ _ _ _ _ Hst Hp) as [urls [u [-> [Hn Hpath]]]].
    exists out, (Some urls), b, q, u, (proj (LJob i) (trace (process W fl sched))).
    split; [exact Hst|]. split; [now apply proj_In|].
    split; [exists p; now right|]. split; [intros x Hx; now apply proj_In|].
    right. now exists i, urls.
Qed.

(** X10.  Every create request of a run.  It is made for a target that
    [url.Parse] accepted, by [main] for the target of [-u] when no list file
    is given, or by the job of a line of the opened list file for that line;
    the container is named by the identifier of the target, its command is
    [git-dumper] with the target and the directory of that name, and what it
    mounts is the output directory that [os.MkdirAll] created before. *)
Theorem every_create_request (W : World) (fl : Flags) (sched : list Move) (l : Label) (a : Act) :
  In (l, a) (trace (process W fl sched)) -> is_create a = true ->
  exists out target url r,
    a = ACall (client_ContainerCreate
                 (mkConfig "gget" true true "gget"
                    ["git-dumper"; target; String.append "/home/gget/" (hostname_of url)])
                 (mkHostConfig [mkMount TypeBind out "/home/gget"])
                 (hostname_of url)) r
    /\ url_Parse (lib W) target = inl url
    /\ In (LMain, ACall (os_MkdirAll out) (RErr None)) (trace (process W fl sched))
    /\ ((l = LMain /\ inputFilePath fl = "" /\ target = input fl)
        \/ exists i urls,
             l = LJob i
             /\ In (LMain, ACall (os_Open (inputFilePath fl)) (RLines (inl urls)))
                  (trace (process W fl sched))
             /\ nth_error urls i = Some target).
Proof.
  intros Hin Hc.
  destruct (container_entry _ _ _ _ _ Hin (create_is_container _ Hc))
    as [out [inputFile [b [q [target [acts [Hst [Ha [[rest Hp] [Hall Hwho]]]]]]]]]].
  destruct (started_facts _ _ _ _ _ _ _ Hst) as [_ [Hm [_ Hf]]].
  assert (Hshape : exists url r, url_Parse (lib W) target = inl url
                                 /\ a = ACall (create_request out target url) r).
  { destruct Hp as [Hp | Hp].
    - destruct (single_entries _ _ _ _ _ _ Hp Ha)
        as [Hio | [[url [r [Hu [E _]]]] | [url [id [_ [_ [_ E]]]]]]].
      + apply io_act_kind in Hio as [Hio _]. apply create_is_container in Hc. congruence.
      + now exists url, r.
      + congruence.
    - destruct (job_entries _ _ _ _ _ _ Hp Ha)
        as [Hio | [[url [r [Hu [E _]]]] | [[url [id [_ [_ [_ E]]]]] | ->]]].
      + apply io_act_kind in Hio as [Hio _]. apply create_is_container in Hc. congruence.
      + now exists url, r.
      + congruence.
      + discriminate Hc. }
  destruct Hshape as [url [r [Hu ->]]]. exists out, target, url, r.
  split; [reflexivity|]. split; [exact Hu|]. split; [now apply proj_In|].
  destruct Hwho as [[-> [-> ->]] | [i [urls [-> [-> Hn]]]]].
  - left. now repeat split.
  - right. exists i, urls. destruct Hf as [_ Hf]. repeat split; trivial. now apply proj_In.
Qed.

Lemma every_create_request_witness :
  exists out target url r,
    ACall (client_ContainerCreate
             (mkConfig "gget" true true "gget"
                ["git-dumper"; "http://b.org/.git"; "/home/gget/b_org"])
             (mkHostConfig [mkMount TypeBind "/out" "/home/gget"]) "b_org")
          (RStr (inl "id-b_org"))
    = ACall (client_ContainerCreate
               (mkConfig "gget" true true "gget"
                  ["git-dumper"; target; String.append "/home/gget/" (hostname_of url)])
               (mkHostConfig [mkMount TypeBind out "/home/gget"])
               (hostname_of url)) r
    /\ url_Parse mock_lib target = inl url.
Proof.
  destruct (every_create_request (mock_world ok_script) list_flags all_sched (LJob 1)
              (ACall (client_ContainerCreate
                        (mkConfig "gget" true true "gget"
                           ["git-dumper"; "http://b.org/.git"; "/home/gget/b_org"])
                        (mkHostConfig [mkMount TypeBind "/out" "/home/gget"]) "b_org")
                     (RStr (inl "id-b_org"))))
    as [out [target [url [r [H1 [H2 _]]]]]].
  - apply (nth_error_In _ 16). vm_compute. reflexivity.
  - reflexivity.
  - exists out, target, url, r. split; [exact H1 | exact H2].
Defined.

(** A list, cut at one of its positions. *)
Lemma cut_at {A : Type} (l : list A) (n : nat) (x : A) :
  nth_error l n = Some x -> l = firstn n l ++ x :: skipn (S n) l.
Proof.
  revert n. induction l as [|y l IH]; intros [|n] H; try discriminate H.
  - injection H as ->. reflexivity.
  - cbn [firstn skipn app]. f_equal. now apply IH.
Qed.

(** The lemma behind the next theorem, without the order. *)
Lemma used_was_created (W : World) (fl : Flags) (sched : list Move) (l : Label) (a : Act)
    (id : string) :
  In (l, a) (trace (process W fl sched)) -> container_of a = Some id ->
  exists out target url,
    In (l, ACall (create_request out target url) (RStr (inl id))) (trace (process W fl sched)).
Proof.
  intros Hin Hc. pose proof (container_of_container _ _ Hc) as [Hk Hn].
  destruct (container_entry _ _ _ _ _ Hin Hk)
    as [out [inputFile [b [q [target [acts [Hst [Ha [[rest Hp] [Hall _]]]]]]]]]].
  assert (Hhd : exists url, hd_error acts
                            = Some (ACall (create_request out target url) (RStr (inl id)))).
  { destruct Hp as [Hp | Hp].
    - destruct (single_entries _ _ _ _ _ _ Hp Ha)
        as [Hio | [[url [r [Hu [E _]]]] | [url [id' [_ [Hh [E _]]]]]]].
      + apply io_act_kind in Hio as [Hio _]. congruence.
      + subst a. discriminate Hc.
      + exists url. congruence.
    - destruct (job_entries _ _ _ _ _ _ Hp Ha)
        as [Hio | [[url [r [Hu [E _]]]] | [[url [id' [_ [Hh [E _]]]]] | ->]]].
      + apply io_act_kind in Hio as [Hio _]. congruence.
      + subst a. discriminate Hc.
      + exists url. congruence.
      + discriminate Hc. }
  destruct Hhd as [url Hhd]. exists out, target, url. apply Hall.
  destruct acts as [|x acts]; [discriminate Hhd|]. injection Hhd as ->. now left.
Qed.

(** X11.  A container that is started, followed or removed was created before, by
    the same goroutine of the same run: the id of every start, logs and
    remove call is the id that an earlier create request returned. *)
Theorem containers_used_were_created (W : World) (fl : Flags) (sched : list Move)
    (pre : Trace) (l : Label) (a : Act) (post : Trace) (id : string) :
  trace (process W fl sched) = pre ++ (l, a) :: post ->
  container_of a = Some id ->
  exists out target url,
    In (l, ACall (client_ContainerCreate (container_Config target (hostname_of url))
                    (container_HostConfig out) (hostname_of url)) (RStr (inl id))) pre.
Proof.
  intros Htr Hc. unfold process in Htr.
  apply prefix_reachable in Htr as [sched' Htr]; [|reflexivity].
  destruct (used_was_created W fl sched' l a id) as [out [target [url H]]].
  - unfold process. rewrite Htr. apply in_or_app. right. now left.
  - exact Hc.
  - exists out, target, url. unfold process in H. rewrite Htr in H.
    apply in_app_or in H as [H | [E | []]]; [exact H|].
    injection E as E. subst a. discriminate Hc.
Qed.

Lemma containers_used_were_created_witness :
  exists out target url,
    In (LJob 0, ACall (client_ContainerCreate (container_Config target (hostname_of url))
                         (container_HostConfig out) (hostname_of url)) (RStr (inl "id-a_com")))
       (firstn 15 (trace (process (mock_world ok_script) list_flags all_sched))).
Proof.
  refine (containers_used_were_created (mock_world ok_script) list_flags all_sched
            (firstn 15 (trace (process (mock_world ok_script) list_flags all_sched)))
            (LJob 0) (ACall (client_ContainerStart "id-a_com") (RErr None))
            (skipn 16 (trace (process (mock_world ok_script) list_flags all_sched)))
            "id-a_com" _ eq_refl).
  apply cut_at. vm_compute. reflexivity.
Defined.

(* ================================================================= *)
(** ** Part 20: the signal and the clean-up *)

Lemma signal_inv_more (sched : list Move) (m : Move) (s : State) :
  signal_inv sched s -> signal_inv (sched ++ [m]) s.
Proof.
  intros [H1 [H2 [H3 H4]]]. repeat split; trivial.
  - now apply H1.
  - apply in_or_app. left. now apply H1.
  - now apply (H2 l r).
  - apply in_or_app. left. now apply (H2 l r).
Qed.

Lemma signal_inv_step (sched : list Move) (s s' : State) :
  signal_inv sched s ->
  (forall l r, In (l, ACall chan_Receive r) (trace s') ->
               In (l, ACall chan_Receive r) (trace s) \/ pending s = true) ->
  (forall e, In e (trace s) -> In e (trace s')) ->
  (notified s = true -> notified s' = true) ->
  (notified s' = true ->
   notified s = true \/ exists l r, In (l, ACall signal_Notify r) (trace s')) ->
  (pending s' = true -> pending s = true) ->
  status s' <> Killed ->
  signal_inv sched s'.
Proof.
  intros [H1 [H2 [H3 H4]]] Hr Ht Hn Hn' Hp Hk.
  assert (Hrec : forall l r, In (l, ACall chan_Receive r) (trace s') ->
                             notified s = true /\ In Signal sched).
  { intros l r H. destruct (Hr l r H) as [H' | H']; [now apply (H2 l r) | now apply H1]. }
  split; [|split; [|split]].
  - intro H. apply Hp, H1 in H as [H H']. split; [now apply Hn | exact H'].
  - intros l r H. destruct (Hrec l r H) as [H' H'']. split; [now apply Hn | exact H''].
  - intro H. now elim Hk.
  - intro H. destruct (Hn' H) as [H' | H']; [|exact H'].
    destruct (H4 H') as [l [r H0]]. exists l, r. now apply Ht.
Qed.

Lemma move_signal (W : World) (sched : list Move) (m : Move) (s : State) :
  signal_inv sched s -> signal_inv (sched ++ [m]) (move W m s).
Proof.
  intro IH. pose proof (signal_inv_more sched m s IH) as IH'.
  destruct m as [l|]; simpl.
  - unfold step. destruct (status s) eqn:Hs; trivial.
    destruct (threads s l) as [p|] eqn:Hl; trivial.
    destruct p as [a | c | o k | l' c k].
    + destruct l; trivial.
      apply (signal_inv_step _ s); simpl; auto; discriminate.
    + apply (signal_inv_step _ s); simpl; auto; discriminate.
    + destruct (blocked o s) eqn:Hb; trivial.
      destruct (effect l o s) as [[[w n] pd] st] eqn:E.
      assert (Hst : st <> Killed).
      { destruct o; simpl in E; injection E as _ _ _ <-; try congruence.
        destruct (wg s - 1 <? 0)%Z; congruence. }
      assert (Hn : notified s = true -> n = true).
      { destruct o; simpl in E; injection E as _ <- _ _; trivial. }
      assert (Hn' : n = true -> notified s = true \/ o = signal_Notify).
      { destruct o; simpl in E; injection E as _ <- _ _; auto. }
      assert (Hpd : pd = true -> pending s = true).
      { destruct o; simpl in E; injection E as _ _ <- _; first [discriminate | trivial]. }
      apply (signal_inv_step _ s); simpl; auto.
      * intros l0 r H. apply in_app_or in H as [H | [H | []]]; [now left|].
        injection H as _ Ho _. subst o. simpl in Hb. apply negb_false_iff in Hb. now right.
      * intros e H. apply in_or_app. now left.
      * intro H. destruct (Hn' H) as [H' | ->]; [now left|]. right.
        exists l, RUnit. apply in_or_app. right. now left.
    + destruct (threads s l'); trivial.
      apply (signal_inv_step _ s); simpl; auto; try congruence.
      * intros l0 r H. apply in_app_or in H as [H | [H | []]]; [now left | discriminate H].
      * intros e H. apply in_or_app. now left.
  - unfold deliver. destruct (status s) eqn:Hs; trivial.
    destruct IH as [H1 [H2 [H3 H4]]].
    assert (Hin : In Signal (sched ++ [Signal])) by (apply in_or_app; right; now left).
    destruct (notified s) eqn:Hn; (split; [|split; [|split]]); simpl.
    + intros _. now split.
    + intros l r H. now split.
    + congruence.
    + exact H4.
    + intro Hp. destruct (H1 Hp). congruence.
    + intros l r H. destruct (H2 l r H). congruence.
    + reflexivity.
    + discriminate.
Qed.

Lemma run_signal (W : World) (p0 : Prog unit) (sched : list Move) :
  signal_inv sched (run W sched (init p0)).
Proof.
  induction sched as [|m sched IH] using rev_ind.
  - repeat split; simpl; try discriminate; contradiction.
  - rewrite run_snoc. now apply move_signal.
Qed.

(** The goroutine that waits for the signal starts with the receive. *)
Lemma handler_received (W : World) (fl : Flags) (sched : list Move) (a : Act) :
  In (LHandler, a) (trace (process W fl sched)) ->
  In (LHandler, ACall chan_Receive RUnit) (trace (process W fl sched))
  /\ In (LSignals, ACall signal_Notify RUnit) (trace (process W fl sched)).
Proof.
  intro Hin. destruct (acted_alive _ _ _ _ _ Hin) as [p Hp].
  destruct (thread_runs _ _ _ _ _ Hp) as [c [Hpath [[out ->] Hgo]]]. split.
  - apply signal_goroutine_paths in Hpath as [r [rest Hpath]]. destruct Hpath as [Hpath _].
    apply proj_In in Hin. apply proj_In.
    destruct (proj LHandler (trace (process W fl sched))) as [|x xs]; [contradiction|].
    unfold handler_acts in Hpath. simpl in Hpath. injection Hpath as -> _. now left.
  - destruct (acted_alive _ _ _ _ _ Hgo) as [p' Hp'].
    destruct (thread_runs _ _ _ _ _ Hp') as [c' [Hpath' [[out' ->] _]]].
    apply HandleSIGTERM_paths in Hpath' as [rest Hpath']. apply proj_In in Hgo. apply proj_In.
    destruct (proj LSignals (trace (process W fl sched))) as [|x xs]; [contradiction|].
    unfold signals_acts in Hpath'. simpl in Hpath'. injection Hpath' as -> _. now left.
Qed.

(** X12.  The clean-up needs a signal.  Whatever the goroutine of the
    handler does, and every cancel of the context and deletion of the output
    directory, happens in a run only after [signal.Notify] has registered the
    channel and a signal has arrived after that: the schedule holds a signal,
    the trace holds the registration and the receive, and the process was
    not killed by an unhandled signal. *)
Theorem cleanup_needs_signal (W : World) (fl : Flags) (sched : list Move)
    (l : Label) (a : Act) :
  In (l, a) (trace (process W fl sched)) ->
  l = LHandler \/ is_cleanup a = true ->
  l = LHandler
  /\ In Signal sched
  /\ status (process W fl sched) <> Killed
  /\ In (LSignals, ACall signal_Notify RUnit) (trace (process W fl sched))
  /\ In (LHandler, ACall chan_Receive RUnit) (trace (process W fl sched)).
Proof.
  intros Hin Hl.
  assert (E : l = LHandler).
  { destruct Hl as [-> | Hc]; [reflexivity|]. now apply (only_handler_cleans W fl sched l a). }
  subst l. split; [reflexivity|].
  destruct (handler_received _ _ _ _ Hin) as [Hr Hn].
  destruct (run_signal W (main (lib W) fl) sched) as [_ [H2 [H3 _]]].
  destruct (H2 _ _ Hr) as [Hnt Hs]. repeat split; trivial.
  intro Hk. apply H3 in Hk. congruence.
Qed.

Lemma cleanup_needs_signal_witness :
  In Signal signal_sched
  /\ status (process (mock_world removeAll_fail_script) list_flags signal_sched) <> Killed.
Proof.
  destruct (cleanup_needs_signal (mock_world removeAll_fail_script) list_flags signal_sched
              LHandler (ACall ctx_cancel RUnit)) as [_ [H1 [H2 _]]].
  - apply (nth_error_In _ 21). vm_compute. reflexivity.
  - left. reflexivity.
  - split; [exact H1 | exact H2].
Defined.

(** X13.  The directory that the clean-up deletes is the output directory
    of the run: every call of [os.RemoveAll] is made by the goroutine of the
    handler, on the resolved path that [main] has created with
    [os.MkdirAll] before it started the goroutines of the signal. *)
Theorem cleanup_deletes_created_directory (W : World) (fl : Flags) (sched : list Move)
    (l : Label) (d : string) (r : Rsp) :
  In (l, ACall (os_RemoveAll d) r) (trace (process W fl sched)) ->
  l = LHandler
  /\ In (LMain, ACall (os_MkdirAll d) (RErr None)) (trace (process W fl sched))
  /\ In (LMain, AGo LSignals (HandleSIGTERM (cleanup d))) (trace (process W fl sched))
  /\ output fl <> "".
Proof.
  intro Hin.
  pose proof (only_handler_cleans W fl sched l _ Hin eq_refl) as ->.
  split; [reflexivity|].
  destruct (main_view W fl sched) as [[Hs _] | [out [inputFile [b [q [Hst Hq]]]]]].
  { pose proof (alone_in_setup _ _ _ _ _ Hs Hin) as E. discriminate E. }
  destruct (signal_entries _ _ _ _ _ _ _ _ _ Hst Hin (or_intror eq_refl)) as [_ [_ [_ [Hd _]]]].
  pose proof (Hd d r eq_refl) as ->.
  destruct (started_facts _ _ _ _ _ _ _ Hst) as [Ho [Hm _]].
  split; [now apply proj_In|]. split; [|exact Ho].
  apply proj_In. destruct Hst as [a1 [o1 [-> _]]].
  apply in_or_app. right. apply in_or_app. right. right. now left.
Qed.

Lemma cleanup_deletes_created_directory_witness :
  In (LMain, ACall (os_MkdirAll "/out") (RErr None))
     (trace (process (mock_world removeAll_fail_script) list_flags signal_sched)).
Proof.
  destruct (cleanup_deletes_created_directory (mock_world removeAll_fail_script) list_flags
              signal_sched LHandler "/out" (RErr (Some "permission denied"))) as [_ [H _]].
  - apply (nth_error_In _ 22). vm_compute. reflexivity.
  - exact H.
Defined.
